(** * Coh-Metrix-Dementia: the constituent metrics

    A shallow embedding of [coh/metrics/constituents.py] and of the
    resource-pool contract its metrics rely on.

    - [Py]: the part of the Python runtime the metrics use: exceptions,
      ints, binary64 floats, true division, [sum], [max], [min], list
      indexing, [list.index], slices, [list.sort].
    - [Np]: [numpy.mean] and [numpy.std].
    - one module per metric class, each with its [value_for_text];
    - [Constituents]: the category and its constructor;
    - [resource_pool]: the caching contract of the resource pool. *)

From Stdlib Require Import ZArith List String Ascii Bool Lia.
From Stdlib Require Import Sorted Permutation.
From Stdlib Require Import QArith Qpower Qabs Lqa.
From Stdlib Require Import Floats.SpecFloat.
From stdpp Require Import gmap strings list sorting.
Import ListNotations.

Local Open Scope string_scope.
Local Open Scope list_scope.
Local Open Scope Z_scope.

(* ===================================================================== *)
(** * The Python runtime *)
(* ===================================================================== *)

Module Py.

(** Exceptions the modelled code can raise. *)
Inductive exn : Set :=
| ZeroDivisionError
| IndexError
| ValueError.

(** A computation returns a value or raises. *)
Inductive result (A : Type) : Type :=
| Ok (a : A)
| Raise (e : exn).
Arguments Ok {A} a.
Arguments Raise {A} e.

Definition bind {A B : Type} (m : result A) (k : A -> result B) : result B :=
  match m with
  | Ok a => k a
  | Raise e => Raise e
  end.

Definition raises {A : Type} (m : result A) : bool :=
  match m with
  | Ok _ => false
  | Raise _ => true
  end.

(** ** binary64 floats

    A Python float is an IEEE 754 binary64 number: 53 bits of precision,
    infinities at exponent 1024, round to nearest even. *)

Definition prec : Z := 53.
Definition emax : Z := 1024.

Definition float : Set := spec_float.

Definition fadd : float -> float -> float := SFadd prec emax.
Definition fsub : float -> float -> float := SFsub prec emax.
Definition fmul : float -> float -> float := SFmul prec emax.
Definition fdiv : float -> float -> float := SFdiv prec emax.
Definition fsqrt : float -> float := SFsqrt prec emax.

(** [float(n)] for an int [n]: the nearest binary64 number (exact below
    2^53 in magnitude, which every length and index of this program is). *)
Definition float_of_int (n : Z) : float := binary_normalize prec emax n 0 false.

(** [x == 0.0]: true of both zeros. *)
Definition fis_zero (x : float) : bool :=
  match x with
  | S754_zero _ => true
  | _ => false
  end.

(** ** Numbers: ints and floats *)

Inductive num : Set :=
| Int (n : Z)
| Float (x : float).

Definition to_float (v : num) : float :=
  match v with
  | Int n => float_of_int n
  | Float x => x
  end.

Definition is_zero (v : num) : bool :=
  match v with
  | Int n => n =? 0
  | Float x => fis_zero x
  end.

(** [a / b] under [from __future__ import division]: true division, always a
    float, [ZeroDivisionError] on a zero divisor. *)
Definition truediv (a b : num) : result num :=
  if is_zero b then Raise ZeroDivisionError
  else Ok (Float (fdiv (to_float a) (to_float b))).

(** [a + b]: int addition on two ints, float addition otherwise. *)
Definition add (a b : num) : num :=
  match a, b with
  | Int x, Int y => Int (x + y)
  | _, _ => Float (fadd (to_float a) (to_float b))
  end.

(** [sum(l)]: adds left to right, starting from the int 0. *)
Definition sum (l : list num) : num := fold_left add l (Int 0).

(** [len(l)] as a Python int. *)
Definition len {A : Type} (l : list A) : Z := Z.of_nat (length l).

(** [l[i]] for a non-negative index. *)
Definition getitem {A : Type} (l : list A) (i : nat) : result A :=
  match nth_error l i with
  | Some a => Ok a
  | None => Raise IndexError
  end.

(** [l.index(x)]: position of the first element equal to [x]. *)
Fixpoint index_from {A : Type} (eqb : A -> A -> bool) (x : A) (l : list A)
    (i : nat) : result nat :=
  match l with
  | [] => Raise ValueError
  | y :: l' => if eqb y x then Ok i else index_from eqb x l' (S i)
  end.

Definition index {A : Type} (eqb : A -> A -> bool) (l : list A) (x : A) : result nat :=
  index_from eqb x l 0.

(** [max(l)] and [min(l)] on a list of ints: [ValueError] on the empty list,
    otherwise the first greatest (least) element. *)
Definition max (l : list Z) : result Z :=
  match l with
  | [] => Raise ValueError
  | x :: l' => Ok (fold_left (fun m y => if m <? y then y else m) l' x)
  end.

Definition min (l : list Z) : result Z :=
  match l with
  | [] => Raise ValueError
  | x :: l' => Ok (fold_left (fun m y => if y <? m then y else m) l' x)
  end.

(** [s[-2:]]: the last two characters, the whole string when it is shorter. *)
Definition last2 (s : string) : string :=
  substring (String.length s - 2)%nat 2 s.

(** [s in t] for a tuple of strings. *)
Definition str_in (s : string) (t : list string) : bool :=
  existsb (String.eqb s) t.

(** [a < b] on strings: lexicographic on the code points, no locale. *)
Definition str_lt (a b : string) : bool := String.ltb a b.

(** [l.sort(key=key)]: a stable sort that compares keys with [<] only. On
    lists this short CPython runs a binary insertion sort: it takes the
    elements from left to right and puts each one in the sorted prefix, just
    before the first element whose key is strictly greater. *)
Fixpoint insort {A : Type} (lt : A -> A -> bool) (x : A) (sorted : list A) : list A :=
  match sorted with
  | [] => [x]
  | y :: sorted' => if lt x y then x :: sorted else y :: insort lt x sorted'
  end.

Definition sort {A K : Type} (key : A -> K) (lt : K -> K -> bool) (l : list A) : list A :=
  fold_left (fun sorted x => insort (fun a b => lt (key a) (key b)) x sorted) l [].

End Py.

Notation "'let*' x ':=' m 'in' k" := (Py.bind m (fun x => k))
  (at level 10, x name, m at level 100, k at level 200).


(* ===================================================================== *)
(** * numpy *)
(* ===================================================================== *)

Module Np.

(** An array with its dtype: a list of Python ints becomes an int64 array,
    a list of floats a float64 array. *)
Inductive ndarray : Type :=
| int64 (a : list Z)
| float64 (a : list Py.float).

(** [numpy.asarray] of a list of Python ints. *)
Definition asarray (l : list Z) : ndarray := int64 l.

(** The elements of an array cast to float64. *)
Definition as_float64 (a : ndarray) : list Py.float :=
  match a with
  | int64 l => map Py.float_of_int l
  | float64 l => l
  end.

(** The loop of [pairwise_sum] (numpy, [loops_utils.h.src]) on an array of 8
    to 128 elements: eight accumulators take the elements of each full block
    of eight, they are added two by two, and the elements that are left, fewer
    than eight, are added in sequence. *)
Fixpoint unrolled (r0 r1 r2 r3 r4 r5 r6 r7 : Py.float) (a : list Py.float) : Py.float :=
  match a with
  | a0 :: a1 :: a2 :: a3 :: a4 :: a5 :: a6 :: a7 :: a' =>
      unrolled (Py.fadd r0 a0) (Py.fadd r1 a1) (Py.fadd r2 a2) (Py.fadd r3 a3)
               (Py.fadd r4 a4) (Py.fadd r5 a5) (Py.fadd r6 a6) (Py.fadd r7 a7) a'
  | _ =>
      fold_left Py.fadd a
        (Py.fadd (Py.fadd (Py.fadd r0 r1) (Py.fadd r2 r3))
                 (Py.fadd (Py.fadd r4 r5) (Py.fadd r6 r7)))
  end.

(** [pairwise_sum] on at most 128 elements: fewer than eight are added in
    sequence, starting from 0.0. *)
Definition block_sum (a : list Py.float) : Py.float :=
  match a with
  | a0 :: a1 :: a2 :: a3 :: a4 :: a5 :: a6 :: a7 :: a' => unrolled a0 a1 a2 a3 a4 a5 a6 a7 a'
  | _ => fold_left Py.fadd a (S754_zero false)
  end.

(** Where [pairwise_sum] cuts an array of more than 128 elements: at half its
    length, rounded down to a multiple of eight. *)
Definition cut (n : nat) : nat := (n / 2 - (n / 2) mod 8)%nat.

(** [pairwise_sum]: an array of more than 128 elements is cut in two, and the
    sums of the two parts are added. The recursion is on [fuel], which the
    length of the array is enough of. *)
Fixpoint pairwise_sum (fuel : nat) (a : list Py.float) : Py.float :=
  match fuel with
  | O => block_sum a
  | S fuel' =>
      if (length a <=? 128)%nat then block_sum a
      else Py.fadd (pairwise_sum fuel' (firstn (cut (length a)) a))
                   (pairwise_sum fuel' (skipn (cut (length a)) a))
  end.

(** The number of elements in the buffer of an iterator: 8192. *)
Definition bufsize : nat := (2 ^ 13)%nat.

(** The reduction of an array that has to be cast: the iterator casts the
    elements into its buffer, [bufsize] of them at a time, and the pairwise
    sum of each buffer is added to the result. The recursion is on [fuel],
    which the length of the array is enough of. *)
Fixpoint buffered (fuel : nat) (res : Py.float) (a : list Py.float) : Py.float :=
  match fuel with
  | O => res
  | S fuel' =>
      match a with
      | [] => res
      | _ :: _ =>
          buffered fuel' (Py.fadd res (pairwise_sum bufsize (firstn bufsize a)))
                   (skipn bufsize a)
      end
  end.

(** [numpy.add.reduce(a, dtype=float64)]: the result starts as 0.0, the
    identity of the addition. A float64 array is added to it in one pairwise
    sum; an int64 array is cast, and goes through the buffer. *)
Definition sum (a : ndarray) : Py.float :=
  match a with
  | int64 l => buffered (length l) (S754_zero false) (map Py.float_of_int l)
  | float64 l => Py.fadd (S754_zero false) (pairwise_sum (length l) l)
  end.

(** [numpy.mean(a)]: the sum over the number of elements, as float64
    arithmetic; dividing by zero gives NaN (and a warning), not an error. *)
Definition mean (a : ndarray) : Py.float :=
  Py.fdiv (sum a) (Py.float_of_int (Py.len (as_float64 a))).

(** [numpy.std(a)]: [sqrt(mean(abs(a - a.mean())**2))], the divisor being the
    number of elements (ddof = 0); the deviations are a float64 array. *)
Definition std (a : ndarray) : Py.float :=
  let m := mean a in
  let x := map (fun v => Py.fsub v m) (as_float64 a) in
  Py.fsqrt (mean (float64 (map (fun d => Py.fmul d d) x))).

End Np.

(* ===================================================================== *)
(** * The data the metrics read *)
(* ===================================================================== *)

(** A text is an opaque handle; its raw content identifies it. *)
Definition text : Set := string.

(** A tagged word: (surface form, part-of-speech tag). *)
Definition tagged_word : Set := (string * string)%type.

(** A constituency parse tree: labelled inner nodes over leaf tokens. *)
#[warnings="-register-all"]
Inductive Tree : Set :=
| Leaf (token : string)
| Node (label : string) (children : list Tree).

Definition label_is (l : string) (t : Tree) : bool :=
  match t with
  | Leaf _ => false
  | Node l' _ => String.eqb l' l
  end.

(** Every constituent of a tree, itself included, parents before children. *)
Fixpoint subtrees (t : Tree) : list Tree :=
  match t with
  | Leaf _ => []
  | Node _ children => t :: flat_map subtrees children
  end.

(** Modelled from the spec: [coh.utils.find_subtrees], which is not among the
    sources. The spec has the metric "count constituents labeled NP in its
    parse tree" through it: it returns the constituents of [tree] that carry
    the label. *)
Definition find_subtrees (tree : Tree) (label : string) : list Tree :=
  List.filter (label_is label) (subtrees tree).

(** A node of a dependency graph: its relation to its head (absent on the
    artificial top node) and its tag. *)
Record DepNode : Set := { rel : option string; tag : string }.

(** A dependency graph, as the list [tree.nodes.values()]. *)
Record DependencyGraph : Set := { nodes_values : list DepNode }.

(** A tagset: the predicates of [coh.tools.tag] the metrics call. *)
Record Tagset : Type := {
  is_verb : tagged_word -> bool;
  is_punctuation : tagged_word -> bool
}.

(** The resource pool, as the metrics see it: a resource per text and kind,
    and the tagsets of the tagger and of the dependency parser's tagger
    ([rp.pos_tagger().tagset], [rp.dep_parser().tagger.tagset]). *)
Record ResourcePool : Type := {
  parse_trees : text -> list Tree;
  tagged_sentences : text -> list (list tagged_word);
  tagged_words_in_sents : text -> list (list tagged_word);
  leaves_in_toplevel_nps : text -> list (list (list string));
  dep_trees : text -> list DependencyGraph;
  pos_tagger_tagset : Tagset;
  dep_parser_tagger_tagset : Tagset
}.

(* ===================================================================== *)
(** * The metrics *)
(* ===================================================================== *)

Module NounPhraseIncidence.

Definition name : string := "Noun Phrase Incidence".
Definition column_name : string := "np_incidence".

(** The body of the loop over [enumerate(parse_trees)]: the score of the
    sentence at index [i]. *)
Definition sent_index (rp : ResourcePool) (tagged_sents : list (list tagged_word))
    (i : nat) (tree : Tree) : Py.result Py.num :=
  let nps := Py.len (find_subtrees tree "NP") in
  let* sent := Py.getitem tagged_sents i in
  let words :=
    Py.len (List.filter
              (fun word => negb (is_punctuation (pos_tagger_tagset rp) word)) sent) in
  let* per_thousand := Py.truediv (Py.Int words) (Py.Int 1000) in
  Py.truediv (Py.Int nps) per_thousand.

(** The loop: [sent_indices] grows by one score per tree. *)
Fixpoint loop (rp : ResourcePool) (tagged_sents : list (list tagged_word))
    (i : nat) (trees : list Tree) (sent_indices : list Py.num)
    : Py.result (list Py.num) :=
  match trees with
  | [] => Py.Ok sent_indices
  | tree :: trees' =>
      let* x := sent_index rp tagged_sents i tree in
      loop rp tagged_sents (S i) trees' (sent_indices ++ [x])
  end.

Definition value_for_text (t : text) (rp : ResourcePool) : Py.result Py.num :=
  let parse_trees := parse_trees rp t in
  let tagged_sents := tagged_sentences rp t in
  let* sent_indices := loop rp tagged_sents 0 parse_trees [] in
  match sent_indices with
  | [] => Py.Ok (Py.Int 0)
  | _ :: _ => Py.truediv (Py.sum sent_indices) (Py.Int (Py.len sent_indices))
  end.

End NounPhraseIncidence.

(** The sizes of the top-level noun phrases, sentence by sentence. *)
Definition sizes (sent : list (list string)) : list Z :=
  map (fun toplevel => Py.len toplevel) sent.

Module MeanNounPhrase.

Definition name : string := "Mean Noun Phrase".
Definition column_name : string := "mean_noun_phrase".

Definition value_for_text (t : text) (rp : ResourcePool) : Py.result Py.num :=
  let all_leaves := leaves_in_toplevel_nps rp t in
  let mean_sizes := map (fun sent => Np.mean (Np.asarray (sizes sent))) all_leaves in
  Py.Ok (Py.Float (Np.mean (Np.float64 mean_sizes))).

End MeanNounPhrase.

(** [[len(toplevel) for leaves in ... for toplevel in leaves]] *)
Definition np_sizes (t : text) (rp : ResourcePool) : list Z :=
  flat_map (fun leaves => map (fun toplevel => Py.len toplevel) leaves)
           (leaves_in_toplevel_nps rp t).

Module MaxNounPhrase.

Definition name : string := "Maximum Noun Phrase".
Definition column_name : string := "max_noun_phrase".

Definition value_for_text (t : text) (rp : ResourcePool) : Py.result Py.num :=
  let* m := Py.max (np_sizes t rp) in
  Py.Ok (Py.Int m).

End MaxNounPhrase.

Module MinNounPhrase.

Definition name : string := "Minimum Noun Phrase".
Definition column_name : string := "min_noun_phrase".

Definition value_for_text (t : text) (rp : ResourcePool) : Py.result Py.num :=
  let* m := Py.min (np_sizes t rp) in
  Py.Ok (Py.Int m).

End MinNounPhrase.

Module StdNounPhrase.

Definition name : string := "Std Noun Phrase".
Definition column_name : string := "std_noun_phrase".

Definition value_for_text (t : text) (rp : ResourcePool) : Py.result Py.num :=
  Py.Ok (Py.Float (Np.std (Np.asarray (np_sizes t rp)))).

End StdNounPhrase.

Module WordsBeforeMainVerb.

Definition name : string := "Words before Main Verb".
Definition column_name : string := "words_before_main_verb".

Definition rel_eqb (a b : option string) : bool :=
  match a, b with
  | Some x, Some y => String.eqb x y
  | None, None => true
  | _, _ => false
  end.

(** The test of the inner loop: a verb whose surface form does not end in
    one of the four suffixes. *)
Definition finite_verb (tagset : Tagset) (token : tagged_word) : bool :=
  is_verb tagset token && negb (Py.str_in (Py.last2 (fst token)) ["do"; "ar"; "er"; "ir"]).

(** [for i, token in enumerate(tagged_sent): if ...: i_main_verb = i; break] *)
Fixpoint scan (tagset : Tagset) (i : nat) (tagged_sent : list tagged_word)
    (i_main_verb : Z) : Z :=
  match tagged_sent with
  | [] => i_main_verb
  | token :: tagged_sent' =>
      if finite_verb tagset token then Z.of_nat i
      else scan tagset (S i) tagged_sent' i_main_verb
  end.

(** The body of the loop over [zip(trees, words)]. *)
Definition sent_score (rp : ResourcePool) (tree : DependencyGraph)
    (tagged_sent : list tagged_word) : Py.result Z :=
  let dep_tagset := dep_parser_tagger_tagset rp in
  let tagset := pos_tagger_tagset rp in
  let i_main_verb := 0 in
  let* i_root := Py.index rel_eqb (map rel (nodes_values tree)) (Some "ROOT") in
  let* root := Py.getitem (nodes_values tree) i_root in
  if is_verb dep_tagset ("", tag root)
  then Py.Ok (Z.of_nat i_root - 1)
  else Py.Ok (scan tagset 0 tagged_sent i_main_verb).

Fixpoint loop (rp : ResourcePool)
    (pairs : list (DependencyGraph * list tagged_word)) (sent_scores : list Py.num)
    : Py.result (list Py.num) :=
  match pairs with
  | [] => Py.Ok sent_scores
  | (tree, tagged_sent) :: pairs' =>
      let* i_main_verb := sent_score rp tree tagged_sent in
      loop rp pairs' (sent_scores ++ [Py.Int i_main_verb])
  end.

Definition value_for_text (t : text) (rp : ResourcePool) : Py.result Py.num :=
  let trees := dep_trees rp t in
  let words := tagged_words_in_sents rp t in
  let* sent_scores := loop rp (combine trees words) [] in
  match sent_scores with
  | [] => Py.Ok (Py.Int 0)
  | _ :: _ => Py.truediv (Py.sum sent_scores) (Py.Int (Py.len sent_scores))
  end.

End WordsBeforeMainVerb.

(* ===================================================================== *)
(** * The category *)
(* ===================================================================== *)

Module base.

(** A metric instance: its names and its evaluation function. *)
Record Metric : Type := {
  name : string;
  column_name : string;
  value_for_text : text -> ResourcePool -> Py.result Py.num
}.

(** A category: its names and its metrics. *)
Record Category : Type := {
  category_name : string;
  table_name : string;
  metrics : list Metric
}.

End base.

Module Constituents.

Definition name : string := "Constituents".
Definition table_name : string := "constituents".

(** The instances of the six [Metric] subclasses of the module. *)
Definition module_metrics : list base.Metric :=
  [ base.Build_Metric NounPhraseIncidence.name NounPhraseIncidence.column_name
      NounPhraseIncidence.value_for_text;
    base.Build_Metric MeanNounPhrase.name MeanNounPhrase.column_name
      MeanNounPhrase.value_for_text;
    base.Build_Metric MaxNounPhrase.name MaxNounPhrase.column_name
      MaxNounPhrase.value_for_text;
    base.Build_Metric MinNounPhrase.name MinNounPhrase.column_name
      MinNounPhrase.value_for_text;
    base.Build_Metric StdNounPhrase.name StdNounPhrase.column_name
      StdNounPhrase.value_for_text;
    base.Build_Metric WordsBeforeMainVerb.name WordsBeforeMainVerb.column_name
      WordsBeforeMainVerb.value_for_text ].

(** The constructor. [discovered] is what [_set_metrics_from_module] (in
    [coh.base], not among the sources) leaves in [self.metrics]: the
    instances in the order it found the classes. *)
Definition __init__ (discovered : list base.Metric) : base.Category :=
  {| base.category_name := name;
     base.table_name := table_name;
     base.metrics := Py.sort base.name Py.str_lt discovered |}.

End Constituents.

(* ===================================================================== *)
(** * The resource pool *)
(* ===================================================================== *)

Module resource_pool.

(** The kinds of resource the pool serves. *)
Inductive kind : Set :=
| SentenceTokenization
| PosTagging
| ConstituencyParsing
| DependencyParsing
| NounPhraseLeaves.

#[global] Instance kind_eq_dec : EqDecision kind.
Proof. solve_decision. Defined.

Definition kind_code (k : kind) : nat :=
  match k with
  | SentenceTokenization => 0
  | PosTagging => 1
  | ConstituencyParsing => 2
  | DependencyParsing => 3
  | NounPhraseLeaves => 4
  end.

Definition kind_of_code (n : nat) : kind :=
  match n with
  | 0%nat => SentenceTokenization
  | 1%nat => PosTagging
  | 2%nat => ConstituencyParsing
  | 3%nat => DependencyParsing
  | _ => NounPhraseLeaves
  end.

#[global] Instance kind_countable : Countable kind.
Proof. refine (inj_countable' kind_code kind_of_code _). by intros []. Defined.

(** The failure of an external tool, tagged with the kind and the text. *)
Inductive error : Set :=
| ToolFailure (k : kind) (t : text).

Section pool.

(** What the tools return. *)
Variable resource : Type.

(** The external tools: [None] when the tool fails on the text. *)
Variable tool : text -> kind -> option resource.

(** The state of the pool: the cache, and (as a test double would keep it)
    the number of times the tool was invoked for each pair. *)
Record pool : Type := {
  cache : gmap (text * kind) resource;
  invocations : gmap (text * kind) nat
}.

Definition empty_pool : pool := {| cache := ∅; invocations := ∅ |}.

Definition invoked (s : pool) (p : text * kind) : nat :=
  default 0%nat (invocations s !! p).

(** Modelled from the spec: [coh.resource_pool] is not among the sources.
    "On first request for a (text, kind) pair, invokes the corresponding
    external tool and stores the result; subsequent requests for the same
    pair return the cached value without recomputation"; "if the underlying
    tool fails [...] the failure propagates to the caller [...] tagged with
    the resource kind and text identity; the cache must not retain a
    poisoned entry". *)
Definition get_or_compute (t : text) (k : kind) (s : pool) : (error + resource) * pool :=
  match cache s !! (t, k) with
  | Some r => (inr r, s)
  | None =>
      let counted := <[(t, k) := S (invoked s (t, k))]> (invocations s) in
      match tool t k with
      | Some r => (inr r, {| cache := <[(t, k) := r]> (cache s); invocations := counted |})
      | None => (inl (ToolFailure k t), {| cache := cache s; invocations := counted |})
      end
  end.

(** The states a pool goes through: empty at first, then one request after
    the other. *)
Inductive reachable : pool -> Prop :=
| reachable_empty : reachable empty_pool
| reachable_request (s : pool) (t : text) (k : kind) :
    reachable s -> reachable (snd (get_or_compute t k s)).

(** What holds of every state of the pool: a cached value is the tool's
    answer and was computed by one invocation; a pair that is not cached and
    on which the tool succeeds was never requested. *)
Definition pool_invariant (s : pool) : Prop :=
  forall (t : text) (k : kind),
    match cache s !! (t, k) with
    | Some r => tool t k = Some r /\ invoked s (t, k) = 1%nat
    | None => is_Some (tool t k) -> invoked s (t, k) = 0%nat
    end.

End pool.

Arguments pool_invariant {resource} _ _.
Arguments cache {resource} _.
Arguments invocations {resource} _.
Arguments invoked {resource} _ _.
Arguments get_or_compute {resource} _ _ _ _.
Arguments reachable {resource} _ _.

End resource_pool.

(* ===================================================================== *)
(** * What the properties are stated with *)
(* ===================================================================== *)

(** The number of constituents of a tree that carry a label, counted along
    the tree. *)
Fixpoint count_label (l : string) (t : Tree) : nat :=
  match t with
  | Leaf _ => 0%nat
  | Node l' children =>
      ((if String.eqb l' l then 1 else 0) + list_sum (map (count_label l) children))%nat
  end.

Definition np_count (tree : Tree) : Z := Z.of_nat (count_label "NP" tree).

(** The number of tokens of a tagged sentence that are not punctuation. *)
Definition word_count (rp : ResourcePool) (sent : list tagged_word) : Z :=
  Py.len (List.filter (fun word => negb (is_punctuation (pos_tagger_tagset rp) word)) sent).

(** [nps / (words / 1000)] in binary64. *)
Definition ratio (nps words : Z) : Py.float :=
  Py.fdiv (Py.float_of_int nps)
          (Py.fdiv (Py.float_of_int words) (Py.float_of_int 1000)).

(** The arithmetic mean in binary64: the elements added from left to right,
    starting from 0.0, and the sum divided by their number. *)
Definition arithmetic_mean (xs : list Py.float) : Py.float :=
  Py.fdiv (fold_left Py.fadd xs (S754_zero false)) (Py.float_of_int (Py.len xs)).

(** The mean of a list of ints, in binary64: their exact sum over their
    number. *)
Definition int_sum (zs : list Z) : Z := fold_right Z.add 0 zs.

Definition int_mean (zs : list Z) : Py.float :=
  Py.fdiv (Py.float_of_int (int_sum zs)) (Py.float_of_int (Py.len zs)).

(** The score of one sentence in Noun Phrase Incidence. *)
Definition sentence_ratio (rp : ResourcePool) (s : Tree * list tagged_word) : Py.float :=
  ratio (np_count (fst s)) (word_count rp (snd s)).

Definition mean_of_ratios (t : text) (rp : ResourcePool) : Py.float :=
  arithmetic_mean
    (map (sentence_ratio rp) (combine (parse_trees rp t) (tagged_sentences rp t))).

(** Each parse tree has its tagged sentence. *)
Definition aligned (t : text) (rp : ResourcePool) : Prop :=
  length (parse_trees rp t) = length (tagged_sentences rp t).

(** Every sentence has at least one token that is not punctuation. *)
Definition every_sentence_has_a_word (t : text) (rp : ResourcePool) : Prop :=
  Forall (fun sent => 0 < word_count rp sent) (tagged_sentences rp t).

(** [s] ends in [suffix]. *)
Definition ends_in (suffix s : string) : Prop :=
  exists front : string, s = (front ++ suffix)%string.

(** The surface form ends in one of the four suffixes of the infinitive, the
    gerund and the participle. *)
Definition nonfinite_form (s : string) : Prop :=
  ends_in "do" s \/ ends_in "ar" s \/ ends_in "er" s \/ ends_in "ir" s.

(** A verb whose surface form does not end in one of the suffixes. *)
Definition main_verb_candidate (tagset : Tagset) (token : tagged_word) : Prop :=
  is_verb tagset token = true /\ ~ nonfinite_form (fst token).

(** [score] is the index of the first candidate of the sentence, 0 when it
    has none. *)
Definition first_candidate_index (tagset : Tagset) (sent : list tagged_word)
    (score : Z) : Prop :=
  (exists (i : nat) (token : tagged_word),
      nth_error sent i = Some token /\
      main_verb_candidate tagset token /\
      (forall (j : nat) (tok : tagged_word),
          (j < i)%nat -> nth_error sent j = Some tok -> ~ main_verb_candidate tagset tok) /\
      score = Z.of_nat i)
  \/ ((forall tok : tagged_word, In tok sent -> ~ main_verb_candidate tagset tok) /\
      score = 0).

(** [node] is the ROOT node of the graph (its first one), at position [i]. *)
Definition root_at (tree : DependencyGraph) (i : nat) (node : DepNode) : Prop :=
  nth_error (nodes_values tree) i = Some node /\
  rel node = Some "ROOT" /\
  forall (j : nat) (n : DepNode),
    (j < i)%nat -> nth_error (nodes_values tree) j = Some n -> rel n <> Some "ROOT".

Definition has_root (tree : DependencyGraph) : Prop :=
  exists node : DepNode, In node (nodes_values tree) /\ rel node = Some "ROOT".

(** The score of one sentence in Words Before Main Verb, as the
    specification words it. *)
Definition main_verb_score (rp : ResourcePool) (tree : DependencyGraph)
    (sent : list tagged_word) (score : Z) : Prop :=
  exists (i : nat) (root : DepNode),
    root_at tree i root /\
    if is_verb (dep_parser_tagger_tagset rp) ("", tag root)
    then score = Z.of_nat i - 1
    else first_candidate_index (pos_tagger_tagset rp) sent score.

(** The sizes of the top-level noun phrases of the whole text, in one list. *)
Definition flattened_sizes (t : text) (rp : ResourcePool) : list Z :=
  concat (map sizes (leaves_in_toplevel_nps rp t)).

(** The variance of a list of ints as an exact fraction, with divisor
    [N - ddof]: the sum of the [(N x - S)^2] over [N^2 (N - ddof)], [S] being
    the sum. [ddof = 0] is the population variance, [ddof = 1] the sample
    variance. *)
Definition variance_num (zs : list Z) : Z :=
  int_sum (map (fun x => (Py.len zs * x - int_sum zs) ^ 2) zs).

Definition variance_den (ddof : Z) (zs : list Z) : Z :=
  Py.len zs ^ 2 * (Py.len zs - ddof).

(** The float [x] is within one unit in the last place of the square root of
    [num / den]: with [x = m * 2^e], [(m - 1) * 2^e < sqrt (num / den) <
    (m + 1) * 2^e]. *)
Definition near_sqrt (num den : Z) (x : Py.float) : Prop :=
  match x with
  | S754_finite false m e =>
      e <= 0 /\
      den * (Zpos m - 1) ^ 2 < num * 2 ^ (- 2 * e) /\
      num * 2 ^ (- 2 * e) < den * (Zpos m + 1) ^ 2
  | _ => False
  end.

(** [a <= b] on strings, the order of [<]. *)
Definition str_le (a b : string) : Prop := String.leb a b = true.

(** The order of a list sorted by a key. *)
Definition key_le {A : Type} (key : A -> string) (a b : A) : Prop :=
  str_le (key a) (key b).

(** The order of the display names. *)
Definition name_le : base.Metric -> base.Metric -> Prop := key_le base.name.

(** A float that is at least 1: a positive mantissa, an exponent not below
    the least one, a value not below 1; or plus infinity. *)
Inductive positive_float : spec_float -> Prop :=
| positive_infinity : positive_float (S754_infinity false)
| positive_finite (m : positive) (e : Z) :
    emin Py.prec Py.emax <= e -> 1 <= Zdigits2 (Zpos m) + e ->
    positive_float (S754_finite false m e).

(** What a mantissa and an exponent are after a shift to the exponent of
    their magnitude: a mantissa that is zero sits at the least exponent, a
    positive one is canonical. *)
Definition settled (m e : Z) : Prop :=
  0 <= m /\ emin Py.prec Py.emax <= e /\
  (m = 0 -> e = emin Py.prec Py.emax) /\
  (0 < m -> fexp Py.prec Py.emax (Zdigits2 m + e) = e).

(** The results of rounding with sign [s]: a zero or an infinity of that
    sign, or a finite float of that sign whose mantissa and exponent are
    within the bounds of binary64. *)
Inductive rounded (s : bool) : spec_float -> Prop :=
| rounded_zero : rounded s (S754_zero s)
| rounded_infinity : rounded s (S754_infinity s)
| rounded_finite (m : positive) (e : Z) :
    bounded Py.prec Py.emax m e = true -> rounded s (S754_finite s m e).

(** A float that is not negative and is valid: NaN, or a rounded result of
    positive sign. *)
Definition nonneg_valid (x : spec_float) : Prop := x = S754_nan \/ rounded false x.

(** NaN, or a float whose sign bit is clear: +0.0, a positive number or plus
    infinity. *)
Definition not_negative (x : Py.float) : bool :=
  match x with
  | S754_nan => true
  | S754_zero s | S754_infinity s | S754_finite s _ _ => negb s
  end.

(** [summation k c r]: [r] is the result of adding the elements of [c], each
    one once, in some order and some grouping, where a sum may start from 0.0
    and no element goes through more than [k] additions. *)
Inductive summation : nat -> list Py.float -> Py.float -> Prop :=
| summation_zero (k : nat) : summation k [] (S754_zero false)
| summation_one (k : nat) (x : Py.float) : summation k [x] x
| summation_add (k i j : nat) (a b c : list Py.float) (x y : Py.float) :
    summation i a x -> summation j b y -> Permutation (a ++ b) c ->
    (i < k)%nat -> (j < k)%nat -> summation k c (Py.fadd x y).

(** The value of a finite float; 0 for the others. *)
Definition F2Q (x : Py.float) : Q :=
  match x with
  | S754_finite s m e =>
      ((if s then inject_Z (Zneg m) else inject_Z (Zpos m)) * 2 ^ e)%Q
  | _ => 0%Q
  end.

(** A float that is +0.0 or a positive finite float of binary64. *)
Definition finite_nonneg (x : Py.float) : Prop :=
  x = S754_zero false \/
  exists (m : positive) (e : Z),
    x = S754_finite false m e /\ bounded Py.prec Py.emax m e = true.

(** The unit of relative error of a rounding: 2^-52. *)
Definition ulp : Q := 1 # 4503599627370496.

(** What is left of 1 after [k] roundings. *)
Definition slack (k : nat) : Q := (1 - inject_Z (Z.of_nat k) * ulp)%Q.

(** [x] is the exact number [q] after at most [k] roundings: each of the two
    is at least the other one times [1 - k * 2^-52]. *)
Definition approx (k : nat) (x : Py.float) (q : Q) : Prop :=
  finite_nonneg x /\ (0 <= q)%Q /\
  (q * slack k <= F2Q x)%Q /\ (F2Q x * slack k <= q)%Q.

(** The exact sum and the exact mean of rational numbers. *)
Definition Qsum (l : list Q) : Q := fold_right Qplus 0%Q l.

Definition Qmean (l : list Q) : Q := (Qsum l / inject_Z (Py.len l))%Q.

(** The mean of the per-sentence means of the sizes, and the mean of all the
    sizes, as exact rational numbers. *)
Definition exact_mean_of_means (all_sizes : list (list Z)) : Q :=
  Qmean (map (fun s => Qmean (map inject_Z s)) all_sizes).

Definition exact_flattened_mean (all_sizes : list (list Z)) : Q :=
  Qmean (map inject_Z (concat all_sizes)).

(** The sizes a 64-bit machine can hold: fewer than 2^48 sentences, fewer
    than 2^48 noun phrases in a sentence, fewer than 2^48 leaves in a noun
    phrase. *)
Definition within_limits (all_sizes : list (list Z)) : Prop :=
  Py.len all_sizes < 2 ^ 48 /\
  Forall (fun s => Py.len s < 2 ^ 48 /\ Forall (fun n => n < 2 ^ 48) s) all_sizes.

(** The number of roundings on the way from a size to the mean of the
    means: one for each sentence, one for each noun phrase of the sentence
    that has most, and seven for the conversions and the divisions. *)
Definition roundings (all_sizes : list (list Z)) : nat :=
  (length all_sizes + list_max (map (@length Z) all_sizes) + 7)%nat.

(** The relative error those roundings can make: [2 * roundings * 2^-52]. *)
Definition rounding_error (all_sizes : list (list Z)) : Q :=
  (inject_Z (2 * Z.of_nat (roundings all_sizes)) * ulp)%Q.

(* ===================================================================== *)
(** * Example texts *)
(* ===================================================================== *)

Module Examples.

(** A tagset in the style of the tagger's: verbs, participles and
    auxiliaries are verbs, [PU] is punctuation. *)
Definition tagset : Tagset :=
  {| is_verb := fun w => Py.str_in (snd w) ["V"; "VAUX"; "PCP"];
     is_punctuation := fun w => String.eqb (snd w) "PU" |}.

(** The tagset of the dependency parser's tagger. *)
Definition dep_tagset : Tagset :=
  {| is_verb := fun w => String.eqb (snd w) "VERB";
     is_punctuation := fun w => String.eqb (snd w) "." |}.

Definition pool (trees : list Tree) (tagged : list (list tagged_word))
    (leaves : list (list (list string))) (deps : list DependencyGraph) : ResourcePool :=
  {| parse_trees := fun _ => trees;
     tagged_sentences := fun _ => tagged;
     tagged_words_in_sents := fun _ => tagged;
     leaves_in_toplevel_nps := fun _ => leaves;
     dep_trees := fun _ => deps;
     pos_tagger_tagset := tagset;
     dep_parser_tagger_tagset := dep_tagset |}.

Definition node (r : option string) (g : string) : DepNode := {| rel := r; tag := g |}.

(** The sentence of the docstrings: 5 noun phrases, 17 words. *)
Definition bone_text : text :=
  "Acessório utilizado por adolescentes, o boné é um dos itens que compõem a vestimenta idealizada pela proposta.".

Definition bone_tree : Tree :=
  Node "S"
    [ Node "AP"
        [ Node "N" [Leaf "Acessório"];
          Node "V" [Leaf "utilizado"];
          Node "PP" [Node "P" [Leaf "por"]; Node "NP" [Node "N" [Leaf "adolescentes"]]] ];
      Node "PNT" [Leaf ","];
      Node "NP" [Node "ART" [Leaf "o"]; Node "N" [Leaf "boné"]];
      Node "VP"
        [ Node "V" [Leaf "é"];
          Node "NP"
            [ Node "ART" [Leaf "um"];
              Node "PP"
                [ Node "P" [Leaf "dos"];
                  Node "N" [Leaf "itens"];
                  Node "CP"
                    [ Node "REL" [Leaf "que"];
                      Node "VP"
                        [ Node "V" [Leaf "compõem"];
                          Node "NP"
                            [ Node "ART" [Leaf "a"];
                              Node "N" [Leaf "vestimenta"];
                              Node "AP"
                                [ Node "V" [Leaf "idealizada"];
                                  Node "PP"
                                    [ Node "P" [Leaf "pela"];
                                      Node "NP" [Node "N" [Leaf "proposta"]] ] ] ] ] ] ] ] ];
      Node "PNT" [Leaf "."] ].

Definition bone_tagged : list tagged_word :=
  [ ("Acessório", "N"); ("utilizado", "PCP"); ("por", "PREP"); ("adolescentes", "N");
    (",", "PU"); ("o", "ART"); ("boné", "N"); ("é", "V"); ("um", "ART");
    ("dos", "PREP+ART"); ("itens", "N"); ("que", "PRO-KS"); ("compõem", "V");
    ("a", "ART"); ("vestimenta", "N"); ("idealizada", "PCP"); ("pela", "PREP+ART");
    ("proposta", "N"); (".", "PU") ].

(** Its dependency graph: the artificial top node, then one node per token;
    the participle is the root. *)
Definition bone_deps : DependencyGraph :=
  {| nodes_values :=
       [ node None "TOP"; node (Some "nsubj") "NOUN"; node (Some "ROOT") "VERB";
         node (Some "case") "ADP"; node (Some "obl") "NOUN"; node (Some "punct") ".";
         node (Some "det") "DET"; node (Some "nsubj") "NOUN"; node (Some "cop") "VERB";
         node (Some "det") "DET"; node (Some "case") "ADP"; node (Some "nmod") "NOUN";
         node (Some "nsubj") "PRON"; node (Some "acl") "VERB"; node (Some "det") "DET";
         node (Some "obj") "NOUN"; node (Some "acl") "VERB"; node (Some "case") "ADP";
         node (Some "obl") "NOUN"; node (Some "punct") "." ] |}.

Definition bone_leaves : list (list string) :=
  [ ["adolescentes"]; ["o"; "boné"];
    ["um"; "dos"; "itens"; "que"; "compõem"; "a"; "vestimenta"; "idealizada"; "pela";
     "proposta"] ].

Definition bone_pool : ResourcePool :=
  pool [bone_tree] [bone_tagged] [bone_leaves] [bone_deps].

(** A sentence made of punctuation only. *)
Definition dots_text : text := "...".

Definition dots_pool : ResourcePool :=
  pool [Node "S" [Node "PNT" [Leaf "..."]]] [[("...", "PU")]] [[]]
       [{| nodes_values := [node None "TOP"; node (Some "ROOT") "."] |}].

(** Three sentences with 3 noun phrases and 7 words each. *)
Definition park_text : text :=
  "O menino viu a menina no parque. O menino viu a menina no parque. O menino viu a menina no parque.".

Definition park_tree : Tree :=
  Node "S"
    [ Node "NP" [Node "ART" [Leaf "O"]; Node "N" [Leaf "menino"]];
      Node "VP"
        [ Node "V" [Leaf "viu"];
          Node "NP" [Node "ART" [Leaf "a"]; Node "N" [Leaf "menina"]];
          Node "PP" [Node "P" [Leaf "no"]; Node "NP" [Node "N" [Leaf "parque"]]] ];
      Node "PNT" [Leaf "."] ].

Definition park_tagged : list tagged_word :=
  [ ("O", "ART"); ("menino", "N"); ("viu", "V"); ("a", "ART"); ("menina", "N");
    ("no", "PREP+ART"); ("parque", "N"); (".", "PU") ].

Definition park_deps : DependencyGraph :=
  {| nodes_values :=
       [ node None "TOP"; node (Some "det") "DET"; node (Some "nsubj") "NOUN";
         node (Some "ROOT") "VERB"; node (Some "det") "DET"; node (Some "obj") "NOUN";
         node (Some "case") "ADP"; node (Some "obl") "NOUN"; node (Some "punct") "." ] |}.

Definition park_leaves : list (list string) :=
  [ ["O"; "menino"]; ["a"; "menina"]; ["parque"] ].

Definition park_pool : ResourcePool :=
  pool [park_tree; park_tree; park_tree] [park_tagged; park_tagged; park_tagged]
       [park_leaves; park_leaves; park_leaves] [park_deps; park_deps; park_deps].

(** A sentence whose root is a noun: "Bom dia a todos que chegaram cedo." *)
Definition greeting_tagged : list tagged_word :=
  [ ("Bom", "ADJ"); ("dia", "N"); ("a", "PREP"); ("todos", "PROSUB"); ("que", "PRO-KS");
    ("chegar", "V"); ("chegaram", "V"); ("cedo", "ADV"); (".", "PU") ].

Definition greeting_deps : DependencyGraph :=
  {| nodes_values :=
       [ node None "TOP"; node (Some "amod") "ADJ"; node (Some "ROOT") "NOUN";
         node (Some "case") "ADP"; node (Some "nmod") "PRON"; node (Some "nsubj") "PRON";
         node (Some "aux") "VERB"; node (Some "acl") "VERB"; node (Some "advmod") "ADV";
         node (Some "punct") "." ] |}.

Definition greeting_pool : ResourcePool :=
  pool [] [greeting_tagged; bone_tagged] [] [greeting_deps; bone_deps].

(** A text with no sentence. *)
Definition empty_pool : ResourcePool := pool [] [] [] [].

(** Two sentences whose top-level noun phrases have sizes 1 and 3, and 2. *)
Definition sized_pool : ResourcePool :=
  pool [] [] [ [["casa"]; ["a"; "velha"; "casa"]]; [["o"; "gato"]] ] [].

(** The noun phrases of [sized_pool] spread otherwise over two sentences:
    sizes 1, and 3 and 2. *)
Definition resized_pool : ResourcePool :=
  pool [] [] [ [["casa"]]; [["a"; "velha"; "casa"]; ["o"; "gato"]] ] [].

(** Two sentences whose top-level noun phrases have sizes 1 and 1, and 4. *)
Definition uneven_pool : ResourcePool :=
  pool [] [] [ [["casa"]; ["gato"]]; [["o"; "gato"; "de"; "casa"]] ] [].

(** A tool that fails on every text, and one that answers with the length
    of the text. *)
Definition failing_tool : text -> resource_pool.kind -> option nat := fun _ _ => None.

Definition length_tool : text -> resource_pool.kind -> option nat :=
  fun t _ => Some (String.length t).

(** A sentence with no noun phrase: "Choveu." *)
Definition rain_text : text := "Choveu.".

Definition rain_tree : Tree :=
  Node "S" [ Node "VP" [Node "V" [Leaf "Choveu"]]; Node "PNT" [Leaf "."] ].

Definition rain_tagged : list tagged_word := [ ("Choveu", "V"); (".", "PU") ].

Definition rain_deps : DependencyGraph :=
  {| nodes_values := [ node None "TOP"; node (Some "ROOT") "VERB"; node (Some "punct") "." ] |}.

Definition rain_pool : ResourcePool := pool [rain_tree] [rain_tagged] [[]] [rain_deps].

(** A sentence followed by one made of punctuation only. *)
Definition pause_text : text := "O menino viu a menina no parque. ...".

Definition pause_pool : ResourcePool :=
  pool [park_tree; Node "S" [Node "PNT" [Leaf "..."]]] [park_tagged; [("...", "PU")]]
       [park_leaves; []]
       [park_deps; {| nodes_values := [node None "TOP"; node (Some "ROOT") "."] |}].

(** Two parse trees, and the tagged words of the first sentence only. *)
Definition short_pool : ResourcePool :=
  pool [park_tree; park_tree] [park_tagged] [park_leaves; park_leaves] [park_deps; park_deps].

(** One parse tree, and the tagged words of two sentences. *)
Definition long_pool : ResourcePool :=
  pool [bone_tree] [bone_tagged; park_tagged] [bone_leaves] [bone_deps].

(** A dependency graph in which no node is the root. *)
Definition rootless_deps : DependencyGraph :=
  {| nodes_values := [ node None "TOP"; node (Some "nsubj") "NOUN"; node (Some "punct") "." ] |}.

Definition rootless_pool : ResourcePool := pool [] [park_tagged] [] [rootless_deps].

(** A graph that starts with its root, without the artificial top node:
    "Venha aqui" *)
Definition command_tagged : list tagged_word := [ ("Venha", "V"); ("aqui", "ADV") ].

Definition command_deps : DependencyGraph :=
  {| nodes_values := [ node (Some "ROOT") "VERB"; node (Some "advmod") "ADV" ] |}.

(** A text of two sentences whose only noun phrase has two leaves. *)
Definition house_pool : ResourcePool := pool [] [] [ [["a"; "casa"]]; [] ] [].

(** The metrics of the module in the order of their names. *)
Definition sorted_metrics : list base.Metric :=
  [ base.Build_Metric MaxNounPhrase.name MaxNounPhrase.column_name
      MaxNounPhrase.value_for_text;
    base.Build_Metric MeanNounPhrase.name MeanNounPhrase.column_name
      MeanNounPhrase.value_for_text;
    base.Build_Metric MinNounPhrase.name MinNounPhrase.column_name
      MinNounPhrase.value_for_text;
    base.Build_Metric NounPhraseIncidence.name NounPhraseIncidence.column_name
      NounPhraseIncidence.value_for_text;
    base.Build_Metric StdNounPhrase.name StdNounPhrase.column_name
      StdNounPhrase.value_for_text;
    base.Build_Metric WordsBeforeMainVerb.name WordsBeforeMainVerb.column_name
      WordsBeforeMainVerb.value_for_text ].

End Examples.


(* ===================================================================== *)
(** * binary64: no underflow to zero *)
(* ===================================================================== *)

(** The rounding of [SpecFloat] keeps a positive mantissa positive as long as
    the exponent is not below [emin]; this is what makes [words / 1000]
    non-zero for every positive word count. *)

Module Binary64.

Import Py.

Lemma digits2_pos_size p : digits2_pos p = Pos.size p.
Proof. induction p; simpl; congruence. Qed.

Lemma Zdigits2_log2 m : 0 < m -> Zdigits2 m = Z.log2 m + 1.
Proof.
  destruct m as [|p|p]; try lia. intros _. simpl. rewrite digits2_pos_size.
  destruct p; simpl; lia.
Qed.

Lemma Zdigits2_pos m : 0 < m -> 0 < Zdigits2 m.
Proof. intros H. rewrite Zdigits2_log2 by assumption. pose proof (Z.log2_nonneg m). lia. Qed.

(** one step of [shr_1] halves the mantissa *)
Lemma shr_1_m r : 0 <= shr_m r -> shr_m (shr_1 r) = Z.div2 (shr_m r).
Proof.
  destruct r as [m b s]. simpl. intros H.
  destruct m as [|[p|p|]|p]; try reflexivity; lia.
Qed.

Lemma iter_pos_shr_1_m p : forall r, 0 <= shr_m r ->
  shr_m (SpecFloat.iter_pos shr_1 p r) = Z.shiftr (shr_m r) (Zpos p).
Proof.
  induction p as [p IH|p IH|]; intros r H; simpl SpecFloat.iter_pos.
  - assert (H1 : 0 <= shr_m (shr_1 r)).
    { rewrite shr_1_m by assumption. rewrite Z.div2_div. apply Z.div_pos; lia. }
    assert (H2 : 0 <= shr_m (SpecFloat.iter_pos shr_1 p (shr_1 r))).
    { rewrite IH by assumption. apply Z.shiftr_nonneg. assumption. }
    rewrite IH by assumption. rewrite IH by assumption. rewrite shr_1_m by assumption.
    rewrite Z.div2_spec. rewrite !Z.shiftr_shiftr by lia. f_equal. lia.
  - assert (H2 : 0 <= shr_m (SpecFloat.iter_pos shr_1 p r)).
    { rewrite IH by assumption. apply Z.shiftr_nonneg. assumption. }
    rewrite IH by assumption. rewrite IH by assumption.
    rewrite !Z.shiftr_shiftr by lia. f_equal. lia.
  - rewrite shr_1_m by assumption. apply Z.div2_spec.
Qed.

Lemma shr_m_of_loc m l : shr_m (shr_record_of_loc m l) = m.
Proof. destruct l as [|[| |]]; reflexivity. Qed.

Lemma fexp_emin e : emin prec emax <= fexp prec emax e.
Proof. unfold fexp. lia. Qed.

Lemma shr_fexp_spec m e l : 0 < m -> emin prec emax <= e ->
  0 < shr_m (fst (shr_fexp prec emax m e l)) /\
  emin prec emax <= snd (shr_fexp prec emax m e l) /\
  Zdigits2 (shr_m (fst (shr_fexp prec emax m e l))) + snd (shr_fexp prec emax m e l)
    = Zdigits2 m + e.
Proof.
  intros Hm He. unfold shr_fexp, shr.
  pose proof (Zdigits2_log2 m Hm) as Hd.
  pose proof (Z.log2_nonneg m) as Hl.
  destruct (fexp prec emax (Zdigits2 m + e) - e) as [|p|p] eqn:En; simpl fst; simpl snd;
    rewrite ?shr_m_of_loc; try (split; [lia | split; lia]).
  assert (Hp : Zpos p = Zdigits2 m - prec).
  { unfold fexp, emin, prec, emax in *. lia. }
  rewrite iter_pos_shr_1_m by (rewrite shr_m_of_loc; lia).
  rewrite shr_m_of_loc.
  assert (Hlog : Z.log2 (Z.shiftr m (Zpos p)) = prec - 1).
  { rewrite Z.log2_shiftr by assumption. unfold prec in *. lia. }
  assert (Hpos : 0 < Z.shiftr m (Zpos p)).
  { destruct (Z.lt_ge_cases 0 (Z.shiftr m (Zpos p))) as [H|H]; [assumption|].
    rewrite Z.log2_nonpos in Hlog by assumption. unfold prec in Hlog. lia. }
  split; [assumption|]. split.
  - unfold emin, prec, emax in *. lia.
  - rewrite Zdigits2_log2 by assumption. lia.
Qed.

Lemma round_nearest_even_bounds m l :
  m <= round_nearest_even m l <= m + 1.
Proof.
  destruct l as [|[| |]]; simpl; try lia. destruct (Z.even m); lia.
Qed.

Lemma Zdigits2_mono a b : 0 < a -> a <= b -> Zdigits2 a <= Zdigits2 b.
Proof.
  intros Ha Hab. rewrite !Zdigits2_log2 by lia.
  pose proof (Z.log2_le_mono a b Hab). lia.
Qed.

(** A positive mantissa at an exponent not below [emin] never rounds to
    zero or NaN. *)
Lemma binary_round_aux_shape s m e l : 0 < m -> emin prec emax <= e ->
  binary_round_aux prec emax s m e l = S754_infinity s \/
  exists m' e', binary_round_aux prec emax s m e l = S754_finite s m' e' /\
                emin prec emax <= e' /\ Zdigits2 m + e <= Zdigits2 (Zpos m') + e'.
Proof.
  intros Hm He. unfold binary_round_aux.
  destruct (shr_fexp_spec m e l Hm He) as (H1 & H2 & H3).
  destruct (shr_fexp prec emax m e l) as [r1 e1]. simpl fst in *; simpl snd in *.
  pose proof (round_nearest_even_bounds (shr_m r1) (loc_of_shr_record r1)) as Hr.
  set (m2 := round_nearest_even (shr_m r1) (loc_of_shr_record r1)) in *.
  assert (Hm2 : 0 < m2) by lia.
  destruct (shr_fexp_spec m2 e1 loc_Exact Hm2 H2) as (G1 & G2 & G3).
  destruct (shr_fexp prec emax m2 e1 loc_Exact) as [r2 e2]. simpl fst in *; simpl snd in *.
  pose proof (Zdigits2_mono (shr_m r1) m2 H1 (proj1 Hr)) as Hmono.
  destruct (shr_m r2) as [|q|q] eqn:Eq; try lia.
  destruct (e2 <=? emax - prec); [right|left; reflexivity].
  exists q, e2. split; [reflexivity|]. split; [assumption|]. lia.
Qed.

Lemma digits2_pos_iter_xO m d :
  Zpos (digits2_pos (Pos.iter xO m d)) = Zpos (digits2_pos m) + Zpos d.
Proof.
  induction d as [|d IH] using Pos.peano_ind.
  - simpl. lia.
  - rewrite Pos.iter_succ. simpl digits2_pos. lia.
Qed.

Lemma binary_round_shape s m e : emin prec emax <= e ->
  binary_round prec emax s m e = S754_infinity s \/
  exists m' e', binary_round prec emax s m e = S754_finite s m' e' /\
                emin prec emax <= e' /\ Zdigits2 (Zpos m) + e <= Zdigits2 (Zpos m') + e'.
Proof.
  intros He. unfold binary_round, shl_align.
  pose proof (fexp_emin (Zpos (digits2_pos m) + e)) as Hf.
  destruct (fexp prec emax (Zpos (digits2_pos m) + e) - e) as [|d|d] eqn:Ed.
  - apply binary_round_aux_shape; [lia | assumption].
  - apply binary_round_aux_shape; [lia | assumption].
  - destruct (binary_round_aux_shape s (Zpos (Pos.iter xO m d))
                (fexp prec emax (Zpos (digits2_pos m) + e)) loc_Exact) as [H|(m' & e' & H & H1 & H2)];
      [lia | assumption | left; assumption | right].
    exists m', e'. split; [assumption|]. split; [assumption|].
    simpl Zdigits2 in *. rewrite digits2_pos_iter_xO in H2. lia.
Qed.

Lemma float_of_int_positive n : 0 < n -> positive_float (float_of_int n).
Proof.
  destruct n as [|p|p]; try lia. intros _. unfold float_of_int. simpl binary_normalize.
  destruct (binary_round_shape false p 0) as [H|(m' & e' & H & H1 & H2)].
  - unfold emin, prec, emax. lia.
  - rewrite H. constructor.
  - rewrite H. constructor; [assumption|]. simpl Zdigits2 in *. lia.
Qed.

Lemma Zdigits2_bounds m : 0 < m -> 2 ^ (Zdigits2 m - 1) <= m < 2 ^ Zdigits2 m.
Proof.
  intros Hm. rewrite Zdigits2_log2 by assumption.
  replace (Z.log2 m + 1 - 1) with (Z.log2 m) by lia.
  replace (Z.log2 m + 1) with (Z.succ (Z.log2 m)) by lia.
  apply Z.log2_spec. assumption.
Qed.

(** Dividing a float that is at least 1 by a finite float whose exponent is
    not positive never underflows to zero. *)
Lemma fdiv_positive_nonzero x sy my ey :
  positive_float x -> ey <= 0 -> Zdigits2 (Zpos my) + ey <= 1074 ->
  match fdiv x (S754_finite sy my ey) with
  | S754_zero _ | S754_nan => False
  | _ => True
  end.
Proof.
  intros Hx Hey Hdy. destruct Hx as [|mx ex Hex Hdx]; [exact I|].
  unfold fdiv, SFdiv, SFdiv_core_binary.
  set (d1 := Zdigits2 (Zpos mx)) in *. set (d2 := Zdigits2 (Zpos my)) in *.
  set (e' := Z.min (fexp prec emax (d1 + ex - (d2 + ey))) (ex - ey)).
  set (s := ex - ey - e').
  assert (He' : emin prec emax <= e').
  { unfold e'. pose proof (fexp_emin (d1 + ex - (d2 + ey))). lia. }
  assert (Hs : 0 <= s) by (unfold s, e'; lia).
  assert (Hd1 : 0 < d1) by (apply Zdigits2_pos; lia).
  assert (Hd2 : 0 < d2) by (apply Zdigits2_pos; lia).
  assert (Hsd : d2 <= d1 - 1 + s).
  { unfold s, e', fexp, emin, prec, emax in *. lia. }
  set (m' := match s with Zpos _ => Z.shiftl (Zpos mx) s | Z0 => Zpos mx | Zneg _ => 0 end).
  assert (Hm' : m' = Zpos mx * 2 ^ s).
  { unfold m'. destruct s as [|p|p]; try lia.
    apply Z.shiftl_mul_pow2. lia. }
  assert (Hge : Zpos my <= m').
  { rewrite Hm'.
    pose proof (Zdigits2_bounds (Zpos mx) eq_refl) as [B1 _].
    pose proof (Zdigits2_bounds (Zpos my) eq_refl) as [_ B2].
    fold d1 in B1. fold d2 in B2.
    assert (2 ^ d2 <= 2 ^ (d1 - 1 + s)) by (apply Z.pow_le_mono_r; lia).
    rewrite Z.pow_add_r in H by lia.
    assert (0 < 2 ^ s) by (apply Z.pow_pos_nonneg; lia).
    nia. }
  pose proof (Z.div_str_pos m' (Zpos my)) as Hq.
  unfold Z.div in Hq.
  destruct (Z.div_eucl m' (Zpos my)) as [q r]. simpl fst in Hq.
  destruct (binary_round_aux_shape (xorb false sy) q e' (new_location (Zpos my) r))
    as [H|(m'' & e'' & H & _)]; [lia | assumption | rewrite H; exact I | rewrite H; exact I].
Qed.

End Binary64.

(* ===================================================================== *)
(** * binary64: the results of rounding are valid *)
(* ===================================================================== *)

(** What the arithmetic of [SpecFloat] returns is a valid float of the sign
    it was asked for; the floats that are not negative are closed under
    addition and division, and dividing by 1.0 changes nothing. *)

Module Binary64Valid.

Import Py.
Import Binary64.

Lemma fexp_mono (a b : Z) : a <= b -> fexp prec emax a <= fexp prec emax b.
Proof. unfold fexp. lia. Qed.

Lemma shiftr_zero_digits (m n : Z) :
  0 < m -> 0 <= n -> Z.shiftr m n = 0 -> Zdigits2 m <= n.
Proof.
  intros Hm Hn H. rewrite Z.shiftr_div_pow2 in H by assumption.
  pose proof (Zdigits2_bounds m Hm) as [Hlow _].
  pose proof (Zdigits2_pos m Hm) as Hd.
  destruct (Z.le_gt_cases (Zdigits2 m) n) as [|Hgt]; [assumption|exfalso].
  assert (Hpow : 2 ^ n <= 2 ^ (Zdigits2 m - 1)) by (apply Z.pow_le_mono_r; lia).
  assert (H2n : 0 < 2 ^ n) by (apply Z.pow_pos_nonneg; lia).
  assert (Hq : 0 < m / 2 ^ n) by (apply Z.div_str_pos; lia).
  lia.
Qed.

Lemma shr_fexp_settled (m e : Z) (l : location) :
  0 <= m -> e <= fexp prec emax (Zdigits2 m + e) ->
  settled (shr_m (fst (shr_fexp prec emax m e l))) (snd (shr_fexp prec emax m e l)).
Proof.
  intros Hm He. unfold shr_fexp, shr, settled.
  pose proof (fexp_emin (Zdigits2 m + e)) as Hmin.
  destruct (fexp prec emax (Zdigits2 m + e) - e) as [|p|p] eqn:En; try lia;
    simpl fst; simpl snd.
  - rewrite shr_m_of_loc. repeat split; try lia.
    intros ->. simpl Zdigits2 in *. unfold fexp, emin, prec, emax in *. lia.
  - rewrite iter_pos_shr_1_m by (rewrite shr_m_of_loc; lia). rewrite shr_m_of_loc.
    assert (Hnn : 0 <= Z.shiftr m (Zpos p)) by (apply Z.shiftr_nonneg; assumption).
    repeat split; try lia.
    + intros Hz. destruct (Z.eq_dec m 0) as [->|Hne].
      * simpl Zdigits2 in *. unfold fexp, emin, prec, emax in *. lia.
      * pose proof (shiftr_zero_digits m (Zpos p) ltac:(lia) ltac:(lia) Hz).
        unfold fexp, emin, prec, emax in *. lia.
    + intros Hpos. assert (Hm' : 0 < m).
      { destruct (Z.eq_dec m 0) as [->|]; [rewrite Z.shiftr_0_l in Hpos|]; lia. }
      rewrite (Zdigits2_log2 _ Hpos). rewrite Z.log2_shiftr by assumption.
      rewrite (Zdigits2_log2 _ Hm') in *.
      assert (0 < Z.log2 (Z.shiftr m (Zpos p)) \/ Z.log2 (Z.shiftr m (Zpos p)) = 0)
        as [Hl|Hl] by (pose proof (Z.log2_nonneg (Z.shiftr m (Zpos p))); lia).
      * rewrite Z.log2_shiftr in Hl by assumption.
        replace (Z.max 0 (Z.log2 m - Zpos p)) with (Z.log2 m - Zpos p) by lia.
        replace (Z.log2 m - Zpos p + 1 + (e + Zpos p)) with (Z.log2 m + 1 + e) by lia.
        lia.
      * rewrite Z.log2_shiftr in Hl by assumption.
        destruct (Z.le_gt_cases (Z.log2 m) (Zpos p)) as [Hle|Hgt].
        -- replace (Z.max 0 (Z.log2 m - Zpos p)) with 0 by lia.
           assert (Hge : Zpos p <= Z.log2 m).
           { destruct (Z.le_gt_cases (Zpos p) (Z.log2 m)) as [|Hlt]; [assumption|].
             exfalso. rewrite Z.shiftr_eq_0 in Hpos; lia. }
           replace (0 + 1 + (e + Zpos p)) with (Z.log2 m + 1 + e) by lia. lia.
        -- lia.
Qed.

Lemma settled_round (m e : Z) (l : location) :
  settled m e ->
  e <= fexp prec emax (Zdigits2 (round_nearest_even m l) + e) /\
  0 <= round_nearest_even m l.
Proof.
  intros (Hm & He & Hz & Hc).
  pose proof (round_nearest_even_bounds m l) as Hr. split; [|lia].
  destruct (Z.eq_dec m 0) as [->|Hne].
  - rewrite (Hz eq_refl) in *.
    assert (round_nearest_even 0 l = 0 \/ round_nearest_even 0 l = 1) as [->| ->] by lia;
      simpl; unfold fexp, emin, prec, emax; lia.
  - rewrite <- (Hc ltac:(lia)) at 1. apply fexp_mono.
    pose proof (Zdigits2_mono m (round_nearest_even m l) ltac:(lia) ltac:(lia)). lia.
Qed.

Lemma binary_round_aux_rounded (s : bool) (m e : Z) (l : location) :
  0 <= m -> e <= fexp prec emax (Zdigits2 m + e) ->
  rounded s (binary_round_aux prec emax s m e l).
Proof.
  intros Hm He. unfold binary_round_aux.
  pose proof (shr_fexp_settled m e l Hm He) as H1.
  destruct (shr_fexp prec emax m e l) as [r1 e1]. simpl fst in H1; simpl snd in H1.
  destruct (settled_round _ _ (loc_of_shr_record r1) H1) as [H2 H2'].
  pose proof (shr_fexp_settled _ e1 loc_Exact H2' H2) as H3.
  destruct (shr_fexp prec emax (round_nearest_even (shr_m r1) (loc_of_shr_record r1)) e1
              loc_Exact) as [r2 e2].
  simpl fst in H3; simpl snd in H3. destruct H3 as (G0 & G1 & G2 & G3).
  destruct (shr_m r2) as [|q|q] eqn:Eq; try lia.
  - constructor.
  - destruct (e2 <=? emax - prec) eqn:Ee; [|constructor].
    constructor. unfold bounded, canonical_mantissa. rewrite Ee, andb_true_r.
    apply Z.eqb_eq. apply (G3 eq_refl).
Qed.

Lemma binary_round_rounded (s : bool) (m : positive) (e : Z) :
  rounded s (binary_round prec emax s m e).
Proof.
  unfold binary_round, shl_align.
  destruct (fexp prec emax (Zpos (digits2_pos m) + e) - e) as [|d|d] eqn:Ed.
  - apply binary_round_aux_rounded; [lia | simpl Zdigits2; lia].
  - apply binary_round_aux_rounded; [lia | simpl Zdigits2; lia].
  - apply binary_round_aux_rounded; [lia|]. simpl Zdigits2.
    rewrite digits2_pos_iter_xO.
    replace (Zpos (digits2_pos m) + Zpos d + fexp prec emax (Zpos (digits2_pos m) + e))
      with (Zpos (digits2_pos m) + e
            + (Zpos d + fexp prec emax (Zpos (digits2_pos m) + e) - e)) by lia.
    replace (Zpos d + fexp prec emax (Zpos (digits2_pos m) + e) - e) with 0 by lia.
    rewrite Z.add_0_r. lia.
Qed.

Lemma float_of_int_rounded (n : Z) : rounded (n <? 0) (float_of_int n).
Proof.
  unfold float_of_int. destruct n as [|p|p]; simpl.
  - constructor.
  - apply binary_round_rounded.
  - apply binary_round_rounded.
Qed.

Lemma float_of_int_nonneg_valid (n : Z) : 0 <= n -> nonneg_valid (float_of_int n).
Proof.
  intros Hn. right. pose proof (float_of_int_rounded n) as H.
  rewrite (proj2 (Z.ltb_ge n 0) Hn) in H. exact H.
Qed.

Lemma fadd_nonneg_valid (x y : spec_float) :
  nonneg_valid x -> nonneg_valid y -> nonneg_valid (fadd x y).
Proof.
  intros [->|Hx] [->|Hy]; try (left; reflexivity).
  - left. destruct x; reflexivity.
  - destruct Hx as [| |mx ex Bx]; destruct Hy as [| |my ey By]; simpl;
      try (right; constructor; assumption).
    unfold nonneg_valid, fadd, SFadd, cond_Zopp, binary_normalize. right.
    destruct (Zpos (fst (shl_align mx ex (Z.min ex ey)))
              + Zpos (fst (shl_align my ey (Z.min ex ey)))) as [|p|p] eqn:E; try lia.
    apply binary_round_rounded.
Qed.

Lemma fadd_zero_l (x : spec_float) :
  nonneg_valid x -> fadd (S754_zero false) x = x.
Proof. intros [->|[| |m e B]]; reflexivity. Qed.

(** The quotient and the exponent the division hands to the rounding. *)
Lemma div_core_settles (m1 m2 : positive) (e1 e2 : Z) :
  let '(q, e', _) := SFdiv_core_binary prec emax (Zpos m1) e1 (Zpos m2) e2 in
  0 <= q /\ e' <= fexp prec emax (Zdigits2 q + e').
Proof.
  unfold SFdiv_core_binary.
  set (d1 := Zdigits2 (Zpos m1)). set (d2 := Zdigits2 (Zpos m2)).
  set (E := d1 + e1 - (d2 + e2)).
  set (e' := Z.min (fexp prec emax E) (e1 - e2)).
  set (s := e1 - e2 - e').
  assert (Hs : 0 <= s) by (unfold s, e'; lia).
  assert (Hd1 : 0 < d1) by (apply Zdigits2_pos; lia).
  assert (Hd2 : 0 < d2) by (apply Zdigits2_pos; lia).
  set (m' := match s with Zpos _ => Z.shiftl (Zpos m1) s | Z0 => Zpos m1 | Zneg _ => 0 end).
  assert (Hm' : m' = Zpos m1 * 2 ^ s).
  { unfold m'. destruct s as [|p|p]; try lia. apply Z.shiftl_mul_pow2. lia. }
  pose proof (Zdigits2_bounds (Zpos m1) eq_refl) as [B1 _]. fold d1 in B1.
  pose proof (Zdigits2_bounds (Zpos m2) eq_refl) as [_ B2]. fold d2 in B2.
  assert (H2s : 0 < 2 ^ s) by (apply Z.pow_pos_nonneg; lia).
  assert (Hlow : 2 ^ (d1 - 1 + s) <= m').
  { rewrite Hm', Z.pow_add_r by lia. nia. }
  assert (Hq : fst (Z.div_eucl m' (Zpos m2)) = m' / Zpos m2) by reflexivity.
  destruct (Z.div_eucl m' (Zpos m2)) as [q r]. simpl fst in Hq.
  assert (Hq0 : 0 <= q) by (rewrite Hq; apply Z.div_pos; lia).
  split; [assumption|].
  pose proof (fexp_emin E) as HminE.
  destruct (Z.eq_dec q 0) as [Hz|Hnz].
  - (* the quotient is zero: the exponent is at most the least one *)
    rewrite Hz. simpl Zdigits2.
    assert (Hsmall : m' < Zpos m2).
    { rewrite Hz in Hq. symmetry in Hq. apply Z.div_small_iff in Hq; lia. }
    assert (Hd : d1 - 1 + s < d2).
    { apply (Z.pow_lt_mono_r_iff 2); lia. }
    assert (He' : e' <= emin prec emax).
    { unfold e', s, E, fexp, emin, prec, emax in *. lia. }
    unfold fexp, emin, prec, emax in *. lia.
  - (* the quotient has the digits the exponent asks for *)
    assert (Hq1 : 0 < q) by lia.
    assert (Hdq : d1 + s - d2 <= Zdigits2 q).
    { rewrite (Zdigits2_log2 q Hq1).
      destruct (Z.le_gt_cases 0 (d1 + s - d2 - 1)) as [Hk|Hk].
      - assert (Hpow : 2 ^ (d1 + s - d2 - 1) <= q).
        { rewrite Hq. apply Z.div_le_lower_bound; [lia|].
          assert (2 ^ (d1 - 1 + s) = 2 ^ d2 * 2 ^ (d1 + s - d2 - 1)).
          { rewrite <- Z.pow_add_r by lia. f_equal. lia. }
          assert (0 < 2 ^ (d1 + s - d2 - 1)) by (apply Z.pow_pos_nonneg; lia).
          nia. }
        apply Z.log2_le_pow2 in Hpow; lia.
      - pose proof (Z.log2_nonneg q). lia. }
    assert (HE : E <= Zdigits2 q + e') by (unfold E, s in *; lia).
    pose proof (fexp_mono _ _ HE). unfold e' in *. lia.
Qed.

Lemma fdiv_nonneg_valid (x y : spec_float) :
  nonneg_valid x -> nonneg_valid y -> nonneg_valid (fdiv x y).
Proof.
  intros [->|Hx] [->|Hy]; try (left; reflexivity).
  - left. destruct x; reflexivity.
  - destruct Hx as [| |mx ex Bx]; destruct Hy as [| |my ey By]; simpl;
      try (left; reflexivity); try (right; constructor; assumption).
    unfold nonneg_valid, fdiv, SFdiv. right.
    pose proof (div_core_settles mx my ex ey) as H.
    destruct (SFdiv_core_binary prec emax (Zpos mx) ex (Zpos my) ey) as [[q e'] l].
    destruct H as [Hq He']. apply binary_round_aux_rounded; assumption.
Qed.

Lemma float_of_int_1 : float_of_int 1 = S754_finite false 4503599627370496 (-52).
Proof. reflexivity. Qed.

(** Rounding a canonical mantissa leaves it as it is, also when it comes
    with one more bit at the exponent below. *)
Lemma binary_round_aux_canonical (s : bool) (m : positive) (e : Z) :
  fexp prec emax (Zpos (digits2_pos m) + e) = e -> e <= emax - prec ->
  binary_round_aux prec emax s (Zpos m) e loc_Exact = S754_finite s m e.
Proof.
  intros Hc He. unfold binary_round_aux, shr_fexp. simpl Zdigits2.
  rewrite Hc, Z.sub_diag. simpl. rewrite Hc, Z.sub_diag. simpl.
  rewrite (proj2 (Z.leb_le e (emax - prec)) He). reflexivity.
Qed.

Lemma binary_round_aux_canonical_double (s : bool) (m : positive) (e : Z) :
  fexp prec emax (Zpos (digits2_pos m) + e) = e -> e <= emax - prec ->
  binary_round_aux prec emax s (Zpos m~0) (e - 1) loc_Exact = S754_finite s m e.
Proof.
  intros Hc He. unfold binary_round_aux, shr_fexp. simpl Zdigits2.
  replace (Zpos (Pos.succ (digits2_pos m)) + (e - 1)) with (Zpos (digits2_pos m) + e)
    by lia.
  rewrite Hc. replace (e - (e - 1)) with 1 by lia. simpl.
  replace (e - 1 + 1) with e by lia. rewrite Hc, Z.sub_diag. simpl.
  rewrite (proj2 (Z.leb_le e (emax - prec)) He). reflexivity.
Qed.

Lemma div_eucl_exact (a b : Z) : 0 < b -> Z.div_eucl (a * b) b = (a, 0).
Proof.
  intros Hb. pose proof (Z.div_mul a b ltac:(lia)) as Hd.
  pose proof (Z.mod_mul a b ltac:(lia)) as Hm. unfold Z.div in Hd. unfold Z.modulo in Hm.
  destruct (Z.div_eucl (a * b) b) as [q r]. congruence.
Qed.

(** Dividing a valid float by 1.0 gives the float back. *)
Lemma fdiv_one (s : bool) (x : spec_float) :
  rounded s x -> fdiv x (float_of_int 1) = x.
Proof.
  rewrite float_of_int_1. intros [| |m e B].
  - destruct s; reflexivity.
  - destruct s; reflexivity.
  - unfold bounded, canonical_mantissa in B. apply andb_true_iff in B as [Bc Be].
    apply Z.eqb_eq in Bc. apply Z.leb_le in Be.
    unfold fdiv, SFdiv, SFdiv_core_binary.
    change (Zdigits2 4503599627370496) with 53. simpl Zdigits2.
    pose proof (Zdigits2_pos (Zpos m) eq_refl) as Hd1. simpl Zdigits2 in Hd1.
    set (d1 := Zpos (digits2_pos m)) in *.
    set (e' := Z.min (fexp prec emax (d1 + e - (53 + -52))) (e - -52)).
    assert (He' : (e' = e /\ d1 + e - 53 <= emin prec emax) \/ (e' = e - 1 /\ d1 = 53)).
    { unfold e', fexp, emin, prec, emax in *. lia. }
    rewrite xorb_false_r.
    destruct He' as [[He' Hsub]|[He' Hnorm]]; rewrite He'.
    + replace (e - -52 - e) with 52 by lia. cbv beta iota zeta.
      rewrite (Z.shiftl_mul_pow2 (Zpos m) 52) by lia.
      change (2 ^ 52) with 4503599627370496.
      rewrite div_eucl_exact by lia.
      change (new_location 4503599627370496 0) with loc_Exact.
      apply binary_round_aux_canonical; assumption.
    + replace (e - -52 - (e - 1)) with 53 by lia. cbv beta iota zeta.
      rewrite (Z.shiftl_mul_pow2 (Zpos m) 53) by lia.
      change (2 ^ 53) with (2 * 4503599627370496).
      replace (Zpos m * (2 * 4503599627370496)) with (Zpos m~0 * 4503599627370496) by lia.
      rewrite div_eucl_exact by lia.
      change (new_location 4503599627370496 0) with loc_Exact.
      apply binary_round_aux_canonical_double; assumption.
Qed.

(** The mean of one float is the float. *)
Lemma arithmetic_mean_one (x : spec_float) :
  nonneg_valid x -> arithmetic_mean [x] = x.
Proof.
  intros Hx. unfold arithmetic_mean.
  change (fold_left fadd [x] (S754_zero false)) with (fadd (S754_zero false) x).
  change (Py.len [x]) with 1. rewrite (fadd_zero_l x Hx).
  destruct Hx as [->|Hx]; [reflexivity|]. apply (fdiv_one false x Hx).
Qed.

End Binary64Valid.

(* ===================================================================== *)
(** * numpy: the order of the additions *)
(* ===================================================================== *)

(** [numpy.add.reduce] adds in an order of its own; what is proved of a sum
    is proved of every order and grouping of the additions. *)

Module NumpySum.

Lemma summation_weaken (k k' : nat) (c : list Py.float) (r : Py.float) :
  summation k c r -> (k <= k')%nat -> summation k' c r.
Proof.
  intros H Hk. destruct H as [k|k x|k i j a b c x y Ha Hb Hp Hi Hj].
  - constructor.
  - constructor.
  - apply (summation_add k' i j a b c x y); try assumption; lia.
Qed.

Lemma summation_perm (k : nat) (c c' : list Py.float) (r : Py.float) :
  summation k c r -> Permutation c c' -> summation k c' r.
Proof.
  intros H Hp. destruct H as [k|k x|k i j a b c x y Ha Hb Hab Hi Hj].
  - apply Permutation_nil in Hp. subst. constructor.
  - apply Permutation_length_1_inv in Hp. subst. constructor.
  - apply (summation_add k i j a b c' x y); try assumption.
    transitivity c; assumption.
Qed.

(** One more element. *)
Lemma summation_snoc (k : nat) (c : list Py.float) (r x : Py.float) :
  summation k c r -> summation (S k) (c ++ [x]) (Py.fadd r x).
Proof.
  intros H. apply (summation_add (S k) k 0 c [x] (c ++ [x]) r x); try lia.
  - assumption.
  - constructor.
  - reflexivity.
Qed.

Lemma fold_left_summation (a : list Py.float) :
  forall (k : nat) (b : list Py.float) (z : Py.float),
    summation k b z ->
    summation (k + length a) (b ++ a) (fold_left Py.fadd a z).
Proof.
  induction a as [|x a IH]; intros k b z Hz; simpl.
  - rewrite app_nil_r. apply (summation_weaken k); [assumption | lia].
  - apply (summation_perm _ ((b ++ [x]) ++ a)); [|rewrite <- app_assoc; reflexivity].
    apply (summation_weaken (S k + length a)); [|lia].
    apply IH. apply summation_snoc. assumption.
Qed.

Lemma unrolled_short (r0 r1 r2 r3 r4 r5 r6 r7 : Py.float) (a : list Py.float) :
  (length a < 8)%nat ->
  Np.unrolled r0 r1 r2 r3 r4 r5 r6 r7 a
  = fold_left Py.fadd a
      (Py.fadd (Py.fadd (Py.fadd r0 r1) (Py.fadd r2 r3))
               (Py.fadd (Py.fadd r4 r5) (Py.fadd r6 r7))).
Proof.
  intros H. do 8 (destruct a as [|? a]; [reflexivity|]). simpl in H. lia.
Qed.

Lemma block_sum_short (a : list Py.float) :
  (length a < 8)%nat -> Np.block_sum a = fold_left Py.fadd a (S754_zero false).
Proof.
  intros H. do 8 (destruct a as [|? a]; [reflexivity|]). simpl in H. lia.
Qed.

Lemma eight_or_fewer (a : list Py.float) :
  (length a < 8)%nat \/
  exists a0 a1 a2 a3 a4 a5 a6 a7 a',
    a = a0 :: a1 :: a2 :: a3 :: a4 :: a5 :: a6 :: a7 :: a'.
Proof.
  do 8 (destruct a as [|? a]; [left; simpl; lia|]). right. repeat eexists.
Qed.

Lemma unrolled_summation (a : list Py.float) :
  forall (k : nat) (b0 b1 b2 b3 b4 b5 b6 b7 : list Py.float)
         (r0 r1 r2 r3 r4 r5 r6 r7 : Py.float),
    summation k b0 r0 -> summation k b1 r1 -> summation k b2 r2 -> summation k b3 r3 ->
    summation k b4 r4 -> summation k b5 r5 -> summation k b6 r6 -> summation k b7 r7 ->
    summation (k + length a + 3) (b0 ++ b1 ++ b2 ++ b3 ++ b4 ++ b5 ++ b6 ++ b7 ++ a)
              (Np.unrolled r0 r1 r2 r3 r4 r5 r6 r7 a).
Proof.
  induction a as [a IH] using (induction_ltof1 _ (@length Py.float)). unfold ltof in IH.
  intros k b0 b1 b2 b3 b4 b5 b6 b7 r0 r1 r2 r3 r4 r5 r6 r7 H0 H1 H2 H3 H4 H5 H6 H7.
  destruct (eight_or_fewer a) as [Hshort|(a0 & a1 & a2 & a3 & a4 & a5 & a6 & a7 & a' & ->)].
  - rewrite unrolled_short by assumption.
    apply (summation_perm _ ((b0 ++ b1 ++ b2 ++ b3 ++ b4 ++ b5 ++ b6 ++ b7) ++ a));
      [|rewrite <- !app_assoc; reflexivity].
    apply (summation_weaken (k + 3 + length a)); [|lia].
    apply fold_left_summation.
    apply (summation_add _ (k + 2) (k + 2) (b0 ++ b1 ++ b2 ++ b3) (b4 ++ b5 ++ b6 ++ b7));
      [| |rewrite <- !app_assoc; reflexivity|lia|lia].
    + apply (summation_add _ (k + 1) (k + 1) (b0 ++ b1) (b2 ++ b3));
        [| |rewrite <- !app_assoc; reflexivity|lia|lia].
      * apply (summation_add _ k k b0 b1); [assumption|assumption|reflexivity|lia|lia].
      * apply (summation_add _ k k b2 b3); [assumption|assumption|reflexivity|lia|lia].
    + apply (summation_add _ (k + 1) (k + 1) (b4 ++ b5) (b6 ++ b7));
        [| |rewrite <- !app_assoc; reflexivity|lia|lia].
      * apply (summation_add _ k k b4 b5); [assumption|assumption|reflexivity|lia|lia].
      * apply (summation_add _ k k b6 b7); [assumption|assumption|reflexivity|lia|lia].
  - simpl Np.unrolled.
    apply (summation_perm _ ((b0 ++ [a0]) ++ (b1 ++ [a1]) ++ (b2 ++ [a2]) ++ (b3 ++ [a3]) ++
                             (b4 ++ [a4]) ++ (b5 ++ [a5]) ++ (b6 ++ [a6]) ++ (b7 ++ [a7]) ++ a')).
    + apply (summation_weaken (S k + length a' + 3)); [|simpl; lia].
      apply IH; [simpl; lia| | | | | | | |]; apply summation_snoc; assumption.
    + solve_Permutation.
Qed.

Lemma block_sum_summation (a : list Py.float) :
  summation (length a) a (Np.block_sum a).
Proof.
  destruct (eight_or_fewer a) as [Hshort|(a0 & a1 & a2 & a3 & a4 & a5 & a6 & a7 & a' & ->)].
  - rewrite block_sum_short by assumption.
    apply (fold_left_summation a 0 [] (S754_zero false)). constructor.
  - change (Np.block_sum (a0 :: a1 :: a2 :: a3 :: a4 :: a5 :: a6 :: a7 :: a'))
      with (Np.unrolled a0 a1 a2 a3 a4 a5 a6 a7 a').
    apply (summation_weaken (0 + length a' + 3)); [|simpl; lia].
    apply (unrolled_summation a' 0 [a0] [a1] [a2] [a3] [a4] [a5] [a6] [a7]); constructor.
Qed.

Lemma cut_bounds (n : nat) : (128 < n)%nat -> (0 < Np.cut n < n)%nat.
Proof.
  intros Hn. unfold Np.cut.
  pose proof (Nat.mod_upper_bound (n / 2) 8 ltac:(lia)) as Hm.
  pose proof (Nat.div_mod_eq n 2) as Hd.
  pose proof (Nat.mod_upper_bound n 2 ltac:(lia)) as Hm2.
  pose proof (Nat.Div0.mod_le (n / 2) 8). lia.
Qed.

Lemma pairwise_summation (fuel : nat) :
  forall a : list Py.float, summation (length a) a (Np.pairwise_sum fuel a).
Proof.
  induction fuel as [|fuel IH]; intros a; simpl Np.pairwise_sum.
  - apply block_sum_summation.
  - destruct (Nat.leb_spec (length a) 128) as [Hle|Hgt]; [apply block_sum_summation|].
    pose proof (cut_bounds (length a) Hgt) as Hcut.
    apply (summation_add _ (length (firstn (Np.cut (length a)) a))
                           (length (skipn (Np.cut (length a)) a))
                           (firstn (Np.cut (length a)) a) (skipn (Np.cut (length a)) a)).
    + apply IH.
    + apply IH.
    + rewrite firstn_skipn. reflexivity.
    + rewrite length_firstn. lia.
    + rewrite length_skipn. lia.
Qed.

(** The length of the array is enough fuel. *)
Lemma pairwise_sum_fuel (fuel : nat) :
  forall a : list Py.float,
    (length a <= fuel)%nat -> Np.pairwise_sum (S fuel) a = Np.pairwise_sum fuel a.
Proof.
  induction fuel as [|fuel IH]; intros a Hlen.
  - simpl. destruct (Nat.leb_spec (length a) 128); [reflexivity | lia].
  - change (Np.pairwise_sum (S (S fuel)) a)
      with (if (length a <=? 128)%nat then Np.block_sum a
            else Py.fadd (Np.pairwise_sum (S fuel) (firstn (Np.cut (length a)) a))
                         (Np.pairwise_sum (S fuel) (skipn (Np.cut (length a)) a))).
    change (Np.pairwise_sum (S fuel) a)
      with (if (length a <=? 128)%nat then Np.block_sum a
            else Py.fadd (Np.pairwise_sum fuel (firstn (Np.cut (length a)) a))
                         (Np.pairwise_sum fuel (skipn (Np.cut (length a)) a))).
    destruct (Nat.leb_spec (length a) 128) as [Hle|Hgt]; [reflexivity|].
    pose proof (cut_bounds (length a) Hgt) as Hcut.
    rewrite !IH; [reflexivity | rewrite length_skipn; lia | rewrite length_firstn; lia].
Qed.

Lemma pairwise_sum_enough (a : list Py.float) (fuel : nat) :
  (length a <= fuel)%nat -> Np.pairwise_sum fuel a = Np.pairwise_sum (length a) a.
Proof.
  intros H. induction H as [|fuel H IH]; [reflexivity|].
  rewrite pairwise_sum_fuel by assumption. exact IH.
Qed.

(** The sum of an array of more than 128 elements is the sum of the sums
    of its two parts: the fuel does not run out. *)
Lemma pairwise_sum_cut (a : list Py.float) :
  (128 < length a)%nat ->
  Np.pairwise_sum (length a) a
  = Py.fadd (Np.pairwise_sum (length (firstn (Np.cut (length a)) a))
                             (firstn (Np.cut (length a)) a))
            (Np.pairwise_sum (length (skipn (Np.cut (length a)) a))
                             (skipn (Np.cut (length a)) a)).
Proof.
  intros Hgt. pose proof (cut_bounds (length a) Hgt) as Hcut.
  assert (Hn : exists n, length a = S n) by (exists (pred (length a)); lia).
  destruct Hn as [n En]. rewrite En at 1.
  change (Np.pairwise_sum (S n) a)
    with (if (length a <=? 128)%nat then Np.block_sum a
          else Py.fadd (Np.pairwise_sum n (firstn (Np.cut (length a)) a))
                       (Np.pairwise_sum n (skipn (Np.cut (length a)) a))).
  destruct (Nat.leb_spec (length a) 128) as [Hle|_]; [lia|].
  rewrite (pairwise_sum_enough (firstn _ a) n) by (rewrite length_firstn; lia).
  rewrite (pairwise_sum_enough (skipn _ a) n) by (rewrite length_skipn; lia).
  reflexivity.
Qed.

Lemma bufsize_pos : (0 < Np.bufsize)%nat.
Proof. unfold Np.bufsize. apply Nat.neq_0_lt_0, Nat.pow_nonzero. discriminate. Qed.

Lemma buffered_step (fuel : nat) (res x : Py.float) (a : list Py.float) :
  Np.buffered (S fuel) res (x :: a)
  = Np.buffered fuel
      (Py.fadd res (Np.pairwise_sum Np.bufsize (firstn Np.bufsize (x :: a))))
      (skipn Np.bufsize (x :: a)).
Proof. reflexivity. Qed.

Lemma buffered_nil (fuel : nat) (res : Py.float) : Np.buffered fuel res [] = res.
Proof. destruct fuel; reflexivity. Qed.

(** The buffers take every element of the array once: the fuel does not
    run out. *)
Lemma buffered_summation (fuel : nat) :
  forall (a b : list Py.float) (res : Py.float) (k : nat),
    (length a <= fuel)%nat -> (0 < k)%nat -> summation k b res ->
    summation (k + length a) (b ++ a) (Np.buffered fuel res a).
Proof.
  pose proof bufsize_pos as Hbuf.
  induction fuel as [|fuel IH]; intros a b res k Hlen Hk Hres.
  - destruct a; [|simpl in Hlen; lia]. rewrite buffered_nil, app_nil_r.
    apply (summation_weaken k); [assumption | lia].
  - destruct a as [|x a].
    + rewrite buffered_nil, app_nil_r. apply (summation_weaken k); [assumption | lia].
    + rewrite buffered_step.
      assert (Hfirst : (0 < length (firstn Np.bufsize (x :: a)))%nat)
        by (rewrite length_firstn; simpl length; lia).
      assert (Hsplit : (length (firstn Np.bufsize (x :: a))
                        + length (skipn Np.bufsize (x :: a)) = length (x :: a))%nat)
        by (rewrite <- length_app, firstn_skipn; reflexivity).
      apply (summation_perm _ ((b ++ firstn Np.bufsize (x :: a)) ++ skipn Np.bufsize (x :: a)));
        [|rewrite <- app_assoc, firstn_skipn; reflexivity].
      apply (summation_weaken (k + length (firstn Np.bufsize (x :: a))
                               + length (skipn Np.bufsize (x :: a)))); [|lia].
      apply IH; [simpl length in *; lia | lia |].
      apply (summation_add _ k (length (firstn Np.bufsize (x :: a))) b
                           (firstn Np.bufsize (x :: a)));
        [assumption | apply pairwise_summation | reflexivity | lia | lia].
Qed.

(** An int64 array that fits the buffer is added as the float64 array of
    its elements is. *)
Lemma sum_within_buffer (l : list Z) :
  (length l <= Np.bufsize)%nat ->
  Np.sum (Np.int64 l) = Np.sum (Np.float64 (map Py.float_of_int l)).
Proof.
  intros Hlen. unfold Np.sum. rewrite length_map.
  destruct l as [|n l]; [reflexivity|].
  change (length (n :: l)) with (S (length l)) at 1.
  change (map Py.float_of_int (n :: l)) with (Py.float_of_int n :: map Py.float_of_int l).
  rewrite buffered_step.
  rewrite firstn_all2, skipn_all2 by (simpl length; rewrite length_map; simpl in Hlen; lia).
  rewrite buffered_nil. f_equal.
  rewrite pairwise_sum_enough by (simpl length; rewrite length_map; simpl in Hlen; lia).
  simpl length. rewrite length_map. reflexivity.
Qed.

Lemma sum_summation (a : Np.ndarray) :
  summation (S (length (Np.as_float64 a))) (Np.as_float64 a) (Np.sum a).
Proof.
  destruct a as [l|l]; simpl Np.as_float64; unfold Np.sum.
  - rewrite <- (length_map Py.float_of_int l).
    apply (buffered_summation _ (map Py.float_of_int l) [] (S754_zero false) 1);
      [lia | lia | constructor].
  - apply (summation_add _ 0 (length l) [] l);
      [constructor | apply pairwise_summation | reflexivity | lia | lia].
Qed.

(** What the additions keep, the sum keeps, whatever their order. *)
Lemma summation_closed (P : Py.float -> Prop) :
  P (S754_zero false) -> (forall x y, P x -> P y -> P (Py.fadd x y)) ->
  forall (k : nat) (c : list Py.float) (r : Py.float),
    summation k c r -> Forall P c -> P r.
Proof.
  intros Hzero Hadd k c r H.
  induction H as [k|k x|k i j a b c x y Ha IHa Hb IHb Hp Hi Hj]; intros Hc.
  - assumption.
  - inversion Hc; assumption.
  - apply (Permutation_Forall (Permutation_sym Hp)) in Hc.
    apply Forall_app in Hc as [Hca Hcb]. apply Hadd; [apply IHa | apply IHb]; assumption.
Qed.

Lemma sum_closed (P : Py.float -> Prop) (a : Np.ndarray) :
  P (S754_zero false) -> (forall x y, P x -> P y -> P (Py.fadd x y)) ->
  Forall P (Np.as_float64 a) -> P (Np.sum a).
Proof.
  intros Hzero Hadd.
  apply (summation_closed P Hzero Hadd (S (length (Np.as_float64 a)))), sum_summation.
Qed.

(** A NaN among the elements makes the sum NaN, wherever it stands. *)
Lemma summation_nan (k : nat) (c : list Py.float) (r : Py.float) :
  summation k c r -> In S754_nan c -> r = S754_nan.
Proof.
  intros H.
  induction H as [k|k x|k i j a b c x y Ha IHa Hb IHb Hp Hi Hj]; intros Hin.
  - destruct Hin.
  - destruct Hin as [->|[]]. reflexivity.
  - apply (Permutation_in _ (Permutation_sym Hp)) in Hin.
    apply in_app_or in Hin as [Hin|Hin].
    + rewrite (IHa Hin). reflexivity.
    + rewrite (IHb Hin). destruct x; reflexivity.
Qed.

Lemma sum_with_nan (a : Np.ndarray) : In S754_nan (Np.as_float64 a) -> Np.sum a = S754_nan.
Proof. apply (summation_nan (S (length (Np.as_float64 a)))), sum_summation. Qed.

(** Fewer than eight elements are added from left to right. *)
Lemma sum_short (a : Np.ndarray) :
  (length (Np.as_float64 a) < 8)%nat ->
  Np.sum a
  = Py.fadd (S754_zero false) (fold_left Py.fadd (Np.as_float64 a) (S754_zero false)).
Proof.
  assert (Hfloat : forall c : list Py.float, (length c < 8)%nat ->
            Np.sum (Np.float64 c)
            = Py.fadd (S754_zero false) (fold_left Py.fadd c (S754_zero false))).
  { intros c H. unfold Np.sum. f_equal.
    destruct (length c) as [|n] eqn:E; simpl Np.pairwise_sum.
    - apply block_sum_short. lia.
    - rewrite E. destruct (Nat.leb_spec (S n) 128); [|lia]. apply block_sum_short. lia. }
  destruct a as [l|l]; simpl Np.as_float64; intros H.
  - rewrite sum_within_buffer; [apply Hfloat; assumption|].
    rewrite length_map in H. pose proof bufsize_pos. unfold Np.bufsize in *.
    assert (8 <= 2 ^ 13)%nat by (change 8%nat with (2 ^ 3)%nat; apply Nat.pow_le_mono_r; lia).
    lia.
  - apply Hfloat. assumption.
Qed.

End NumpySum.

(* ===================================================================== *)
(** * binary64: the error of a rounding *)
(* ===================================================================== *)

(** The float that a rounding returns against the number that was rounded,
    first on the mantissas, then in rational numbers. *)

Module Binary64Error.

Import Py.
Import Binary64.
Import Binary64Valid.

Lemma loc_of_shr_record_of_loc (m : Z) (l : location) :
  loc_of_shr_record (shr_record_of_loc m l) = l.
Proof. destruct l as [|[| |]]; reflexivity. Qed.

(** What [shr_fexp] does to the mantissa and the exponent. *)
Lemma shr_fexp_value (m e : Z) (l : location) :
  0 < m ->
  let k := fexp prec emax (Zdigits2 m + e) - e in
  (k <= 0 -> shr_fexp prec emax m e l = (shr_record_of_loc m l, e)) /\
  (0 < k -> shr_m (fst (shr_fexp prec emax m e l)) = m / 2 ^ k /\
            snd (shr_fexp prec emax m e l) = e + k).
Proof.
  intros Hm k. unfold shr_fexp, shr. fold k. split; intros Hk.
  - destruct k; try reflexivity. lia.
  - destruct k as [|p|p]; try lia. simpl fst. simpl snd. split; [|reflexivity].
    rewrite iter_pos_shr_1_m by (rewrite shr_m_of_loc; lia).
    rewrite shr_m_of_loc. apply Z.shiftr_div_pow2. lia.
Qed.

Lemma Zdigits2_div_pow2 (m k : Z) :
  0 < m -> 0 <= k -> k < Zdigits2 m -> Zdigits2 (m / 2 ^ k) = Zdigits2 m - k /\ 0 < m / 2 ^ k.
Proof.
  intros Hm Hk Hlt. rewrite <- Z.shiftr_div_pow2 by assumption.
  rewrite (Zdigits2_log2 m Hm) in *.
  assert (Hlog : Z.log2 (Z.shiftr m k) = Z.log2 m - k).
  { rewrite Z.log2_shiftr by assumption. rewrite Z.max_r by lia. reflexivity. }
  assert (Hpos : 0 < Z.shiftr m k).
  { rewrite Z.shiftr_div_pow2 by assumption. apply Z.div_str_pos. split.
    - apply Z.pow_pos_nonneg; lia.
    - pose proof (Z.log2_spec m Hm) as [L _].
      assert (2 ^ k <= 2 ^ Z.log2 m) by (apply Z.pow_le_mono_r; lia). lia. }
  split; [|assumption]. rewrite Zdigits2_log2 by assumption. lia.
Qed.

Lemma Zdigits2_succ (m : Z) :
  0 < m -> Zdigits2 (m + 1) = Zdigits2 m \/
           (Zdigits2 (m + 1) = Zdigits2 m + 1 /\ m + 1 = 2 ^ Zdigits2 m).
Proof.
  intros Hm.
  pose proof (Zdigits2_bounds m Hm) as [L U].
  pose proof (Zdigits2_bounds (m + 1) ltac:(lia)) as [L' U'].
  pose proof (Zdigits2_pos m Hm) as Hd.
  destruct (Z.eq_dec (m + 1) (2 ^ Zdigits2 m)) as [E|N].
  - right. split; [|assumption].
    rewrite E. rewrite Zdigits2_log2 by (apply Z.pow_pos_nonneg; lia).
    rewrite Z.log2_pow2 by lia. reflexivity.
  - left. assert (Hlt : m + 1 < 2 ^ Zdigits2 m) by lia.
    destruct (Z.lt_trichotomy (Zdigits2 (m + 1)) (Zdigits2 m)) as [H|[H|H]]; [|assumption|].
    + assert (2 ^ Zdigits2 (m + 1) <= 2 ^ (Zdigits2 m - 1)) by (apply Z.pow_le_mono_r; lia). lia.
    + assert (2 ^ Zdigits2 m <= 2 ^ (Zdigits2 (m + 1) - 1)) by (apply Z.pow_le_mono_r; lia). lia.
Qed.

(** The second shift of [binary_round_aux], after the rounding: it keeps the
    value, and leaves a mantissa and an exponent that are canonical. *)
Lemma shr_fexp_after_round (m1 m2 e1 : Z) :
  0 < m1 -> fexp prec emax (Zdigits2 m1 + e1) = e1 -> m1 <= m2 <= m1 + 1 ->
  exists (m3 e2 : Z),
    shr_m (fst (shr_fexp prec emax m2 e1 loc_Exact)) = m3 /\
    snd (shr_fexp prec emax m2 e1 loc_Exact) = e2 /\
    0 < m3 /\ e1 <= e2 /\ m3 * 2 ^ (e2 - e1) = m2 /\
    fexp prec emax (Zdigits2 m3 + e2) = e2 /\
    e2 <= fexp prec emax (Zdigits2 m1 + e1 + 1).
Proof.
  intros Hm1 Hset Hm2.
  assert (Hpos2 : 0 < m2) by lia.
  destruct (shr_fexp_value m2 e1 loc_Exact Hpos2) as [Hno Hyes].
  set (k2 := fexp prec emax (Zdigits2 m2 + e1) - e1) in *.
  assert (Hd2 : Zdigits2 m2 = Zdigits2 m1 \/
                (Zdigits2 m2 = Zdigits2 m1 + 1 /\ m2 = 2 ^ Zdigits2 m1)).
  { destruct (Z.eq_dec m2 m1) as [->|N]; [left; reflexivity|].
    replace m2 with (m1 + 1) by lia. apply Zdigits2_succ. assumption. }
  pose proof (Zdigits2_pos m1 Hm1) as Hd1.
  assert (Hk2 : k2 = 0 \/ (k2 = 1 /\ m2 = 2 ^ Zdigits2 m1 /\ Zdigits2 m2 = Zdigits2 m1 + 1)).
  { unfold k2. destruct Hd2 as [->|[-> ->]]; [left; lia|].
    unfold fexp in *. lia. }
  destruct Hk2 as [Hk2|(Hk2 & Hpow & Hdig)].
  - rewrite Hno by lia. simpl fst. simpl snd. rewrite ?shr_m_of_loc.
    exists m2, e1. repeat split; try lia.
    + rewrite Z.sub_diag. simpl. lia.
    + unfold fexp in *. lia.
  - destruct (Hyes ltac:(lia)) as [Hm He]. rewrite Hm, He, Hk2.
    exists (m2 / 2 ^ 1), (e1 + 1).
    assert (Hhalf : m2 / 2 ^ 1 = 2 ^ (Zdigits2 m1 - 1)).
    { rewrite Hpow. replace (Zdigits2 m1) with (Zdigits2 m1 - 1 + 1) at 1 by lia.
      rewrite Z.pow_add_r by lia. apply Z.div_mul. lia. }
    assert (Hp : 0 < 2 ^ (Zdigits2 m1 - 1)) by (apply Z.pow_pos_nonneg; lia).
    repeat split; try lia.
    + replace (e1 + 1 - e1) with 1 by lia. rewrite Hhalf, Hpow.
      replace (Zdigits2 m1) with (Zdigits2 m1 - 1 + 1) at 2 by lia.
      rewrite Z.pow_add_r by lia. reflexivity.
    + rewrite Hhalf. rewrite Zdigits2_log2 by assumption. rewrite Z.log2_pow2 by lia.
      unfold k2 in Hk2. rewrite Hdig in Hk2. unfold fexp in *. lia.
    + unfold k2 in Hk2. rewrite Hdig in Hk2. unfold fexp in *. lia.
Qed.

(** The first shift of [binary_round_aux] on a mantissa that is aligned:
    the mantissa it leaves, the number of bits it drops, and what is known
    of them. *)
Lemma shr_fexp_first (m e : Z) (l : location) :
  0 < m -> emin prec emax <= e -> e <= fexp prec emax (Zdigits2 m + e) ->
  exists (m1 k : Z),
    shr_m (fst (shr_fexp prec emax m e l)) = m1 /\
    snd (shr_fexp prec emax m e l) = e + k /\
    0 <= k /\ 0 < m1 /\ m1 * 2 ^ k <= m < (m1 + 1) * 2 ^ k /\
    fexp prec emax (Zdigits2 m1 + (e + k)) = e + k /\
    Zdigits2 m1 + k = Zdigits2 m /\
    (prec <= Zdigits2 m -> 2 ^ 52 <= m1) /\
    (k = 0 -> loc_of_shr_record (fst (shr_fexp prec emax m e l)) = l).
Proof.
  intros Hm He Hal.
  destruct (shr_fexp_value m e l Hm) as [Hno Hyes].
  set (k := fexp prec emax (Zdigits2 m + e) - e) in *.
  pose proof (Zdigits2_pos m Hm) as Hd.
  pose proof (Zdigits2_bounds m Hm) as [Hlo Hhi].
  assert (Hk : k = 0 \/ 0 < k) by lia.
  destruct Hk as [Hk|Hk].
  - rewrite Hno by lia. simpl fst. simpl snd. rewrite shr_m_of_loc, loc_of_shr_record_of_loc.
    exists m, 0. rewrite Z.pow_0_r, Z.add_0_r. repeat split; try lia.
    intros Hp. assert (2 ^ 52 <= 2 ^ (Zdigits2 m - 1)).
    { apply Z.pow_le_mono_r; unfold prec in Hp; lia. }
    lia.
  - destruct (Hyes Hk) as [H1 H2]. rewrite H1, H2.
    assert (Hkd : k = Zdigits2 m - prec).
    { unfold k, fexp, emin, prec, emax in *. lia. }
    assert (Hlt : k < Zdigits2 m) by (unfold prec in Hkd; lia).
    destruct (Zdigits2_div_pow2 m k Hm ltac:(lia) Hlt) as [Hdig Hpos].
    assert (Hp : 0 < 2 ^ k) by (apply Z.pow_pos_nonneg; lia).
    pose proof (Z.div_mod m (2 ^ k) ltac:(lia)) as Hdm.
    pose proof (Z.mod_pos_bound m (2 ^ k) Hp) as Hmod.
    exists (m / 2 ^ k), k. repeat split; try lia.
    + rewrite Hdig. replace (Zdigits2 m - k + (e + k)) with (Zdigits2 m + e) by lia.
      unfold k. lia.
    + intros _. pose proof (Zdigits2_bounds (m / 2 ^ k) Hpos) as [L _].
      rewrite Hdig in L.
      replace (Zdigits2 m - k - 1) with 52 in L by (unfold prec in Hkd; lia). exact L.
Qed.

(** The value of a rounded float: for a mantissa that is aligned, and that
    is exact or has at least 53 bits, the float that [binary_round_aux]
    returns is finite when the magnitude leaves room, and it is within
    2^-52 of the value that was rounded, relative to either of them. The
    mantissa of the result is read at the exponent of the input. *)
Lemma round_aux_value (s : bool) (m e : Z) (l : location) :
  0 < m -> emin prec emax <= e -> e <= fexp prec emax (Zdigits2 m + e) ->
  l = loc_Exact \/ prec <= Zdigits2 m ->
  Zdigits2 m + e <= emax - 1 ->
  exists (m' : positive) (e' : Z),
    binary_round_aux prec emax s m e l = S754_finite s m' e' /\
    bounded prec emax m' e' = true /\ e <= e' /\
    m * (2 ^ 52 - 1) <= Zpos m' * 2 ^ (e' - e) * 2 ^ 52 /\
    Zpos m' * 2 ^ (e' - e) * (2 ^ 52 - 1) <= m * 2 ^ 52 /\
    (prec <= Zdigits2 m -> (m + 1) * (2 ^ 52 - 1) <= Zpos m' * 2 ^ (e' - e) * 2 ^ 52).
Proof.
  intros Hm He Hal Hl Hov.
  destruct (shr_fexp_first m e l Hm He Hal)
    as (m1 & k & E1 & E2 & Hk & Hm1 & Hfloor & Hset & Hdig & Hnorm & Hloc).
  unfold binary_round_aux.
  destruct (shr_fexp prec emax m e l) as [r1 e1]. simpl fst in *. simpl snd in *. subst e1.
  pose proof (round_nearest_even_bounds (shr_m r1) (loc_of_shr_record r1)) as Hr.
  set (m2 := round_nearest_even (shr_m r1) (loc_of_shr_record r1)) in *.
  rewrite E1 in Hr.
  destruct (shr_fexp_after_round m1 m2 (e + k) Hm1 Hset Hr)
    as (m3 & e2 & F1 & F2 & Hm3 & He2 & Hval & Hcan & Hcap).
  destruct (shr_fexp prec emax m2 (e + k) loc_Exact) as [r2 e2']. simpl fst in *. simpl snd in *.
  subst e2'. rewrite F1. destruct m3 as [|m3|m3]; try lia.
  assert (Hfin : e2 <= emax - prec).
  { unfold fexp, emin, prec, emax in *. lia. }
  rewrite (proj2 (Z.leb_le e2 (emax - prec)) Hfin).
  exists m3, e2. split; [reflexivity|]. split.
  { unfold bounded, canonical_mantissa. apply andb_true_iff. split.
    - apply Z.eqb_eq. exact Hcan.
    - apply Z.leb_le. exact Hfin. }
  split; [lia|].
  assert (HV : Zpos m3 * 2 ^ (e2 - e) = m2 * 2 ^ k).
  { replace (e2 - e) with (e2 - (e + k) + k) by lia.
    rewrite Z.pow_add_r by lia. rewrite Z.mul_assoc, Hval. reflexivity. }
  rewrite HV.
  assert (Hp : 0 < 2 ^ k) by (apply Z.pow_pos_nonneg; lia).
  assert (Hcase : (k = 0 /\ m2 = m /\ m1 = m) \/ 2 ^ 52 <= m1).
  { destruct Hl as [Hex|Hp53]; [|right; apply Hnorm; assumption].
    destruct (Z.eq_dec k 0) as [Hk0|Hk0].
    - left. rewrite Hk0, Z.pow_0_r in Hfloor. assert (Hm1m : m1 = m) by lia.
      split; [assumption|]. split; [|assumption].
      unfold m2. rewrite (Hloc Hk0), E1, Hex. simpl. assumption.
    - right. apply Hnorm.
      unfold fexp, emin, prec, emax in *. lia. }
  change (2 ^ 52) with 4503599627370496 in *.
  destruct Hcase as [(Hk0 & Hm2m & Hm1m)|Hbig].
  - rewrite Hk0, Z.pow_0_r, Z.mul_1_r, Hm2m. split; [lia|]. split; [lia|].
    intros Hp53. specialize (Hnorm Hp53). lia.
  - split; [nia|]. split; [nia|]. intros _. nia.
Qed.

End Binary64Error.

Module Binary64Q.

Import Py.
Import Binary64.
Import Binary64Valid.
Import Binary64Error.

Lemma pow2_pos (e : Z) : (0 < 2 ^ e)%Q.
Proof. apply Qpower_0_lt. reflexivity. Qed.

Lemma pow2_add (a b : Z) : (2 ^ (a + b) == 2 ^ a * 2 ^ b)%Q.
Proof. apply Qpower_plus. discriminate. Qed.

Lemma inject_pow2 (k : Z) : 0 <= k -> (inject_Z (2 ^ k) == 2 ^ k)%Q.
Proof. intros Hk. apply (Zpower_Qpower 2 k Hk). Qed.

(** A mantissa read at a lower exponent. *)
Lemma scaled_value (m e e' : Z) :
  e <= e' -> (inject_Z (m * 2 ^ (e' - e)) * 2 ^ e == inject_Z m * 2 ^ e')%Q.
Proof.
  intros H. rewrite inject_Z_mult, inject_pow2 by lia.
  replace e' with ((e' - e) + e) at 2 by lia. rewrite pow2_add. ring.
Qed.

Lemma ulp_scale (a b : Z) :
  a * (2 ^ 52 - 1) <= b * 2 ^ 52 -> (inject_Z a * (1 - ulp) <= inject_Z b)%Q.
Proof.
  intros H. change (2 ^ 52) with 4503599627370496 in H.
  rewrite Zle_Qle in H. rewrite !inject_Z_mult in H.
  change (inject_Z (4503599627370496 - 1)) with (4503599627370495 # 1)%Q in H.
  change (inject_Z 4503599627370496) with (4503599627370496 # 1)%Q in H.
  unfold ulp. lra.
Qed.

(** [round_aux_value] in rational numbers. *)
Lemma round_aux_Q (m e : Z) (l : location) :
  0 < m -> emin prec emax <= e -> e <= fexp prec emax (Zdigits2 m + e) ->
  l = loc_Exact \/ prec <= Zdigits2 m ->
  Zdigits2 m + e <= emax - 1 ->
  exists (m' : positive) (e' : Z),
    binary_round_aux prec emax false m e l = S754_finite false m' e' /\
    bounded prec emax m' e' = true /\
    (inject_Z m * 2 ^ e * (1 - ulp) <= inject_Z (Zpos m') * 2 ^ e')%Q /\
    (inject_Z (Zpos m') * 2 ^ e' * (1 - ulp) <= inject_Z m * 2 ^ e)%Q /\
    (prec <= Zdigits2 m ->
     (inject_Z (m + 1) * 2 ^ e * (1 - ulp) <= inject_Z (Zpos m') * 2 ^ e')%Q).
Proof.
  intros Hm He Hal Hl Hov.
  destruct (round_aux_value false m e l Hm He Hal Hl Hov)
    as (m' & e' & Hr & Hb & Hee & H1 & H2 & H3).
  exists m', e'. split; [assumption|]. split; [assumption|].
  pose proof (pow2_pos e) as Hp.
  pose proof (scaled_value (Zpos m') e e' Hee) as Hs.
  apply ulp_scale in H1. apply ulp_scale in H2.
  rewrite <- Hs. split; [nra|]. split; [nra|].
  intros Hd. specialize (H3 Hd). apply ulp_scale in H3. nra.
Qed.

Lemma iter_xO_value (m d : positive) : Zpos (Pos.iter xO m d) = Zpos m * 2 ^ Zpos d.
Proof.
  induction d as [|d IH] using Pos.peano_ind.
  - simpl. lia.
  - rewrite Pos.iter_succ, Pos2Z.inj_succ, Z.pow_succ_r by lia.
    change (Zpos (Pos.iter xO m d)~0) with (2 * Zpos (Pos.iter xO m d)). rewrite IH. ring.
Qed.

Lemma shl_align_value (m : positive) (e e' : Z) :
  e' <= e -> Zpos (fst (shl_align m e e')) = Zpos m * 2 ^ (e - e').
Proof.
  intros H. unfold shl_align. destruct (e' - e) as [|p|p] eqn:E; simpl fst; try lia.
  - replace (e - e') with 0 by lia. simpl. lia.
  - rewrite iter_xO_value. f_equal. f_equal. lia.
Qed.

(** [binary_round] in rational numbers. *)
Lemma binary_round_Q (m : positive) (e : Z) :
  emin prec emax <= e -> Zdigits2 (Zpos m) + e <= emax - 1 ->
  exists (m' : positive) (e' : Z),
    binary_round prec emax false m e = S754_finite false m' e' /\
    bounded prec emax m' e' = true /\
    (inject_Z (Zpos m) * 2 ^ e * (1 - ulp) <= inject_Z (Zpos m') * 2 ^ e')%Q /\
    (inject_Z (Zpos m') * 2 ^ e' * (1 - ulp) <= inject_Z (Zpos m) * 2 ^ e)%Q.
Proof.
  intros He Hov. unfold binary_round, shl_align.
  pose proof (fexp_emin (Zpos (digits2_pos m) + e)) as Hf.
  destruct (fexp prec emax (Zpos (digits2_pos m) + e) - e) as [|d|d] eqn:Ed.
  - destruct (round_aux_Q (Zpos m) e loc_Exact) as (m' & e' & H & B & H1 & H2 & _);
      [lia | assumption | simpl Zdigits2; lia | left; reflexivity | assumption|].
    exists m', e'. repeat split; assumption.
  - destruct (round_aux_Q (Zpos m) e loc_Exact) as (m' & e' & H & B & H1 & H2 & _);
      [lia | assumption | simpl Zdigits2; lia | left; reflexivity | assumption|].
    exists m', e'. repeat split; assumption.
  - set (f := fexp prec emax (Zpos (digits2_pos m) + e)) in *.
    assert (Hdig : Zdigits2 (Zpos (Pos.iter xO m d)) + f = Zpos (digits2_pos m) + e).
    { simpl Zdigits2. rewrite digits2_pos_iter_xO. lia. }
    destruct (round_aux_Q (Zpos (Pos.iter xO m d)) f loc_Exact)
      as (m' & e' & H & B & H1 & H2 & _);
      [lia | assumption | rewrite Hdig; unfold f; lia | left; reflexivity
       | rewrite Hdig; simpl Zdigits2 in Hov; assumption|].
    exists m', e'. split; [assumption|]. split; [assumption|].
    assert (Hv : (inject_Z (Zpos (Pos.iter xO m d)) * 2 ^ f == inject_Z (Zpos m) * 2 ^ e)%Q).
    { rewrite iter_xO_value. replace (Zpos d) with (e - f) by lia.
      apply scaled_value. lia. }
    rewrite <- Hv. split; assumption.
Qed.

(** The magnitude of a number, from its bounds. *)
Lemma mag_upper (m e b : Z) :
  0 < m -> (inject_Z m * 2 ^ e <= 2 ^ b)%Q -> Zdigits2 m + e <= b + 1.
Proof.
  intros Hm H. pose proof (Zdigits2_bounds m Hm) as [L _].
  pose proof (Zdigits2_pos m Hm) as Hd.
  rewrite Zle_Qle, inject_pow2 in L by lia.
  assert (Hle : (2 ^ (Zdigits2 m - 1 + e) <= 2 ^ b)%Q).
  { rewrite pow2_add. pose proof (pow2_pos e). nra. }
  apply Qpower_le_compat_l_inv in Hle; [lia | reflexivity].
Qed.

Lemma mag_lower (m e a : Z) :
  0 < m -> (2 ^ a <= inject_Z m * 2 ^ e)%Q -> a < Zdigits2 m + e.
Proof.
  intros Hm H. pose proof (Zdigits2_bounds m Hm) as [_ U].
  pose proof (Zdigits2_pos m Hm) as Hd.
  rewrite Zlt_Qlt, inject_pow2 in U by lia.
  assert (Hlt : (2 ^ a < 2 ^ (Zdigits2 m + e))%Q).
  { rewrite pow2_add. pose proof (pow2_pos e). nra. }
  apply Qpower_lt_compat_l_inv in Hlt; [lia | reflexivity].
Qed.

(** Facts about [approx]. *)
Lemma ulp_pos : (0 < ulp)%Q.
Proof. reflexivity. Qed.

Lemma slack_le (i k : nat) : (i <= k)%nat -> (slack k <= slack i)%Q.
Proof.
  intros H. unfold slack. apply inj_le in H. rewrite Zle_Qle in H.
  assert (0 <= (inject_Z (Z.of_nat k) - inject_Z (Z.of_nat i)) * ulp)%Q
    by (apply Qmult_le_0_compat; [lra | discriminate]).
  lra.
Qed.

Lemma slack_succ (k : nat) : (slack (S k) == slack k - ulp)%Q.
Proof. unfold slack. rewrite Nat2Z.inj_succ. unfold Z.succ. rewrite inject_Z_plus. ring. Qed.

Lemma slack_le_1 (k : nat) : (slack k <= 1)%Q.
Proof.
  unfold slack. pose proof (Nat2Z.is_nonneg k) as H. rewrite Zle_Qle in H.
  assert (0 <= inject_Z (Z.of_nat k) * ulp)%Q
    by (apply Qmult_le_0_compat; [assumption | discriminate]).
  lra.
Qed.

Lemma F2Q_nonneg (x : float) : finite_nonneg x -> (0 <= F2Q x)%Q.
Proof.
  intros [->|(m & e & -> & _)]; simpl; [lra|].
  pose proof (pow2_pos e). assert (0 < inject_Z (Zpos m))%Q by reflexivity.
  nra.
Qed.

Lemma approx_weaken (i k : nat) (x : float) (q : Q) :
  approx i x q -> (i <= k)%nat -> approx k x q.
Proof.
  intros (Hf & Hq & H1 & H2) Hik. pose proof (slack_le i k Hik).
  pose proof (F2Q_nonneg x Hf). repeat split; try assumption; nra.
Qed.

Lemma approx_Qeq (k : nat) (x : float) (q q' : Q) :
  (q == q')%Q -> approx k x q -> approx k x q'.
Proof.
  intros E (Hf & Hq & H1 & H2). repeat split; try assumption; rewrite <- E; assumption.
Qed.

Lemma approx_zero (k : nat) : approx k (S754_zero false) 0.
Proof. repeat split; [left; reflexivity | lra | simpl; lra | simpl; lra]. Qed.

(** With a slack of a half at least, each of the two is at most twice the
    other. *)
Lemma approx_twice (k : nat) (x : float) (q : Q) :
  approx k x q -> (1 # 2 <= slack k)%Q -> (F2Q x <= 2 * q)%Q /\ (q <= 2 * F2Q x)%Q.
Proof.
  intros (Hf & Hq & H1 & H2) Hs. pose proof (F2Q_nonneg x Hf). split; nra.
Qed.

Lemma value_pos (m : positive) (e : Z) : (0 < inject_Z (Zpos m) * 2 ^ e)%Q.
Proof.
  pose proof (pow2_pos e). assert (0 < inject_Z (Zpos m))%Q by reflexivity. nra.
Qed.

Lemma bounded_facts (m : positive) (e : Z) :
  bounded prec emax m e = true ->
  emin prec emax <= e /\ Zdigits2 (Zpos m) <= prec /\ e <= emax - prec /\
  fexp prec emax (Zdigits2 (Zpos m) + e) = e.
Proof.
  unfold bounded, canonical_mantissa. intros H. apply andb_true_iff in H as [H1 H2].
  apply Z.eqb_eq in H1. apply Z.leb_le in H2. simpl Zdigits2.
  unfold fexp, emin, prec, emax in *. lia.
Qed.

(** The sum of two positive floats. *)
Lemma fadd_Q (mx my : positive) (ex ey : Z) :
  bounded prec emax mx ex = true -> bounded prec emax my ey = true ->
  (inject_Z (Zpos mx) * 2 ^ ex + inject_Z (Zpos my) * 2 ^ ey <= 2 ^ 1001)%Q ->
  exists (m' : positive) (e' : Z),
    fadd (S754_finite false mx ex) (S754_finite false my ey) = S754_finite false m' e' /\
    bounded prec emax m' e' = true /\
    ((inject_Z (Zpos mx) * 2 ^ ex + inject_Z (Zpos my) * 2 ^ ey) * (1 - ulp)
     <= inject_Z (Zpos m') * 2 ^ e')%Q /\
    (inject_Z (Zpos m') * 2 ^ e' * (1 - ulp)
     <= inject_Z (Zpos mx) * 2 ^ ex + inject_Z (Zpos my) * 2 ^ ey)%Q.
Proof.
  intros Bx By Hcap.
  destruct (bounded_facts mx ex Bx) as (Hex & _ & _ & _).
  destruct (bounded_facts my ey By) as (Hey & _ & _ & _).
  unfold fadd, SFadd. set (ez := Z.min ex ey). simpl cond_Zopp.
  pose proof (shl_align_value mx ex ez ltac:(lia)) as Hx.
  pose proof (shl_align_value my ey ez ltac:(lia)) as Hy.
  set (a := fst (shl_align mx ex ez)) in *. set (b := fst (shl_align my ey ez)) in *.
  change (Zpos a + Zpos b) with (Zpos (a + b)). simpl binary_normalize.
  assert (Hv : (inject_Z (Zpos (a + b)) * 2 ^ ez
                == inject_Z (Zpos mx) * 2 ^ ex + inject_Z (Zpos my) * 2 ^ ey)%Q).
  { rewrite Pos2Z.inj_add, inject_Z_plus, Hx, Hy.
    rewrite Qmult_plus_distr_l.
    rewrite (scaled_value (Zpos mx) ez ex) by lia.
    rewrite (scaled_value (Zpos my) ez ey) by lia. reflexivity. }
  destruct (binary_round_Q (a + b) ez) as (m' & e' & H & B & H1 & H2).
  - lia.
  - rewrite <- Hv in Hcap. apply mag_upper in Hcap; [unfold emax; lia | lia].
  - exists m', e'. split; [assumption|]. split; [assumption|].
    rewrite <- Hv. split; assumption.
Qed.

Lemma approx_of_zero (k : nat) (q : Q) :
  approx k (S754_zero false) q -> (0 < slack k)%Q -> (q == 0)%Q.
Proof. intros (_ & Hq & H1 & _) Hs. simpl in H1. nra. Qed.

(** One addition. *)
Lemma fadd_approx (k : nat) (x y : float) (a b : Q) :
  approx k x a -> approx k y b -> (1 # 2 <= slack (S k))%Q -> (a + b <= 2 ^ 1000)%Q ->
  approx (S k) (fadd x y) (a + b).
Proof.
  intros Hx Hy Hs Hcap.
  assert (Hsk : (1 # 2 <= slack k)%Q) by (pose proof (slack_le k (S k) ltac:(lia)); lra).
  destruct (approx_twice k x a Hx Hsk) as [Hxa _].
  destruct (approx_twice k y b Hy Hsk) as [Hyb _].
  pose proof Hx as (Fx & Ha & Hx1 & Hx2). pose proof Hy as (Fy & Hb & Hy1 & Hy2).
  destruct Fx as [->|(mx & ex & -> & Bx)].
  - assert (Ea : (a == 0)%Q) by (apply (approx_of_zero k); [assumption | lra]).
    apply (approx_Qeq _ _ b); [rewrite Ea; ring|].
    replace (fadd (S754_zero false) y) with y
      by (destruct Fy as [->|(my & ey & -> & _)]; reflexivity).
    apply (approx_weaken k); [assumption | lia].
  - destruct Fy as [->|(my & ey & -> & By)].
    + assert (Eb : (b == 0)%Q) by (apply (approx_of_zero k); [assumption | lra]).
      apply (approx_Qeq _ _ a); [rewrite Eb; ring|].
      apply (approx_weaken k); [assumption | lia].
    + simpl F2Q in *.
      set (vx := (inject_Z (Zpos mx) * 2 ^ ex)%Q) in *.
      set (vy := (inject_Z (Zpos my) * 2 ^ ey)%Q) in *.
      destruct (fadd_Q mx my ex ey Bx By) as (m' & e' & H & B & H1 & H2).
      { fold vx vy. change (2 ^ 1001)%Q with (2 * 2 ^ 1000)%Q. lra. }
      fold vx vy in H1, H2. rewrite H.
      pose proof (slack_succ k) as Hsucc. pose proof (slack_le_1 k) as Hle1.
      pose proof ulp_pos as Hu.
      split; [right; exists m', e'; split; [reflexivity | assumption]|].
      split; [lra|]. simpl F2Q. set (v := (inject_Z (Zpos m') * 2 ^ e')%Q) in *.
      pose proof (value_pos mx ex) as Hvx. pose proof (value_pos my ey) as Hvy.
      pose proof (value_pos m' e') as Hv. fold vx in Hvx. fold vy in Hvy. fold v in Hv.
      rewrite Hsucc. split; nra.
Qed.

(** The conversion of an int. *)
Lemma float_of_int_approx (n : Z) :
  0 <= n -> (inject_Z n <= 2 ^ 1000)%Q -> approx 1 (float_of_int n) (inject_Z n).
Proof.
  intros Hn Hcap. destruct n as [|p|p]; try lia.
  - apply approx_zero.
  - unfold float_of_int. simpl binary_normalize.
    destruct (binary_round_Q p 0) as (m' & e' & H & B & H1 & H2).
    + unfold emin, prec, emax. lia.
    + assert (Hc : (inject_Z (Zpos p) * 2 ^ 0 <= 2 ^ 1000)%Q) by (simpl; lra).
      apply mag_upper in Hc; [unfold emax; lia | lia].
    + rewrite H. change (2 ^ 0)%Q with 1%Q in H1, H2. rewrite Qmult_1_r in H1, H2.
      split; [right; exists m', e'; split; [reflexivity | assumption]|].
      split; [unfold Qle; simpl; lia|].
      unfold slack. simpl F2Q. change (inject_Z (Z.of_nat 1)) with 1%Q.
      rewrite Qmult_1_l. split; assumption.
Qed.

(** The quotient of two positive floats whose magnitudes are not too far
    from each other. *)
Lemma fdiv_Q (mx my : positive) (ex ey : Z) :
  bounded prec emax mx ex = true -> bounded prec emax my ey = true ->
  -1000 <= Zdigits2 (Zpos mx) + ex - (Zdigits2 (Zpos my) + ey) <= 1000 ->
  exists (m' : positive) (e' : Z),
    fdiv (S754_finite false mx ex) (S754_finite false my ey) = S754_finite false m' e' /\
    bounded prec emax m' e' = true /\
    (inject_Z (Zpos mx) * 2 ^ ex / (inject_Z (Zpos my) * 2 ^ ey) * (1 - ulp)
     <= inject_Z (Zpos m') * 2 ^ e')%Q /\
    (inject_Z (Zpos m') * 2 ^ e' * (1 - ulp)
     <= inject_Z (Zpos mx) * 2 ^ ex / (inject_Z (Zpos my) * 2 ^ ey))%Q.
Proof.
  intros Bx By Hmag.
  destruct (bounded_facts mx ex Bx) as (Hex & Hdx & _ & _).
  destruct (bounded_facts my ey By) as (Hey & Hdy & _ & _).
  unfold fdiv, SFdiv, SFdiv_core_binary.
  set (d1 := Zdigits2 (Zpos mx)) in *. set (d2 := Zdigits2 (Zpos my)) in *.
  assert (Hd1 : 0 < d1) by (apply Zdigits2_pos; lia).
  assert (Hd2 : 0 < d2) by (apply Zdigits2_pos; lia).
  set (E := Z.min (fexp prec emax (d1 + ex - (d2 + ey))) (ex - ey)).
  assert (HE : E = d1 + ex - (d2 + ey) - 53).
  { unfold E, fexp, emin, prec, emax in *. lia. }
  set (s := ex - ey - E).
  assert (Hs : s = 53 + d2 - d1) by (unfold s; lia).
  assert (Hspos : 0 < s) by (unfold prec in *; lia).
  set (m0 := match s with Zpos _ => Z.shiftl (Zpos mx) s | Z0 => Zpos mx | Zneg _ => 0 end).
  assert (Hm0 : m0 = Zpos mx * 2 ^ s).
  { unfold m0. destruct s as [|p|p]; try lia. apply Z.shiftl_mul_pow2. lia. }
  pose proof (Zdigits2_bounds (Zpos mx) eq_refl) as [Lx Ux].
  pose proof (Zdigits2_bounds (Zpos my) eq_refl) as [Ly Uy].
  fold d1 in Lx, Ux. fold d2 in Ly, Uy.
  assert (Hps : 0 < 2 ^ s) by (apply Z.pow_pos_nonneg; lia).
  assert (Hlow : 2 ^ 52 * Zpos my <= m0).
  { rewrite Hm0. assert (H : 2 ^ (52 + d2) = 2 ^ (d1 - 1) * 2 ^ s).
    { rewrite <- Z.pow_add_r by lia. f_equal. lia. }
    rewrite Z.pow_add_r in H by lia. nia. }
  assert (Hhigh : m0 < 2 ^ 54 * Zpos my).
  { rewrite Hm0. assert (H : 2 ^ (54 + (d2 - 1)) = 2 ^ d1 * 2 ^ s).
    { rewrite <- Z.pow_add_r by lia. f_equal. lia. }
    rewrite Z.pow_add_r in H by lia.
    assert (0 < 2 ^ (d2 - 1)) by (apply Z.pow_pos_nonneg; lia). nia. }
  pose proof (Z.div_mod m0 (Zpos my) ltac:(lia)) as Hdm.
  pose proof (Z.mod_pos_bound m0 (Zpos my) ltac:(lia)) as Hmod.
  unfold Z.div, Z.modulo in Hdm, Hmod.
  destruct (Z.div_eucl m0 (Zpos my)) as [q r].
  assert (Hq : 2 ^ 52 <= q < 2 ^ 54) by nia.
  assert (Hdq : 53 <= Zdigits2 q <= 54).
  { pose proof (Zdigits2_bounds q ltac:(lia)) as [Lq Uq].
    split.
    - destruct (Z_lt_le_dec (Zdigits2 q) 53) as [C|C]; [|assumption].
      assert (2 ^ Zdigits2 q <= 2 ^ 52) by (apply Z.pow_le_mono_r; lia). lia.
    - destruct (Z_lt_le_dec 54 (Zdigits2 q)) as [C|C]; [|assumption].
      assert (2 ^ 54 <= 2 ^ (Zdigits2 q - 1)) by (apply Z.pow_le_mono_r; lia). lia. }
  destruct (round_aux_Q q E (new_location (Zpos my) r))
    as (m' & e' & H & B & _ & H2 & H3).
  - lia.
  - unfold emin, prec, emax in *. lia.
  - unfold fexp, emin, prec, emax in *. lia.
  - right. unfold prec. lia.
  - unfold emax. lia.
  - specialize (H3 ltac:(unfold prec; lia)).
    exists m', e'. split; [assumption|]. split; [assumption|].
    set (vx := (inject_Z (Zpos mx) * 2 ^ ex)%Q) in *.
    set (vy := (inject_Z (Zpos my) * 2 ^ ey)%Q) in *.
    set (v := (inject_Z (Zpos m') * 2 ^ e')%Q) in *.
    pose proof (value_pos my ey) as Hvy. fold vy in Hvy.
    pose proof (value_pos mx ex) as Hvx. fold vx in Hvx.
    assert (Hex2 : (2 ^ ex == 2 ^ s * 2 ^ E * 2 ^ ey)%Q).
    { rewrite <- !pow2_add. replace (s + E + ey) with ex by (unfold s; lia). reflexivity. }
    assert (Hlo : (inject_Z q * 2 ^ E * vy <= vx)%Q).
    { unfold vx, vy. rewrite Hex2.
      assert (Hz : q * Zpos my <= Zpos mx * 2 ^ s) by nia.
      rewrite Zle_Qle, !inject_Z_mult, inject_pow2 in Hz by lia.
      pose proof (pow2_pos E). pose proof (pow2_pos ey).
      assert (Hp : (0 <= 2 ^ E * 2 ^ ey)%Q) by nra.
      pose proof (Qmult_le_compat_r _ _ _ Hz Hp). nra. }
    assert (Hhi : (vx <= inject_Z (q + 1) * 2 ^ E * vy)%Q).
    { unfold vx, vy. rewrite Hex2.
      assert (Hz : Zpos mx * 2 ^ s <= (q + 1) * Zpos my) by nia.
      rewrite Zle_Qle, !inject_Z_mult, inject_pow2 in Hz by lia.
      pose proof (pow2_pos E). pose proof (pow2_pos ey).
      assert (Hp : (0 <= 2 ^ E * 2 ^ ey)%Q) by nra.
      pose proof (Qmult_le_compat_r _ _ _ Hz Hp). nra. }
    apply Qle_shift_div_l in Hlo; [|assumption].
    apply Qle_shift_div_r in Hhi; [|assumption].
    pose proof ulp_pos. unfold ulp in *. split; nra.
Qed.

Lemma quotient_bounds (a b vx vy si sj : Q) :
  (0 <= a)%Q -> (0 < b)%Q -> (0 <= vx)%Q -> (0 < vy)%Q -> (0 <= si)%Q -> (0 <= sj)%Q ->
  (a * si <= vx)%Q -> (vx * si <= a)%Q -> (b * sj <= vy)%Q -> (vy * sj <= b)%Q ->
  (a / b * (si * sj) <= vx / vy)%Q /\ (vx / vy * (si * sj) <= a / b)%Q.
Proof.
  intros Ha Hb Hvx Hvy Hsi Hsj H1 H2 H3 H4.
  assert (Eq : (a / b * b == a)%Q) by (field; lra).
  assert (EX : (vx / vy * vy == vx)%Q) by (field; lra).
  assert (Hq : (0 <= a / b)%Q) by (apply Qle_shift_div_l; lra).
  assert (HX : (0 <= vx / vy)%Q) by (apply Qle_shift_div_l; lra).
  set (q := (a / b)%Q) in *. set (X := (vx / vy)%Q) in *.
  split.
  - apply Qle_shift_div_l; [assumption|].
    assert (0 <= q * si)%Q by (apply Qmult_le_0_compat; assumption).
    assert (0 <= (q * si) * (b - vy * sj))%Q by (apply Qmult_le_0_compat; lra).
    nra.
  - apply Qle_shift_div_l; [assumption|].
    assert (0 <= X * si)%Q by (apply Qmult_le_0_compat; assumption).
    assert (0 <= (X * si) * (vy - b * sj))%Q by (apply Qmult_le_0_compat; lra).
    nra.
Qed.

Lemma slack_product (i j : nat) :
  (0 <= slack i)%Q -> (0 <= slack j)%Q ->
  (slack (S (i + j)) <= slack i * slack j * (1 - ulp))%Q.
Proof.
  intros Hi Hj. pose proof (slack_le_1 i). pose proof (slack_le_1 j).
  rewrite slack_succ. unfold slack in *. rewrite Nat2Z.inj_add, inject_Z_plus.
  pose proof (Nat2Z.is_nonneg i) as Zi. pose proof (Nat2Z.is_nonneg j) as Zj.
  rewrite Zle_Qle in Zi, Zj. change (inject_Z 0) with 0%Q in Zi, Zj.
  set (I := inject_Z (Z.of_nat i)) in *. set (J := inject_Z (Z.of_nat j)) in *.
  pose proof ulp_pos as Hu.
  assert (0 <= I * ulp)%Q by (apply Qmult_le_0_compat; lra).
  assert (0 <= J * ulp)%Q by (apply Qmult_le_0_compat; lra).
  assert (0 <= (I * ulp) * (J * ulp))%Q by (apply Qmult_le_0_compat; lra).
  assert (0 <= ((I + J) * ulp) * ulp)%Q by (apply Qmult_le_0_compat; lra).
  assert (0 <= ((I * ulp) * (J * ulp)) * (1 - ulp))%Q
    by (apply Qmult_le_0_compat; [assumption | unfold ulp; lra]).
  nra.
Qed.

(** One division. *)
Lemma fdiv_approx (i j : nat) (x y : float) (a b : Q) :
  approx i x a -> approx j y b -> (1 # 2 <= slack (S (i + j)))%Q ->
  (a == 0 \/ 2 ^ (-400) <= a)%Q -> (a <= 2 ^ 400)%Q ->
  (2 ^ (-400) <= b)%Q -> (b <= 2 ^ 400)%Q ->
  approx (S (i + j)) (fdiv x y) (a / b).
Proof.
  intros Hx Hy Hs Ha0 Ha1 Hb0 Hb1.
  assert (Hsi : (1 # 2 <= slack i)%Q) by (pose proof (slack_le i (S (i + j)) ltac:(lia)); lra).
  assert (Hsj : (1 # 2 <= slack j)%Q) by (pose proof (slack_le j (S (i + j)) ltac:(lia)); lra).
  destruct (approx_twice i x a Hx Hsi) as [Hxa Hax].
  destruct (approx_twice j y b Hy Hsj) as [Hyb Hby].
  pose proof Hx as (Fx & Ha & Hx1 & Hx2). pose proof Hy as (Fy & Hb & Hy1 & Hy2).
  pose proof (pow2_pos (-400)) as Hp400.
  assert (Hbpos : (0 < b)%Q) by lra.
  destruct Fy as [->|(my & ey & -> & By)]; [simpl in Hby; lra|].
  destruct Fx as [->|(mx & ex & -> & Bx)].
  - assert (Ea : (a == 0)%Q) by (apply (approx_of_zero i); [assumption | lra]).
    apply (approx_Qeq _ _ 0); [rewrite Ea; field; lra|]. apply approx_zero.
  - simpl F2Q in *.
    pose proof (value_pos mx ex) as Hvx. pose proof (value_pos my ey) as Hvy.
    set (vx := (inject_Z (Zpos mx) * 2 ^ ex)%Q) in *.
    set (vy := (inject_Z (Zpos my) * 2 ^ ey)%Q) in *.
    assert (Hapos : (2 ^ (-400) <= a)%Q).
    { destruct Ha0 as [E|H]; [|assumption]. rewrite E in Hax. lra. }
    assert (P1 : (2 ^ 401 == 2 * 2 ^ 400)%Q) by (rewrite (pow2_add 1 400); reflexivity).
    assert (P2 : (2 ^ (-400) == 2 * 2 ^ (-401))%Q) by (rewrite (pow2_add 1 (-401)); reflexivity).
    assert (Mx1 : Zdigits2 (Zpos mx) + ex <= 402) by (apply (mag_upper _ _ 401); [lia | fold vx; lra]).
    assert (Mx0 : -401 < Zdigits2 (Zpos mx) + ex) by (apply mag_lower; [lia | fold vx; lra]).
    assert (My1 : Zdigits2 (Zpos my) + ey <= 402) by (apply (mag_upper _ _ 401); [lia | fold vy; lra]).
    assert (My0 : -401 < Zdigits2 (Zpos my) + ey) by (apply mag_lower; [lia | fold vy; lra]).
    destruct (fdiv_Q mx my ex ey Bx By ltac:(lia)) as (m' & e' & H & B & H1 & H2).
    fold vx vy in H1, H2. rewrite H.
    split; [right; exists m', e'; split; [reflexivity | assumption]|].
    split; [apply Qle_shift_div_l; lra|]. simpl F2Q.
    pose proof (value_pos m' e') as Hv.
    set (v := (inject_Z (Zpos m') * 2 ^ e')%Q) in *.
    destruct (quotient_bounds a b vx vy (slack i) (slack j)) as [Q1 Q2]; try lra.
    pose proof (slack_product i j ltac:(lra) ltac:(lra)) as Hprod.
    assert (Hq : (0 <= a / b)%Q) by (apply Qle_shift_div_l; lra).
    assert (HX : (0 <= vx / vy)%Q) by (apply Qle_shift_div_l; lra).
    set (q := (a / b)%Q) in *. set (X := (vx / vy)%Q) in *.
    set (t := (slack i * slack j)%Q) in *.
    pose proof ulp_pos as Hu.
    assert (Hu1 : (0 <= 1 - ulp)%Q) by (unfold ulp; lra).
    split.
    + assert (0 <= q * (t * (1 - ulp) - slack (S (i + j))))%Q by (apply Qmult_le_0_compat; lra).
      assert (0 <= (X - q * t) * (1 - ulp))%Q by (apply Qmult_le_0_compat; lra).
      nra.
    + assert (0 <= v * (t * (1 - ulp) - slack (S (i + j))))%Q by (apply Qmult_le_0_compat; lra).
      assert (0 <= (X - v * (1 - ulp)) * t)%Q
        by (apply Qmult_le_0_compat; [lra | unfold t; apply Qmult_le_0_compat; lra]).
      nra.
Qed.

(** The two-sided bound as a relative error. *)
Lemma approx_relative (k : nat) (x : float) (q : Q) :
  approx k x q -> (1 # 2 <= slack k)%Q ->
  (Qabs (F2Q x - q) <= q * (inject_Z (2 * Z.of_nat k) * ulp))%Q.
Proof.
  intros Hx Hs. destruct (approx_twice k x q Hx Hs) as [Hv _].
  destruct Hx as (Fx & Hq & H1 & H2). pose proof (F2Q_nonneg x Fx) as Hv0.
  unfold slack in *. rewrite inject_Z_mult. change (inject_Z 2) with 2%Q.
  pose proof (Nat2Z.is_nonneg k) as Zk. rewrite Zle_Qle in Zk.
  change (inject_Z 0) with 0%Q in Zk.
  set (K := inject_Z (Z.of_nat k)) in *. set (v := F2Q x) in *.
  pose proof ulp_pos as Hu.
  assert (HKu : (0 <= K * ulp)%Q) by (apply Qmult_le_0_compat; lra).
  assert (0 <= q * (K * ulp))%Q by (apply Qmult_le_0_compat; lra).
  assert (0 <= (2 * q - v) * (K * ulp))%Q by (apply Qmult_le_0_compat; lra).
  apply Qabs_Qle_condition. split; nra.
Qed.

End Binary64Q.

(* ===================================================================== *)
(** * The mean numpy computes against the exact mean *)
(* ===================================================================== *)

Module ExactMean.

Import Py.
Import Binary64Q.
Import NumpySum.

Lemma Forall2_perm_l {A B : Type} (R : A -> B -> Prop) (l l' : list A) :
  Permutation l l' ->
  forall k : list B, Forall2 R l' k -> exists k', Permutation k' k /\ Forall2 R l k'.
Proof.
  induction 1 as [|x l l' _ IH|x y l|l l'' l' _ IH1 _ IH2]; intros k Hk.
  - inversion Hk; subst. exists []. split; constructor.
  - inversion Hk as [|? b ? k1 Hxb Hrest]; subst.
    destruct (IH k1 Hrest) as (k' & Hp & Hf).
    exists (b :: k'). split; [constructor; assumption | constructor; assumption].
  - inversion Hk as [|? b ? k1 Hxb Hrest]; subst.
    inversion Hrest as [|? c ? k2 Hyc Hrest']; subst.
    exists (c :: b :: k2). split; [apply perm_swap | repeat constructor; assumption].
  - destruct (IH2 k Hk) as (k'' & Hp'' & Hf'').
    destruct (IH1 k'' Hf'') as (k' & Hp' & Hf').
    exists k'. split; [transitivity k''; assumption | assumption].
Qed.

Lemma Qsum_app (a b : list Q) : (Qsum (a ++ b) == Qsum a + Qsum b)%Q.
Proof. induction a as [|x a IH]; simpl; [ring | rewrite IH; ring]. Qed.

Lemma Qsum_perm (l l' : list Q) : Permutation l l' -> (Qsum l == Qsum l')%Q.
Proof.
  induction 1 as [|x l l' _ IH|x y l|l l'' l' _ IH1 _ IH2]; simpl.
  - reflexivity.
  - rewrite IH. reflexivity.
  - ring.
  - rewrite IH1. exact IH2.
Qed.

Lemma Qsum_nonneg (l : list Q) : Forall (fun q => 0 <= q)%Q l -> (0 <= Qsum l)%Q.
Proof. induction 1 as [|x l Hx _ IH]; simpl; lra. Qed.

Lemma approx_exact_nonneg (h : nat) (c : list float) (qs : list Q) :
  Forall2 (approx h) c qs -> Forall (fun q => 0 <= q)%Q qs.
Proof.
  induction 1 as [|x q c qs (_ & Hq & _) _ IH]; constructor; assumption.
Qed.

(** The sum of floats against the sum of the exact numbers they stand for,
    whatever the order of the additions. *)
Lemma summation_approx (h k : nat) (c : list float) (r : float) :
  summation k c r ->
  forall qs : list Q,
    Forall2 (approx h) c qs -> (1 # 2 <= slack (h + k))%Q -> (Qsum qs <= 2 ^ 1000)%Q ->
    approx (h + k) r (Qsum qs).
Proof.
  induction 1 as [k|k x|k i j a b c x y Ha IHa Hb IHb Hp Hi Hj]; intros qs Hqs Hs Hcap.
  - inversion Hqs; subst. apply approx_zero.
  - inversion Hqs as [|? q ? ? Hq Hnil]; subst. inversion Hnil; subst.
    apply (approx_Qeq _ _ q); [simpl; ring|].
    apply (approx_weaken h); [assumption | lia].
  - destruct (Forall2_perm_l (approx h) (a ++ b) c Hp qs Hqs) as (qs' & Hperm & Hf).
    apply Forall2_app_inv_l in Hf as (qa & qb & Hfa & Hfb & ->).
    pose proof (Qsum_perm _ _ Hperm) as Esum. rewrite Qsum_app in Esum.
    pose proof (Qsum_nonneg qa (approx_exact_nonneg h a qa Hfa)) as Na.
    pose proof (Qsum_nonneg qb (approx_exact_nonneg h b qb Hfb)) as Nb.
    destruct k as [|k]; [lia|].
    assert (Hsk : (1 # 2 <= slack (h + k))%Q).
    { pose proof (slack_le (h + k) (h + S k) ltac:(lia)). lra. }
    apply (approx_Qeq _ _ (Qsum qa + Qsum qb)); [assumption|].
    replace (h + S k)%nat with (S (h + k)) in * by lia.
    apply fadd_approx; [| |assumption|lra].
    + apply (approx_weaken (h + i)); [|lia]. apply IHa; [assumption| |lra].
      pose proof (slack_le (h + i) (h + k) ltac:(lia)). lra.
    + apply (approx_weaken (h + j)); [|lia]. apply IHb; [assumption| |lra].
      pose proof (slack_le (h + j) (h + k) ltac:(lia)). lra.
Qed.

Lemma slack_half (k : nat) : Z.of_nat k <= 2 ^ 51 -> (1 # 2 <= slack k)%Q.
Proof.
  intros H. rewrite Zle_Qle in H. unfold slack, ulp.
  change (inject_Z (2 ^ 51)) with (2251799813685248 # 1)%Q in H. lra.
Qed.

Lemma pow2_le (a b : Z) : a <= b -> (2 ^ a <= 2 ^ b)%Q.
Proof. intros H. apply Qpower_le_compat_l; [assumption | discriminate]. Qed.

Lemma pow2_inject (n k : Z) : 0 <= k -> n <= 2 ^ k -> (inject_Z n <= 2 ^ k)%Q.
Proof. intros Hk H. rewrite Zle_Qle in H. rewrite inject_pow2 in H by lia. assumption. Qed.

Lemma one_pow2 : (1 == 2 ^ 0)%Q.
Proof. reflexivity. Qed.

(** The mean numpy computes against the exact mean. *)
Lemma mean_approx (h : nat) (a : Np.ndarray) (qs : list Q) :
  Np.as_float64 a <> [] -> Forall2 (approx h) (Np.as_float64 a) qs ->
  Z.of_nat (h + length (Np.as_float64 a) + 3) <= 2 ^ 51 ->
  (Qsum qs == 0 \/ 2 ^ (-400) <= Qsum qs)%Q -> (Qsum qs <= 2 ^ 400)%Q ->
  approx (h + length (Np.as_float64 a) + 3) (Np.mean a) (Qmean qs).
Proof.
  unfold Np.mean, Qmean. pose proof (sum_summation a) as Hsum.
  generalize dependent (Np.sum a). generalize dependent (Np.as_float64 a).
  intros c total Hsum Hne Hqs Hk Hlo Hhi.
  assert (Hlen : Py.len qs = Py.len c).
  { unfold Py.len. f_equal. symmetry. apply (Forall2_length _ _ _ Hqs). }
  rewrite Hlen.
  assert (Hn : 1 <= Py.len c).
  { unfold Py.len. destruct c; [congruence | simpl length; lia]. }
  replace (h + length c + 3)%nat with (S ((h + S (length c)) + 1)) in * by lia.
  pose proof (slack_half _ Hk) as Hs.
  apply fdiv_approx.
  - apply (summation_approx h (S (length c)) c).
    + exact Hsum.
    + assumption.
    + pose proof (slack_le (h + S (length c)) (S (h + S (length c) + 1)) ltac:(lia)). lra.
    + pose proof (pow2_le 400 1000 ltac:(lia)). lra.
  - apply float_of_int_approx; [lia|]. apply pow2_inject; [lia|].
    unfold Py.len in *. assert (2 ^ 51 <= 2 ^ 1000) by (apply Z.pow_le_mono_r; lia). lia.
  - assumption.
  - assumption.
  - assumption.
  - pose proof (pow2_le (-400) 0 ltac:(lia)) as H. rewrite <- one_pow2 in H.
    rewrite Zle_Qle in Hn. change (inject_Z 1) with 1%Q in Hn. lra.
  - apply pow2_inject; [lia|]. unfold Py.len in *.
    assert (2 ^ 51 <= 2 ^ 400) by (apply Z.pow_le_mono_r; lia). lia.
Qed.

Lemma Qsum_inject (s : list Z) : (Qsum (map inject_Z s) == inject_Z (int_sum s))%Q.
Proof.
  induction s as [|n s IH]; simpl; [reflexivity|]. rewrite IH, inject_Z_plus. reflexivity.
Qed.

Lemma int_sum_bounds (s : list Z) :
  Forall (fun n => 0 <= n < 2 ^ 48) s -> 0 <= int_sum s <= Py.len s * 2 ^ 48.
Proof.
  unfold Py.len. induction 1 as [|n s Hn _ IH]; simpl int_sum; simpl length; nia.
Qed.

Lemma Qsum_low (lo : Q) (l : list Q) :
  (0 < lo)%Q -> Forall (fun q => 0 <= q /\ (q == 0 \/ lo <= q))%Q l ->
  (Qsum l == 0 \/ lo <= Qsum l)%Q.
Proof.
  intros Hlo. induction 1 as [|q l [Hq Hd] Hl IH]; simpl; [left; reflexivity|].
  assert (Hn : (0 <= Qsum l)%Q).
  { apply Qsum_nonneg. eapply List.Forall_impl; [|exact Hl]. intros ? [? _]. assumption. }
  destruct Hd as [E|H]; [|right; lra].
  destruct IH as [E'|H']; [left; rewrite E, E'; reflexivity | right; lra].
Qed.

Lemma Qsum_high (hi : Q) (l : list Q) :
  Forall (fun q => q <= hi)%Q l -> (Qsum l <= inject_Z (Py.len l) * hi)%Q.
Proof.
  unfold Py.len. induction 1 as [|q l Hq _ IH]; [simpl; rewrite Qmult_0_l; lra|].
  simpl Qsum. simpl length. rewrite Nat2Z.inj_succ. unfold Z.succ.
  rewrite inject_Z_plus. change (inject_Z 1) with 1%Q. lra.
Qed.

(** The exact mean of the sizes of one sentence. *)
Lemma sentence_exact (s : list Z) :
  s <> [] -> Py.len s < 2 ^ 48 -> Forall (fun n => 0 <= n < 2 ^ 48) s ->
  (0 <= Qmean (map inject_Z s) /\
   (Qmean (map inject_Z s) == 0 \/ 2 ^ (-48) <= Qmean (map inject_Z s)) /\
   Qmean (map inject_Z s) <= 2 ^ 96)%Q.
Proof.
  intros Hne Hlen Hs. unfold Qmean. rewrite Qsum_inject.
  pose proof (int_sum_bounds s Hs) as [S0 S1].
  assert (Hk : 1 <= Py.len s) by (unfold Py.len; destruct s; [congruence | simpl length; lia]).
  assert (Hlm : Py.len (map inject_Z s) = Py.len s) by (unfold Py.len; rewrite length_map; reflexivity).
  rewrite Hlm.
  assert (Hkq : (1 <= inject_Z (Py.len s))%Q) by (rewrite Zle_Qle in Hk; exact Hk).
  assert (Hkq' : (inject_Z (Py.len s) <= 2 ^ 48)%Q) by (apply pow2_inject; lia).
  assert (HS0 : (0 <= inject_Z (int_sum s))%Q) by (rewrite Zle_Qle in S0; exact S0).
  assert (HS1 : (inject_Z (int_sum s) <= 2 ^ 96)%Q).
  { apply pow2_inject; [lia|]. change (2 ^ 96) with (2 ^ 48 * 2 ^ 48). nia. }
  pose proof (pow2_pos (-48)) as P. pose proof (pow2_pos 96) as P'.
  assert (E : (2 ^ (-48) * 2 ^ 48 == 1)%Q) by (rewrite <- pow2_add; reflexivity).
  split; [apply Qle_shift_div_l; lra|]. split.
  - destruct (Z.eq_dec (int_sum s) 0) as [Z0|NZ].
    + left. rewrite Z0. unfold Qdiv. change (inject_Z 0) with 0%Q. ring.
    + right. assert (H1 : 1 <= int_sum s) by lia. rewrite Zle_Qle in H1.
      change (inject_Z 1) with 1%Q in H1. apply Qle_shift_div_l; [lra|]. nra.
  - apply Qle_shift_div_r; [lra|]. nra.
Qed.

(** The mean of the sizes of one sentence, as numpy computes it. *)
Lemma sentence_mean_approx (s : list Z) :
  s <> [] -> Py.len s < 2 ^ 48 -> Forall (fun n => 0 <= n < 2 ^ 48) s ->
  approx (length s + 4) (Np.mean (Np.asarray s)) (Qmean (map inject_Z s)).
Proof.
  intros Hne Hlen Hs. unfold Np.asarray.
  apply (approx_weaken (1 + length (Np.as_float64 (Np.int64 s)) + 3));
    [|simpl Np.as_float64; rewrite length_map; lia].
  pose proof (int_sum_bounds s Hs) as [S0 S1].
  apply mean_approx; simpl Np.as_float64.
  - destruct s; [congruence | discriminate].
  - clear Hne Hlen S0 S1. induction Hs as [|n s Hn _ IH]; simpl; constructor; [|exact IH].
    apply float_of_int_approx; [lia|]. apply pow2_inject; [lia|].
    assert (2 ^ 48 <= 2 ^ 1000) by (apply Z.pow_le_mono_r; lia). lia.
  - rewrite length_map. unfold Py.len in Hlen. lia.
  - rewrite Qsum_inject. destruct (Z.eq_dec (int_sum s) 0) as [Z0|NZ].
    + left. rewrite Z0. reflexivity.
    + right. assert (H1 : 1 <= int_sum s) by lia. rewrite Zle_Qle in H1.
      change (inject_Z 1) with 1%Q in H1.
      pose proof (pow2_le (-400) 0 ltac:(lia)) as H. rewrite <- one_pow2 in H. lra.
  - rewrite Qsum_inject. apply pow2_inject; [lia|].
    assert (2 ^ 48 * 2 ^ 48 <= 2 ^ 400) by (rewrite <- Z.pow_add_r by lia; apply Z.pow_le_mono_r; lia).
    nia.
Qed.

Lemma length_le_list_max (all_sizes : list (list Z)) (s : list Z) :
  In s all_sizes -> (length s <= list_max (map (@length Z) all_sizes))%nat.
Proof.
  intros Hin.
  pose proof (proj1 (list_max_le (map (@length Z) all_sizes) _) (Nat.le_refl _)) as H.
  rewrite List.Forall_forall in H. apply H. apply in_map. assumption.
Qed.

Lemma sentences_approx (h : nat) (l : list (list Z)) :
  Forall (fun s => s <> [] /\ Py.len s < 2 ^ 48 /\ Forall (fun n => 0 <= n < 2 ^ 48) s /\
                   (length s + 4 <= h)%nat) l ->
  Forall2 (approx h) (map (fun s => Np.mean (Np.asarray s)) l)
                     (map (fun s => Qmean (map inject_Z s)) l).
Proof.
  induction 1 as [|s l (Hne & Hl & Hs & Hh) _ IH]; simpl; constructor; [|exact IH].
  apply (approx_weaken (length s + 4)); [|assumption].
  apply sentence_mean_approx; assumption.
Qed.

(** The mean of the means, as numpy computes it, against the exact one. *)
Lemma mean_of_means_approx (all_sizes : list (list Z)) :
  all_sizes <> [] -> Forall (fun s => s <> []) all_sizes ->
  Forall (fun s => Forall (fun n => 0 <= n) s) all_sizes -> within_limits all_sizes ->
  approx (roundings all_sizes)
         (Np.mean (Np.float64 (map (fun s => Np.mean (Np.asarray s)) all_sizes)))
         (exact_mean_of_means all_sizes).
Proof.
  intros Hne Hall Hpos [HN Hlim0]. unfold exact_mean_of_means, roundings.
  assert (Hlim : Forall (fun s => Py.len s < 2 ^ 48 /\ Forall (fun n => 0 <= n < 2 ^ 48) s)
                        all_sizes).
  { apply List.Forall_forall. intros s Hin. rewrite List.Forall_forall in Hpos, Hlim0.
    destruct (Hlim0 s Hin) as [Hl Hs]. split; [assumption|].
    specialize (Hpos s Hin). apply List.Forall_forall. intros n Hn.
    rewrite List.Forall_forall in Hpos, Hs. split; [apply Hpos | apply Hs]; assumption. }
  set (h := (list_max (map (@length Z) all_sizes) + 4)%nat).
  assert (Hmax : Z.of_nat (list_max (map (@length Z) all_sizes)) < 2 ^ 48).
  { assert (H : (list_max (map (@length Z) all_sizes) <= Z.to_nat (2 ^ 48 - 1))%nat).
    { apply list_max_le. apply List.Forall_forall. intros k Hk.
      apply in_map_iff in Hk as (s & <- & Hin).
      rewrite List.Forall_forall in Hlim. destruct (Hlim s Hin) as [Hl _].
      unfold Py.len in Hl. lia. }
    lia. }
  apply (approx_weaken
           (h + length (Np.as_float64
                          (Np.float64 (map (fun s => Np.mean (Np.asarray s)) all_sizes))) + 3));
    [|simpl Np.as_float64; rewrite length_map; unfold h; lia].
  assert (Hex : Forall (fun q => 0 <= q /\ (q == 0 \/ 2 ^ (-48) <= q) /\ q <= 2 ^ 96)%Q
                       (map (fun s => Qmean (map inject_Z s)) all_sizes)).
  { apply List.Forall_forall. intros q Hq. apply in_map_iff in Hq as (s & <- & Hin).
    rewrite List.Forall_forall in Hall, Hlim. destruct (Hlim s Hin) as [Hl Hs].
    apply sentence_exact; [apply Hall; assumption | assumption | assumption]. }
  apply mean_approx; simpl Np.as_float64.
  - destruct all_sizes; [congruence | discriminate].
  - apply sentences_approx. apply List.Forall_forall. intros s Hin.
    rewrite List.Forall_forall in Hall, Hlim. destruct (Hlim s Hin) as [Hl Hs].
    repeat split; try assumption; [apply Hall; assumption|].
    pose proof (length_le_list_max all_sizes s Hin). unfold h. lia.
  - rewrite length_map. unfold h, Py.len in *. lia.
  - destruct (Qsum_low (2 ^ (-48)) _ (pow2_pos (-48))
               ltac:(eapply List.Forall_impl; [|exact Hex]; intros ? (? & ? & ?); split; assumption))
      as [E|H]; [left; assumption | right].
    pose proof (pow2_le (-400) (-48) ltac:(lia)). lra.
  - pose proof (Qsum_high (2 ^ 96) _
                  ltac:(eapply List.Forall_impl; [|exact Hex]; intros ? (? & ? & ?); assumption)) as H.
    assert (Hlen : Py.len (map (fun s => Qmean (map inject_Z s)) all_sizes) = Py.len all_sizes)
      by (unfold Py.len; rewrite length_map; reflexivity).
    rewrite Hlen in H.
    assert (HNq : (inject_Z (Py.len all_sizes) <= 2 ^ 48)%Q) by (apply pow2_inject; lia).
    assert (HN0 : (0 <= inject_Z (Py.len all_sizes))%Q)
      by (unfold Py.len; pose proof (Nat2Z.is_nonneg (length all_sizes)) as G;
          rewrite Zle_Qle in G; exact G).
    pose proof (pow2_pos 96) as P96.
    assert (E : (2 ^ 48 * 2 ^ 96 == 2 ^ 144)%Q) by (rewrite <- pow2_add; reflexivity).
    pose proof (pow2_le 144 400 ltac:(lia)). nra.
Qed.

Lemma roundings_slack (all_sizes : list (list Z)) :
  within_limits all_sizes -> (1 # 2 <= slack (roundings all_sizes))%Q.
Proof.
  intros [HN Hlim]. apply slack_half. unfold roundings.
  assert (H : (list_max (map (@length Z) all_sizes) <= Z.to_nat (2 ^ 48 - 1))%nat).
  { apply list_max_le. apply List.Forall_forall. intros k Hk.
    apply in_map_iff in Hk as (s & <- & Hin).
    rewrite List.Forall_forall in Hlim. destruct (Hlim s Hin) as [Hl _].
    unfold Py.len in Hl. lia. }
  unfold Py.len in HN. lia.
Qed.

(** The mean of the means in the words of the property. *)
Lemma mean_of_means_within (all_sizes : list (list Z)) :
  Forall (fun s => s <> []) all_sizes ->
  Forall (fun s => Forall (fun n => 0 <= n) s) all_sizes -> within_limits all_sizes ->
  match all_sizes with
  | [] => Np.mean (Np.float64 (map (fun s => Np.mean (Np.asarray s)) all_sizes)) = S754_nan
  | _ :: _ =>
      finite_nonneg (Np.mean (Np.float64 (map (fun s => Np.mean (Np.asarray s)) all_sizes))) /\
      (Qabs (F2Q (Np.mean (Np.float64 (map (fun s => Np.mean (Np.asarray s)) all_sizes)))
             - exact_mean_of_means all_sizes)
       <= exact_mean_of_means all_sizes * rounding_error all_sizes)%Q
  end.
Proof.
  intros Hall Hpos Hlim.
  assert (Hcase : all_sizes = [] \/ all_sizes <> [])
    by (destruct all_sizes; [left; reflexivity | right; discriminate]).
  destruct Hcase as [->|Hne]; [reflexivity|].
  pose proof (mean_of_means_approx all_sizes Hne Hall Hpos Hlim) as H.
  assert (Hgoal :
    finite_nonneg (Np.mean (Np.float64 (map (fun s => Np.mean (Np.asarray s)) all_sizes))) /\
    (Qabs (F2Q (Np.mean (Np.float64 (map (fun s => Np.mean (Np.asarray s)) all_sizes)))
           - exact_mean_of_means all_sizes)
     <= exact_mean_of_means all_sizes * rounding_error all_sizes)%Q).
  { split; [apply H|].
    apply approx_relative; [assumption | apply roundings_slack; assumption]. }
  destruct all_sizes; [congruence | exact Hgoal].
Qed.

End ExactMean.

(* ===================================================================== *)
(** * binary64: sums of ints *)
(* ===================================================================== *)

(** The sizes are ints, and ints whose sum is below 2^53 are added without
    rounding, in whatever order. *)

Module Binary64Exact.

Import Py Binary64 Binary64Valid Binary64Error Binary64Q NumpySum ExactMean.

Lemma shr_1_even (m : Z) :
  0 < m -> shr_1 (Build_shr_record (2 * m) false false) = Build_shr_record m false false.
Proof. intros Hm. destruct m as [|p|p]; try lia. reflexivity. Qed.

(** Shifting out zeros loses nothing. *)
Lemma iter_shr_exact (p : positive) :
  forall m : Z, 0 < m ->
    SpecFloat.iter_pos shr_1 p (Build_shr_record (m * 2 ^ Zpos p) false false)
    = Build_shr_record m false false.
Proof.
  induction p as [p IH|p IH|]; intros m Hm.
  - assert (H : 0 < m * 2 ^ Zpos p)
      by (apply Z.mul_pos_pos; [assumption | apply Z.pow_pos_nonneg; lia]).
    assert (H2 : 0 < m * 2 ^ Zpos p * 2 ^ Zpos p)
      by (apply Z.mul_pos_pos; [assumption | apply Z.pow_pos_nonneg; lia]).
    replace (m * 2 ^ Zpos p~1) with (2 * ((m * 2 ^ Zpos p) * 2 ^ Zpos p)).
    + cbn [SpecFloat.iter_pos]. rewrite shr_1_even by assumption.
      rewrite IH by assumption. apply IH. assumption.
    + assert (E : 2 ^ Zpos p~1 = 2 * (2 ^ Zpos p * 2 ^ Zpos p)).
      { rewrite <- Z.pow_add_r, <- Z.pow_succ_r by lia. f_equal. lia. }
      rewrite E. ring.
  - assert (H : 0 < m * 2 ^ Zpos p)
      by (apply Z.mul_pos_pos; [assumption | apply Z.pow_pos_nonneg; lia]).
    replace (m * 2 ^ Zpos p~0) with ((m * 2 ^ Zpos p) * 2 ^ Zpos p).
    + cbn [SpecFloat.iter_pos]. rewrite IH by assumption. apply IH. assumption.
    + assert (E : 2 ^ Zpos p~0 = 2 ^ Zpos p * 2 ^ Zpos p).
      { rewrite <- Z.pow_add_r by lia. f_equal. lia. }
      rewrite E. ring.
  - replace (m * 2 ^ 1) with (2 * m) by lia. apply shr_1_even. assumption.
Qed.

Lemma Zdigits2_mul_pow2 (m j : Z) :
  0 < m -> 0 <= j -> Zdigits2 (m * 2 ^ j) = Zdigits2 m + j.
Proof.
  intros Hm Hj.
  assert (0 < m * 2 ^ j) by (apply Z.mul_pos_pos; [assumption | apply Z.pow_pos_nonneg; lia]).
  rewrite !Zdigits2_log2 by assumption. rewrite Z.log2_mul_pow2 by lia. lia.
Qed.

(** Rounding a canonical mantissa that comes with zeros below it gives the
    mantissa. *)
Lemma round_aux_exact (s : bool) (M : positive) (j e : Z) :
  0 <= j -> fexp prec emax (Zdigits2 (Zpos M) + (e + j)) = e + j -> e + j <= emax - prec ->
  binary_round_aux prec emax s (Zpos M * 2 ^ j) e loc_Exact = S754_finite s M (e + j).
Proof.
  intros Hj Hc He. destruct j as [|p|p]; try lia.
  - rewrite Z.mul_1_r. rewrite Z.add_0_r in *. apply binary_round_aux_canonical; assumption.
  - unfold binary_round_aux, shr_fexp.
    rewrite Zdigits2_mul_pow2 by lia.
    replace (Zdigits2 (Zpos M) + Zpos p + e) with (Zdigits2 (Zpos M) + (e + Zpos p)) by lia.
    rewrite Hc. replace (e + Zpos p - e) with (Zpos p) by lia.
    unfold shr at 1. simpl shr_record_of_loc. rewrite iter_shr_exact by lia.
    simpl loc_of_shr_record. simpl round_nearest_even. simpl shr_m at 1.
    rewrite Hc, Z.sub_diag. simpl.
    rewrite (proj2 (Z.leb_le (e + Zpos p) (emax - prec)) He). reflexivity.
Qed.

(** A mantissa and an exponent that stand for the number that a canonical
    pair stands for are rounded to that pair. *)
Lemma binary_round_exact (s : bool) (m M : positive) (e t : Z) :
  fexp prec emax (Zdigits2 (Zpos M) + t) = t -> t <= emax - prec ->
  (e <= t /\ Zpos m = Zpos M * 2 ^ (t - e)) \/ (t <= e /\ Zpos M = Zpos m * 2 ^ (e - t)) ->
  binary_round prec emax s m e = S754_finite s M t.
Proof.
  intros Hc Ht Hval.
  assert (Hd : Zdigits2 (Zpos m) + e = Zdigits2 (Zpos M) + t).
  { destruct Hval as [[Hle ->]|[Hle ->]]; rewrite Zdigits2_mul_pow2 by lia; lia. }
  unfold binary_round. change (Zpos (digits2_pos m)) with (Zdigits2 (Zpos m)).
  rewrite Hd, Hc. unfold shl_align.
  destruct (t - e) as [|p|p] eqn:E.
  - assert (Hte : t = e) by lia.
    assert (m = M).
    { apply Pos2Z.inj.
      destruct Hval as [[_ H]|[_ H]];
        [replace (t - e) with 0 in H by lia | replace (e - t) with 0 in H by lia]; lia. }
    subst m. rewrite <- Hte. apply binary_round_aux_canonical; assumption.
  - destruct Hval as [[Hle Hm]|[Hle HM]]; [|lia].
    rewrite Hm. pose proof (round_aux_exact s M (Zpos p) e) as R.
    replace (e + Zpos p) with t in R by lia. apply R; [lia | assumption | assumption].
  - destruct Hval as [[Hle Hm]|[Hle HM]]; [lia|].
    assert (Pos.iter xO m p = M).
    { apply Pos2Z.inj. rewrite iter_xO_value, HM. f_equal. f_equal. lia. }
    subst M. apply binary_round_aux_canonical; assumption.
Qed.

(** An int below 2^53 is a float: its mantissa is the int, with zeros
    below it up to 53 bits. *)
Lemma float_of_int_canonical (n : positive) :
  Zpos n < 2 ^ 53 ->
  exists M : positive,
    float_of_int (Zpos n) = S754_finite false M (Zdigits2 (Zpos n) - 53) /\
    Zpos M = Zpos n * 2 ^ (53 - Zdigits2 (Zpos n)) /\
    fexp prec emax (Zdigits2 (Zpos M) + (Zdigits2 (Zpos n) - 53)) = Zdigits2 (Zpos n) - 53 /\
    0 < Zdigits2 (Zpos n) <= 53.
Proof.
  intros Hn.
  assert (Hd : 0 < Zdigits2 (Zpos n) <= 53).
  { split; [apply Zdigits2_pos; lia|].
    pose proof (Zdigits2_bounds (Zpos n) eq_refl) as [Hlo _].
    destruct (Z_le_gt_dec (Zdigits2 (Zpos n)) 53) as [|Hgt]; [assumption|].
    assert (2 ^ 53 <= 2 ^ (Zdigits2 (Zpos n) - 1)) by (apply Z.pow_le_mono_r; lia). lia. }
  set (d := Zdigits2 (Zpos n)) in *.
  assert (Hpos : 0 < Zpos n * 2 ^ (53 - d))
    by (apply Z.mul_pos_pos; [lia | apply Z.pow_pos_nonneg; lia]).
  exists (Z.to_pos (Zpos n * 2 ^ (53 - d))).
  assert (HM : Zpos (Z.to_pos (Zpos n * 2 ^ (53 - d))) = Zpos n * 2 ^ (53 - d))
    by (apply Z2Pos.id; assumption).
  assert (Hc : fexp prec emax (Zdigits2 (Zpos (Z.to_pos (Zpos n * 2 ^ (53 - d)))) + (d - 53))
               = d - 53).
  { rewrite HM, Zdigits2_mul_pow2 by lia. fold d. unfold fexp, emin, prec, emax. lia. }
  split; [|split; [assumption | split; assumption]].
  unfold float_of_int, binary_normalize.
  apply binary_round_exact; [assumption | unfold emax, prec; lia |].
  right. split; [lia|]. rewrite HM. f_equal. f_equal. lia.
Qed.

(** A mantissa and an exponent that stand for an int below 2^53 are
    rounded to the float of the int. *)
Lemma binary_round_int (m n : positive) (e : Z) :
  Zpos n < 2 ^ 53 -> e <= 0 -> Zpos m = Zpos n * 2 ^ (- e) ->
  binary_round prec emax false m e = float_of_int (Zpos n).
Proof.
  intros Hn He Hm.
  destruct (float_of_int_canonical n Hn) as (M & -> & HM & Hc & Hd).
  set (d := Zdigits2 (Zpos n)) in *.
  apply binary_round_exact; [assumption | unfold emax, prec; lia |].
  destruct (Z_le_gt_dec e (d - 53)) as [Hle|Hgt].
  - left. split; [assumption|]. rewrite Hm, HM, <- Z.mul_assoc, <- Z.pow_add_r by lia.
    f_equal. f_equal. lia.
  - right. split; [lia|]. rewrite Hm, HM, <- Z.mul_assoc, <- Z.pow_add_r by lia.
    f_equal. f_equal. lia.
Qed.

Lemma fadd_zero_r (x : spec_float) :
  nonneg_valid x -> fadd x (S754_zero false) = x.
Proof. intros [->|[| |m e B]]; reflexivity. Qed.

(** Ints whose sum is below 2^53 are added without rounding. *)
Lemma fadd_ints (a b : Z) :
  0 <= a -> 0 <= b -> a + b < 2 ^ 53 ->
  fadd (float_of_int a) (float_of_int b) = float_of_int (a + b).
Proof.
  intros Ha Hb Hab.
  destruct a as [|a|a]; try lia.
  { apply fadd_zero_l, float_of_int_nonneg_valid. assumption. }
  destruct b as [|b|b]; try lia.
  { rewrite Z.add_0_r. apply fadd_zero_r, float_of_int_nonneg_valid. lia. }
  destruct (float_of_int_canonical a ltac:(lia)) as (Ma & -> & HMa & Hca & Hda).
  destruct (float_of_int_canonical b ltac:(lia)) as (Mb & -> & HMb & Hcb & Hdb).
  set (ta := Zdigits2 (Zpos a) - 53) in *. set (tb := Zdigits2 (Zpos b) - 53) in *.
  unfold fadd, SFadd. cbn [cond_Zopp].
  set (ez := Z.min ta tb).
  change (Zpos (fst (shl_align Ma ta ez)) + Zpos (fst (shl_align Mb tb ez)))
    with (Zpos (fst (shl_align Ma ta ez) + fst (shl_align Mb tb ez))).
  unfold binary_normalize. change (Zpos a + Zpos b) with (Zpos (a + b)).
  apply binary_round_int; [exact Hab | unfold ez, ta, tb; lia |].
  rewrite Pos2Z.inj_add, !shl_align_value by (unfold ez; lia).
  rewrite HMa, HMb, Pos2Z.inj_add.
  rewrite <- !Z.mul_assoc, <- !Z.pow_add_r by (unfold ez, ta, tb; lia).
  replace (53 - Zdigits2 (Zpos a) + (ta - ez)) with (- ez) by (unfold ta; lia).
  replace (53 - Zdigits2 (Zpos b) + (tb - ez)) with (- ez) by (unfold tb; lia).
  ring.
Qed.

Lemma int_sum_app (a b : list Z) : int_sum (a ++ b) = int_sum a + int_sum b.
Proof. induction a as [|x a IH]; simpl; lia. Qed.

Lemma int_sum_perm (l l' : list Z) : Permutation l l' -> int_sum l = int_sum l'.
Proof. induction 1; simpl; lia. Qed.

Lemma int_sum_nonneg (l : list Z) : Forall (fun n => 0 <= n) l -> 0 <= int_sum l.
Proof. induction 1; simpl; lia. Qed.

(** The sum of the floats of ints whose sum is below 2^53 is the float of
    their sum, whatever the order of the additions. *)
Lemma summation_ints (k : nat) (c : list float) (r : float) :
  summation k c r ->
  forall l : list Z,
    Forall2 (fun x n => x = float_of_int n /\ 0 <= n) c l -> int_sum l < 2 ^ 53 ->
    r = float_of_int (int_sum l).
Proof.
  induction 1 as [k|k x|k i j a b c x y Ha IHa Hb IHb Hp Hi Hj]; intros l Hl Hsum.
  - inversion Hl; subst. reflexivity.
  - inversion Hl as [|? n ? ? [Hx Hn] Hnil]; subst. inversion Hnil; subst.
    simpl int_sum. rewrite Z.add_0_r. reflexivity.
  - destruct (Forall2_perm_l _ (a ++ b) c Hp l Hl) as (l' & Hperm & Hf).
    apply Forall2_app_inv_l in Hf as (la & lb & Hfa & Hfb & ->).
    rewrite <- (int_sum_perm _ _ Hperm), int_sum_app in *.
    assert (Na : 0 <= int_sum la).
    { apply int_sum_nonneg. clear -Hfa. induction Hfa as [|? ? ? ? [_ ?]]; constructor; assumption. }
    assert (Nb : 0 <= int_sum lb).
    { apply int_sum_nonneg. clear -Hfb. induction Hfb as [|? ? ? ? [_ ?]]; constructor; assumption. }
    rewrite (IHa la Hfa) by lia. rewrite (IHb lb Hfb) by lia.
    apply fadd_ints; assumption.
Qed.

Lemma ints_are_floats (l : list Z) :
  Forall (fun n => 0 <= n) l ->
  Forall2 (fun x n => x = float_of_int n /\ 0 <= n) (map float_of_int l) l.
Proof. induction 1; simpl; constructor; [split; [reflexivity | assumption] | assumption]. Qed.

(** numpy adds ints whose sum is below 2^53 without rounding. *)
Lemma sum_of_ints (l : list Z) :
  Forall (fun n => 0 <= n) l -> int_sum l < 2 ^ 53 ->
  Np.sum (Np.int64 l) = float_of_int (int_sum l).
Proof.
  intros Hl Hsum.
  apply (summation_ints _ _ _ (sum_summation (Np.int64 l)));
    [apply ints_are_floats; assumption | assumption].
Qed.

(** So does a sum from left to right. *)
Lemma fold_of_ints (l : list Z) :
  Forall (fun n => 0 <= n) l -> int_sum l < 2 ^ 53 ->
  fold_left fadd (map float_of_int l) (S754_zero false) = float_of_int (int_sum l).
Proof.
  intros Hl Hsum.
  apply (summation_ints _ _ _
           (fold_left_summation (map float_of_int l) 0 [] (S754_zero false)
                                (summation_zero 0)));
    [apply ints_are_floats; assumption | assumption].
Qed.

(** The mean of ints whose sum is below 2^53 is their exact sum over their
    number, rounded once. *)
Lemma mean_of_ints (l : list Z) :
  Forall (fun n => 0 <= n) l -> int_sum l < 2 ^ 53 ->
  Np.mean (Np.asarray l) = int_mean l.
Proof.
  intros Hl Hsum. unfold Np.mean, Np.asarray, int_mean.
  rewrite sum_of_ints by assumption. simpl Np.as_float64.
  unfold Py.len. rewrite length_map. reflexivity.
Qed.

Lemma arithmetic_mean_of_ints (l : list Z) :
  Forall (fun n => 0 <= n) l -> int_sum l < 2 ^ 53 ->
  arithmetic_mean (map float_of_int l) = int_mean l.
Proof.
  intros Hl Hsum. unfold arithmetic_mean, int_mean.
  rewrite fold_of_ints by assumption. unfold Py.len. rewrite length_map. reflexivity.
Qed.

End Binary64Exact.

(* ===================================================================== *)
(** * Facts about the runtime *)
(* ===================================================================== *)

Lemma float_of_int_1000 :
  Py.float_of_int 1000 = S754_finite false 8796093022208000 (-43).
Proof. reflexivity. Qed.

(** [words / 1000] is not zero when there is at least one word. *)
Lemma per_thousand_nonzero (words : Z) :
  0 < words ->
  Py.fis_zero (Py.fdiv (Py.float_of_int words) (Py.float_of_int 1000)) = false.
Proof.
  intros Hw. rewrite float_of_int_1000.
  pose proof (Binary64.fdiv_positive_nonzero (Py.float_of_int words) false
                8796093022208000 (-43) (Binary64.float_of_int_positive words Hw)) as H.
  destruct (Py.fdiv (Py.float_of_int words) (S754_finite false 8796093022208000 (-43)));
    try reflexivity; exfalso; apply H; vm_compute; discriminate.
Qed.

(** The score of a sentence with at least one word. *)
Lemma truediv_ratio (nps words : Z) :
  0 < words ->
  (let* per_thousand := Py.truediv (Py.Int words) (Py.Int 1000) in
   Py.truediv (Py.Int nps) per_thousand) = Py.Ok (Py.Float (ratio nps words)).
Proof.
  intros Hw. unfold Py.truediv at 1. simpl Py.is_zero. simpl Py.bind.
  unfold Py.truediv. simpl Py.is_zero. rewrite per_thousand_nonzero by assumption.
  reflexivity.
Qed.

Lemma fold_add_floats (xs : list Py.float) (a : Py.float) :
  fold_left Py.add (map Py.Float xs) (Py.Float a) = Py.Float (fold_left Py.fadd xs a).
Proof.
  revert a. induction xs as [|x xs IH]; intros a; simpl; [reflexivity|]. apply IH.
Qed.

(** [sum] of a non-empty list of floats: the floats added from 0.0. *)
Lemma sum_floats (x : Py.float) (xs : list Py.float) :
  Py.sum (map Py.Float (x :: xs))
  = Py.Float (fold_left Py.fadd (x :: xs) (S754_zero false)).
Proof. unfold Py.sum. simpl. apply fold_add_floats. Qed.

Lemma fold_add_ints (zs : list Z) (a : Z) :
  fold_left Py.add (map Py.Int zs) (Py.Int a) = Py.Int (a + int_sum zs).
Proof.
  revert a. induction zs as [|z zs IH]; intros a; simpl.
  - f_equal. lia.
  - rewrite IH. f_equal. lia.
Qed.

(** [sum] of a list of ints: their exact sum. *)
Lemma sum_ints (zs : list Z) : Py.sum (map Py.Int zs) = Py.Int (int_sum zs).
Proof. unfold Py.sum. rewrite fold_add_ints. reflexivity. Qed.

(** The mean of a non-empty list of floats, as the metrics compute it. *)
Lemma truediv_mean_floats (x : Py.float) (xs : list Py.float) :
  Py.truediv (Py.sum (map Py.Float (x :: xs))) (Py.Int (Py.len (map Py.Float (x :: xs))))
  = Py.Ok (Py.Float (arithmetic_mean (x :: xs))).
Proof.
  rewrite sum_floats. unfold Py.truediv, Py.len, arithmetic_mean, Py.len.
  rewrite length_map. simpl Py.is_zero.
  destruct (Z.eqb_spec (Z.of_nat (length (x :: xs))) 0) as [E|_]; [simpl in E; lia|].
  reflexivity.
Qed.

(** The mean of a non-empty list of ints, as the metrics compute it. *)
Lemma truediv_mean_ints (z : Z) (zs : list Z) :
  Py.truediv (Py.sum (map Py.Int (z :: zs))) (Py.Int (Py.len (map Py.Int (z :: zs))))
  = Py.Ok (Py.Float (int_mean (z :: zs))).
Proof.
  rewrite sum_ints. unfold Py.truediv, Py.len, int_mean, Py.len.
  rewrite length_map. simpl Py.is_zero.
  destruct (Z.eqb_spec (Z.of_nat (length (z :: zs))) 0) as [E|_]; [simpl in E; lia|].
  reflexivity.
Qed.

Lemma getitem_middle {A : Type} (front : list A) (x : A) (back : list A) :
  Py.getitem (front ++ x :: back) (length front) = Py.Ok x.
Proof.
  unfold Py.getitem. induction front as [|y front IH]; simpl; [reflexivity|]. apply IH.
Qed.

(** [max] and [min] of a list return elements that bound the list. *)
Lemma fold_max_spec (l : list Z) :
  forall x : Z,
    let m := fold_left (fun m y => if m <? y then y else m) l x in
    (m = x \/ In m l) /\ x <= m /\ Forall (fun y => y <= m) l.
Proof.
  induction l as [|y l IH]; intros x; simpl.
  - repeat split; [left; reflexivity | lia | constructor].
  - destruct (IH (if x <? y then y else x)) as ([Hm|Hm] & Hge & Hall).
    + destruct (Z.ltb_spec x y); repeat split; auto; try lia;
        constructor; auto; lia.
    + destruct (Z.ltb_spec x y); repeat split; auto; try lia;
        constructor; auto; lia.
Qed.

Lemma fold_min_spec (l : list Z) :
  forall x : Z,
    let m := fold_left (fun m y => if y <? m then y else m) l x in
    (m = x \/ In m l) /\ m <= x /\ Forall (fun y => m <= y) l.
Proof.
  induction l as [|y l IH]; intros x; simpl.
  - repeat split; [left; reflexivity | lia | constructor].
  - destruct (IH (if y <? x then y else x)) as ([Hm|Hm] & Hge & Hall).
    + destruct (Z.ltb_spec y x); repeat split; auto; try lia;
        constructor; auto; lia.
    + destruct (Z.ltb_spec y x); repeat split; auto; try lia;
        constructor; auto; lia.
Qed.

(* ===================================================================== *)
(** * Counting constituents *)
(* ===================================================================== *)

(** Induction on trees, with the hypothesis on every child. *)
Lemma Tree_induction (P : Tree -> Prop) :
  (forall token, P (Leaf token)) ->
  (forall label children, Forall P children -> P (Node label children)) ->
  forall t, P t.
Proof.
  intros HLeaf HNode. fix IH 1. intros [token|label children].
  - apply HLeaf.
  - apply HNode. induction children as [|c children IHc]; constructor.
    + apply IH.
    + apply IHc.
Qed.

Lemma length_filter_app {A : Type} (f : A -> bool) (l1 l2 : list A) :
  length (List.filter f (l1 ++ l2))
  = (length (List.filter f l1) + length (List.filter f l2))%nat.
Proof. rewrite List.filter_app, length_app. reflexivity. Qed.

(** [find_subtrees] finds as many constituents as the tree has with the
    label. *)
Lemma find_subtrees_count (label : string) (tree : Tree) :
  length (find_subtrees tree label) = count_label label tree.
Proof.
  unfold find_subtrees. induction tree as [token|l children IH] using Tree_induction.
  - reflexivity.
  - simpl subtrees. simpl List.filter. simpl count_label.
    assert (Hc : length (List.filter (label_is label) (flat_map subtrees children))
                 = list_sum (map (count_label label) children)).
    { induction IH as [|c children Hc _ IHc]; simpl; [reflexivity|].
      rewrite length_filter_app, Hc, IHc. reflexivity. }
    destruct (String.eqb l label); simpl; rewrite Hc; reflexivity.
Qed.

Lemma len_find_subtrees_NP (tree : Tree) :
  Py.len (find_subtrees tree "NP") = np_count tree.
Proof. unfold Py.len, np_count. rewrite find_subtrees_count. reflexivity. Qed.

(* ===================================================================== *)
(** * Noun Phrase Incidence *)
(* ===================================================================== *)

Section NounPhraseIncidenceFacts.

Variable rp : ResourcePool.

(** One turn of the loop on a sentence with at least one word. *)
Lemma sent_index_ratio (front back : list (list tagged_word)) (sent : list tagged_word)
    (tree : Tree) :
  0 < word_count rp sent ->
  NounPhraseIncidence.sent_index rp (front ++ sent :: back) (length front) tree
  = Py.Ok (Py.Float (sentence_ratio rp (tree, sent))).
Proof.
  intros Hw. unfold NounPhraseIncidence.sent_index.
  rewrite getitem_middle. simpl Py.bind. rewrite len_find_subtrees_NP.
  apply (truediv_ratio (np_count tree) (word_count rp sent) Hw).
Qed.

(** The loop appends the ratio of every sentence, in order. *)
Lemma loop_ratios (trees : list Tree) :
  forall (front back : list (list tagged_word)) (sent_indices : list Py.num),
    length trees = length back ->
    Forall (fun sent => 0 < word_count rp sent) back ->
    NounPhraseIncidence.loop rp (front ++ back) (length front) trees sent_indices
    = Py.Ok (sent_indices
             ++ map Py.Float (map (sentence_ratio rp) (combine trees back))).
Proof.
  induction trees as [|tree trees IH]; intros front back acc Hlen Hpos.
  - simpl. rewrite app_nil_r. reflexivity.
  - destruct back as [|sent back]; [discriminate|].
    inversion Hpos as [|? ? Hw Hpos']; subst.
    simpl NounPhraseIncidence.loop. rewrite sent_index_ratio by assumption.
    simpl Py.bind.
    replace (front ++ sent :: back) with ((front ++ [sent]) ++ back)
      by (rewrite <- app_assoc; reflexivity).
    replace (S (length front)) with (length (front ++ [sent]))
      by (rewrite length_app; simpl; lia).
    rewrite IH; [| simpl in Hlen; lia | assumption].
    simpl. rewrite <- app_assoc. reflexivity.
Qed.

(** The metric on a text whose sentences all have a word. *)
Lemma value_is_mean_of_ratios (t : text) :
  parse_trees rp t <> [] ->
  aligned t rp ->
  every_sentence_has_a_word t rp ->
  NounPhraseIncidence.value_for_text t rp = Py.Ok (Py.Float (mean_of_ratios t rp)).
Proof.
  unfold aligned, every_sentence_has_a_word, mean_of_ratios,
    NounPhraseIncidence.value_for_text.
  intros Hne Hlen Hpos.
  pose proof (loop_ratios (parse_trees rp t) [] (tagged_sentences rp t) [] Hlen Hpos) as Hl.
  simpl in Hl. rewrite Hl. simpl Py.bind.
  destruct (parse_trees rp t) as [|tree trees]; [congruence|].
  destruct (tagged_sentences rp t) as [|sent sents]; [discriminate|].
  simpl combine. rewrite !map_cons.
  apply (truediv_mean_floats (sentence_ratio rp (tree, sent))
           (map (sentence_ratio rp) (combine trees sents))).
Qed.

(** When all sentences have the same counts, all ratios are the same. *)
Lemma ratios_repeat (nps words : Z) (trees : list Tree) :
  forall sents : list (list tagged_word),
    length trees = length sents ->
    Forall (fun tree => np_count tree = nps) trees ->
    Forall (fun sent => word_count rp sent = words) sents ->
    map (sentence_ratio rp) (combine trees sents)
    = List.repeat (ratio nps words) (length trees).
Proof.
  induction trees as [|tree trees IH]; intros sents Hlen Hn Hw; [reflexivity|].
  destruct sents as [|sent sents]; [discriminate|].
  inversion Hn; inversion Hw; subst. simpl. unfold sentence_ratio at 1. simpl.
  f_equal. apply IH; [simpl in Hlen; lia | assumption | assumption].
Qed.

End NounPhraseIncidenceFacts.

(* ===================================================================== *)
(** * Words Before Main Verb *)
(* ===================================================================== *)

Lemma substring_skip (front s : string) (m : nat) :
  substring (String.length front) m (front ++ s) = substring 0 m s.
Proof. induction front as [|c front IH]; simpl; [reflexivity | apply IH]. Qed.

Lemma substring_all (s : string) (m : nat) :
  (String.length s <= m)%nat -> substring 0 m s = s.
Proof.
  revert m. induction s as [|c s IH]; intros m Hm.
  - destruct m; reflexivity.
  - destruct m as [|m]; simpl in *; [lia|]. f_equal. apply IH. lia.
Qed.

Lemma length_append (s1 s2 : string) :
  String.length (s1 ++ s2) = (String.length s1 + String.length s2)%nat.
Proof. induction s1 as [|c s1 IH]; simpl; [reflexivity | rewrite IH; reflexivity]. Qed.

Lemma substring_split (n : nat) : forall s : string,
  (n <= String.length s)%nat ->
  s = (substring 0 n s ++ substring n (String.length s - n) s)%string.
Proof.
  induction n as [|n IH]; intros s Hn.
  - rewrite Nat.sub_0_r, (substring_all s (String.length s)) by lia.
    destruct s; reflexivity.
  - destruct s as [|c s]; simpl in *; [lia|].
    change (String c s = String c (substring 0 n s ++ substring n (String.length s - n) s)).
    f_equal. apply IH. lia.
Qed.

(** [s[-2:] == suffix], for a suffix of two characters, says that [s] ends
    in it. *)
Lemma last2_ends_in (suffix s : string) :
  String.length suffix = 2%nat ->
  Py.last2 s = suffix <-> ends_in suffix s.
Proof.
  intros Hlen. unfold Py.last2, ends_in. split.
  - intros H. destruct (Nat.le_gt_cases 2 (String.length s)) as [Hs|Hs].
    + exists (substring 0 (String.length s - 2) s).
      pose proof (substring_split (String.length s - 2) s) as Hsp.
      replace (String.length s - (String.length s - 2))%nat with 2%nat in Hsp by lia.
      rewrite H in Hsp. apply Hsp. lia.
    + replace (String.length s - 2)%nat with 0%nat in H by lia.
      rewrite substring_all in H by lia. subst. lia.
  - intros [front ->]. rewrite length_append, Hlen.
    replace (String.length front + 2 - 2)%nat with (String.length front) by lia.
    rewrite substring_skip. apply substring_all. lia.
Qed.

Lemma str_in_suffixes (s : string) :
  Py.str_in (Py.last2 s) ["do"; "ar"; "er"; "ir"] = true <-> nonfinite_form s.
Proof.
  unfold Py.str_in, nonfinite_form. simpl existsb.
  rewrite !orb_true_iff, !String.eqb_eq.
  rewrite !(last2_ends_in _ s) by reflexivity.
  assert (false = true <-> False) by (split; [discriminate | tauto]). tauto.
Qed.

Lemma finite_verb_candidate (tagset : Tagset) (token : tagged_word) :
  WordsBeforeMainVerb.finite_verb tagset token = true <-> main_verb_candidate tagset token.
Proof.
  unfold WordsBeforeMainVerb.finite_verb, main_verb_candidate.
  rewrite andb_true_iff, negb_true_iff, <- not_true_iff_false, str_in_suffixes. tauto.
Qed.

Section WordsBeforeMainVerbFacts.

Variable rp : ResourcePool.

Lemma rel_eqb_ROOT (r : option string) :
  WordsBeforeMainVerb.rel_eqb r (Some "ROOT") = true <-> r = Some "ROOT".
Proof.
  destruct r as [x|]; simpl.
  - rewrite String.eqb_eq. split; congruence.
  - split; discriminate.
Qed.

(** [index] finds the first ROOT node of a graph that has one. *)
Lemma index_from_root (nodes : list DepNode) :
  forall k : nat,
    (exists node, In node nodes /\ rel node = Some "ROOT") ->
    exists (i : nat) (root : DepNode),
      Py.index_from WordsBeforeMainVerb.rel_eqb (Some "ROOT") (map rel nodes) k
      = Py.Ok (k + i)%nat /\
      nth_error nodes i = Some root /\
      rel root = Some "ROOT" /\
      forall (j : nat) (n : DepNode),
        (j < i)%nat -> nth_error nodes j = Some n -> rel n <> Some "ROOT".
Proof.
  induction nodes as [|n nodes IH]; intros k (node & Hin & Hrel).
  - destruct Hin.
  - simpl. destruct (WordsBeforeMainVerb.rel_eqb (rel n) (Some "ROOT")) eqn:E.
    + exists 0%nat, n. rewrite Nat.add_0_r. apply rel_eqb_ROOT in E.
      repeat split; try assumption; try reflexivity. intros j m Hj. lia.
    + assert (Hn : rel n <> Some "ROOT").
      { intros H. apply rel_eqb_ROOT in H. congruence. }
      destruct Hin as [->|Hin]; [contradiction|].
      destruct (IH (S k)) as (i & root & Hi & Hnth & Hroot & Hbefore).
      { exists node. split; assumption. }
      exists (S i), root. rewrite Hi. repeat split; try assumption.
      * f_equal. lia.
      * intros [|j] m Hj Hm; simpl in Hm.
        -- congruence.
        -- apply (Hbefore j m); [lia | assumption].
Qed.

(** The scan stops at the first candidate, and keeps its initial value when
    there is none. *)
Lemma scan_first_candidate (tagset : Tagset) (sent : list tagged_word) (initial : Z) :
  forall k : nat,
    (exists (i : nat) (token : tagged_word),
        nth_error sent i = Some token /\
        main_verb_candidate tagset token /\
        (forall (j : nat) (tok : tagged_word),
            (j < i)%nat -> nth_error sent j = Some tok ->
            ~ main_verb_candidate tagset tok) /\
        WordsBeforeMainVerb.scan tagset k sent initial = Z.of_nat (k + i))
    \/ ((forall tok : tagged_word, In tok sent -> ~ main_verb_candidate tagset tok) /\
        WordsBeforeMainVerb.scan tagset k sent initial = initial).
Proof.
  induction sent as [|token sent IH]; intros k.
  - right. split; [intros tok [] | reflexivity].
  - simpl. destruct (WordsBeforeMainVerb.finite_verb tagset token) eqn:E.
    + left. exists 0%nat, token. apply finite_verb_candidate in E.
      repeat split; try apply E. * intros j tok Hj. lia. * f_equal. lia.
    + assert (Hn : ~ main_verb_candidate tagset token).
      { intros H. apply finite_verb_candidate in H. congruence. }
      destruct (IH (S k)) as [(i & tok & Hnth & Hc & Hbefore & Hscan)|[Hnone Hscan]].
      * left. exists (S i), tok. repeat split; try assumption; try apply Hc.
        -- intros [|j] tok' Hj Hj'; simpl in Hj'.
           ++ congruence.
           ++ apply (Hbefore j tok'); [lia | assumption].
        -- rewrite Hscan. f_equal. lia.
      * right. split; [|assumption]. intros tok [<-|Hin]; [assumption | apply Hnone, Hin].
Qed.

Lemma scan_spec (tagset : Tagset) (sent : list tagged_word) :
  first_candidate_index tagset sent (WordsBeforeMainVerb.scan tagset 0 sent 0).
Proof.
  destruct (scan_first_candidate tagset sent 0 0)
    as [(i & tok & Hnth & Hc & Hbefore & Hscan)|[Hnone Hscan]].
  - left. exists i, tok. repeat split; try assumption; apply Hc.
  - right. split; assumption.
Qed.

(** The score of a sentence whose graph has a ROOT node. *)
Lemma sent_score_spec (tree : DependencyGraph) (sent : list tagged_word) :
  has_root tree ->
  exists score : Z,
    WordsBeforeMainVerb.sent_score rp tree sent = Py.Ok score /\
    main_verb_score rp tree sent score.
Proof.
  intros Hroot. unfold WordsBeforeMainVerb.sent_score, Py.index.
  destruct (index_from_root (nodes_values tree) 0 Hroot)
    as (i & root & Hi & Hnth & Hrel & Hbefore).
  rewrite Hi. simpl Py.bind. unfold Py.getitem. rewrite Hnth. simpl Py.bind.
  unfold main_verb_score.
  destruct (is_verb (dep_parser_tagger_tagset rp) ("", tag root)) eqn:E.
  - eexists. split; [reflexivity|]. exists i, root. rewrite E.
    split; [repeat split; assumption | reflexivity].
  - eexists. split; [reflexivity|]. exists i, root. rewrite E.
    split; [repeat split; assumption | apply scan_spec].
Qed.

Lemma loop_scores (pairs : list (DependencyGraph * list tagged_word)) :
  forall sent_scores : list Py.num,
    Forall (fun p => has_root (fst p)) pairs ->
    exists scores : list Z,
      WordsBeforeMainVerb.loop rp pairs sent_scores
      = Py.Ok (sent_scores ++ map Py.Int scores) /\
      Forall2 (fun p score => main_verb_score rp (fst p) (snd p) score) pairs scores.
Proof.
  induction pairs as [|[tree sent] pairs IH]; intros acc Hroots.
  - exists []. simpl. rewrite app_nil_r. split; [reflexivity | constructor].
  - inversion Hroots as [|? ? Hroot Hroots']; subst.
    destruct (sent_score_spec tree sent Hroot) as (score & Hscore & Hspec).
    destruct (IH (acc ++ [Py.Int score]) Hroots') as (scores & Hloop & Hall).
    exists (score :: scores). simpl WordsBeforeMainVerb.loop.
    rewrite Hscore. simpl Py.bind. rewrite Hloop. split.
    + rewrite <- app_assoc. reflexivity.
    + constructor; assumption.
Qed.

Lemma value_is_mean_of_scores (t : text) :
  Forall has_root (dep_trees rp t) ->
  exists scores : list Z,
    Forall2 (fun p score => main_verb_score rp (fst p) (snd p) score)
            (combine (dep_trees rp t) (tagged_words_in_sents rp t)) scores /\
    WordsBeforeMainVerb.value_for_text t rp
    = Py.Ok (match scores with
             | [] => Py.Int 0
             | _ :: _ => Py.Float (int_mean scores)
             end).
Proof.
  intros Hroots. unfold WordsBeforeMainVerb.value_for_text.
  destruct (loop_scores (combine (dep_trees rp t) (tagged_words_in_sents rp t)) [])
    as (scores & Hloop & Hall).
  { apply List.Forall_forall. intros [tree sent] Hin.
    rewrite List.Forall_forall in Hroots. apply Hroots.
    apply (in_combine_l _ _ _ _ Hin). }
  exists scores. split; [assumption|]. rewrite Hloop. simpl Py.bind.
  destruct scores as [|z zs]; [reflexivity|]. apply (truediv_mean_ints z zs).
Qed.

End WordsBeforeMainVerbFacts.

(* ===================================================================== *)
(** * The order of strings, and the sort *)
(* ===================================================================== *)

Lemma ascii_compare_lt (a b : ascii) :
  Ascii.compare a b = Lt <-> (N_of_ascii a < N_of_ascii b)%N.
Proof. unfold Ascii.compare. apply N.compare_lt_iff. Qed.

Lemma ascii_compare_eq (a b : ascii) : Ascii.compare a b = Eq <-> a = b.
Proof.
  split; [apply Ascii.compare_eq_iff|]. intros ->. unfold Ascii.compare.
  apply N.compare_refl.
Qed.

Lemma string_compare_not_gt_trans (a : string) :
  forall b c : string,
    String.compare a b <> Gt -> String.compare b c <> Gt -> String.compare a c <> Gt.
Proof.
  induction a as [|x a IH]; intros [|y b] [|z c]; simpl; try congruence.
  destruct (Ascii.compare x y) eqn:Exy; destruct (Ascii.compare y z) eqn:Eyz;
    try congruence; intros Hab Hbc.
  - apply ascii_compare_eq in Exy. apply ascii_compare_eq in Eyz. subst.
    rewrite (proj2 (ascii_compare_eq z z) eq_refl). apply (IH b c); assumption.
  - apply ascii_compare_eq in Exy. subst. rewrite Eyz. discriminate.
  - apply ascii_compare_eq in Eyz. subst. rewrite Exy. discriminate.
  - pose proof (proj1 (ascii_compare_lt x y) Exy) as Hxy.
    pose proof (proj1 (ascii_compare_lt y z) Eyz) as Hyz.
    rewrite (proj2 (ascii_compare_lt x z) (N.lt_trans _ _ _ Hxy Hyz)). discriminate.
Qed.

Lemma leb_not_gt (a b : string) : String.leb a b = true <-> String.compare a b <> Gt.
Proof. unfold String.leb. destruct (String.compare a b); split; congruence. Qed.

#[local] Instance str_le_trans : Transitive str_le.
Proof.
  intros a b c. unfold str_le. rewrite !leb_not_gt.
  apply string_compare_not_gt_trans.
Qed.

#[local] Instance str_le_antisym : AntiSymm (=) str_le.
Proof. intros a b Hab Hba. apply String.leb_antisym; assumption. Qed.

Lemma str_lt_le (a b : string) : Py.str_lt a b = true -> str_le a b.
Proof.
  unfold Py.str_lt, String.ltb, str_le, String.leb.
  destruct (String.compare a b); congruence.
Qed.

Lemma str_not_lt_ge (a b : string) : Py.str_lt a b = false -> str_le b a.
Proof.
  unfold Py.str_lt, String.ltb, str_le, String.leb.
  rewrite (String.compare_antisym a b).
  destruct (String.compare b a); simpl; congruence.
Qed.

Section Sort.

Context {A : Type}.
Variable key : A -> string.

Local Abbreviation lt := (fun a b : A => Py.str_lt (key a) (key b)).
Local Abbreviation le := (key_le key).

Lemma insort_permutation (x : A) (l : list A) :
  Permutation (x :: l) (Py.insort lt x l).
Proof.
  induction l as [|y l IH]; simpl; [reflexivity|].
  destruct (lt x y); [reflexivity|].
  rewrite perm_swap. apply perm_skip, IH.
Qed.

Lemma insort_HdRel (x y : A) (l : list A) :
  le y x -> HdRel le y l -> HdRel le y (Py.insort lt x l).
Proof.
  intros Hyx Hhd. destruct l as [|z l]; simpl.
  - constructor. assumption.
  - destruct (lt x z); constructor; [assumption|]. inversion Hhd. assumption.
Qed.

Lemma insort_sorted (x : A) (l : list A) :
  Sorted le l -> Sorted le (Py.insort lt x l).
Proof.
  induction 1 as [|y l Hs IH Hhd]; simpl.
  - repeat constructor.
  - destruct (lt x y) eqn:E.
    + constructor; [constructor; assumption|]. constructor. apply str_lt_le, E.
    + constructor; [assumption|]. apply insort_HdRel; [|assumption].
      apply str_not_lt_ge, E.
Qed.

Lemma fold_insort (l : list A) :
  forall sorted : list A,
    Sorted le sorted ->
    Sorted le (fold_left (fun s x => Py.insort lt x s) l sorted) /\
    Permutation (sorted ++ l) (fold_left (fun s x => Py.insort lt x s) l sorted).
Proof.
  induction l as [|x l IH]; intros sorted Hs; simpl.
  - rewrite app_nil_r. split; [assumption | reflexivity].
  - destruct (IH (Py.insort lt x sorted) (insort_sorted x sorted Hs)) as [H1 H2].
    split; [assumption|]. rewrite <- H2.
    rewrite <- (insort_permutation x sorted). symmetry. apply Permutation_middle.
Qed.

Lemma sort_sorted (l : list A) : Sorted le (Py.sort key Py.str_lt l).
Proof. apply (fold_insort l []). constructor. Qed.

Lemma sort_permutation (l : list A) : Permutation l (Py.sort key Py.str_lt l).
Proof. apply (fold_insort l []). constructor. Qed.

(** The keys of the result do not depend on the order of the input. *)
Lemma sort_keys_unique (l l' : list A) :
  Permutation l l' ->
  Sorted str_le (map key l') ->
  map key (Py.sort key Py.str_lt l) = map key l'.
Proof.
  intros Hperm Hsorted. apply (Sorted_unique str_le).
  - pose proof (sort_sorted l) as Hs.
    induction Hs as [|y s Hs IH Hhd]; simpl; constructor; [assumption|].
    destruct Hhd; constructor. assumption.
  - assumption.
  - apply Permutation_map. rewrite <- (sort_permutation l). assumption.
Qed.

End Sort.

(* ===================================================================== *)
(** * The resource pool *)
(* ===================================================================== *)

Section PoolFacts.

Import resource_pool.

Context {resource : Type}.
Variable tool : text -> kind -> option resource.

Lemma invoked_insert_eq (s : pool resource) (c : gmap (text * kind) resource) (p : text * kind) (n : nat) :
  invoked {| cache := c; invocations := <[p := n]> (invocations s) |} p = n.
Proof. unfold invoked. simpl. rewrite lookup_insert_eq. reflexivity. Qed.

Lemma invoked_insert_ne (s : pool resource) (c : gmap (text * kind) resource) (p q : text * kind)
    (n : nat) :
  p <> q ->
  invoked {| cache := c; invocations := <[p := n]> (invocations s) |} q = invoked s q.
Proof. intros Hne. unfold invoked. simpl. rewrite lookup_insert_ne by assumption. reflexivity. Qed.

Lemma get_or_compute_invariant (t : text) (k : kind) (s : pool resource) :
  pool_invariant tool s -> pool_invariant tool (snd (get_or_compute tool t k s)).
Proof.
  intros Hinv. unfold get_or_compute.
  pose proof (Hinv t k) as Htk.
  destruct (cache s !! (t, k)) as [r|] eqn:Ec; [exact Hinv|].
  destruct (tool t k) as [r|] eqn:Et; simpl snd; intros t' k'.
  - destruct (decide ((t, k) = (t', k'))) as [E|Hne].
    + inversion E; subst. simpl cache. rewrite lookup_insert_eq.
      split; [assumption|]. rewrite invoked_insert_eq. rewrite Htk by eauto. reflexivity.
    + simpl cache. rewrite lookup_insert_ne by assumption.
      rewrite invoked_insert_ne by assumption. apply Hinv.
  - destruct (decide ((t, k) = (t', k'))) as [E|Hne].
    + inversion E; subst. simpl cache. rewrite Ec, Et. intros [? ?]. discriminate.
    + simpl cache. rewrite invoked_insert_ne by assumption. apply Hinv.
Qed.

Lemma reachable_invariant (s : pool resource) : reachable tool s -> pool_invariant tool s.
Proof.
  induction 1 as [|s t k _ IH].
  - intros t k. simpl. rewrite lookup_empty. intros _. reflexivity.
  - apply get_or_compute_invariant, IH.
Qed.

Lemma get_or_compute_cached (s : pool resource) (t : text) (k : kind) (r : resource) :
  cache s !! (t, k) = Some r -> get_or_compute tool t k s = (inr r, s).
Proof. intros H. unfold get_or_compute. rewrite H. reflexivity. Qed.

Lemma get_or_compute_fresh (s : pool resource) (t : text) (k : kind) (r : resource) :
  cache s !! (t, k) = None ->
  tool t k = Some r ->
  get_or_compute tool t k s
  = (inr r, {| cache := <[(t, k) := r]> (cache s);
               invocations := <[(t, k) := S (invoked s (t, k))]> (invocations s) |}).
Proof. intros H Ht. unfold get_or_compute. rewrite H, Ht. reflexivity. Qed.

(** Two requests in a row, when the tool succeeds on the pair. *)
Lemma request_twice (s : pool resource) (t : text) (k : kind) (r : resource) :
  reachable tool s ->
  tool t k = Some r ->
  let first := get_or_compute tool t k s in
  let second := get_or_compute tool t k (snd first) in
  fst first = inr r /\ fst second = inr r /\
  snd second = snd first /\
  invoked (snd second) (t, k) = 1%nat.
Proof.
  intros Hreach Htool. cbv zeta.
  pose proof (reachable_invariant s Hreach t k) as Hs.
  destruct (cache s !! (t, k)) as [r0|] eqn:Ec.
  - destruct Hs as [Hr Hn]. assert (r0 = r) by congruence. subst r0.
    rewrite (get_or_compute_cached s t k r Ec). simpl.
    rewrite (get_or_compute_cached s t k r Ec). simpl. repeat split. assumption.
  - rewrite (get_or_compute_fresh s t k r Ec Htool). simpl snd. simpl fst.
    rewrite (get_or_compute_cached _ t k r) by (simpl; apply lookup_insert_eq).
    simpl. repeat split. rewrite invoked_insert_eq. rewrite Hs by eauto. reflexivity.
Qed.

End PoolFacts.

(* ===================================================================== *)
(** * The metrics on the example texts *)
(* ===================================================================== *)

(** The sentence of the docstrings has 5 noun phrases and 17 words; its
    incidence is the binary64 number [5 / (17 / 1000)], between 294.11 and
    294.12. *)
Example bone_incidence :
  np_count Examples.bone_tree = 5 /\
  word_count Examples.bone_pool Examples.bone_tagged = 17 /\
  NounPhraseIncidence.value_for_text Examples.bone_text Examples.bone_pool
  = Py.Ok (Py.Float (S754_finite false 5174172366004706 (-44))) /\
  29411 * 2 ^ 44 < 100 * 5174172366004706 < 29412 * 2 ^ 44.
Proof. vm_compute. repeat split; reflexivity. Qed.

(** On the same sentence only "Acessório" comes before the main verb. *)
Example bone_words_before_main_verb :
  WordsBeforeMainVerb.value_for_text Examples.bone_text Examples.bone_pool
  = Py.Ok (Py.Float (Py.float_of_int 1)).
Proof. reflexivity. Qed.

(** A root that is not a verb: the first verb that is finite is counted, the
    infinitive before it is not. *)
Example greeting_score :
  WordsBeforeMainVerb.sent_score Examples.greeting_pool Examples.greeting_deps
    Examples.greeting_tagged = Py.Ok 6.
Proof. reflexivity. Qed.

(* ===================================================================== *)
(** * The properties *)
(* ===================================================================== *)

(** C1, as the specification states it, fails: a text whose only sentence
    is made of punctuation has one sentence, and Noun Phrase Incidence
    raises [ZeroDivisionError] on it instead of returning the mean. *)
Lemma C1_punctuation_only_sentence_raises :
  length (parse_trees Examples.dots_pool Examples.dots_text) = 1%nat /\
  aligned Examples.dots_text Examples.dots_pool /\
  NounPhraseIncidence.value_for_text Examples.dots_text Examples.dots_pool
  = Py.Raise Py.ZeroDivisionError /\
  NounPhraseIncidence.value_for_text Examples.dots_text Examples.dots_pool
  <> Py.Ok (Py.Float (mean_of_ratios Examples.dots_text Examples.dots_pool)).
Proof. repeat split; try reflexivity. vm_compute. discriminate. Qed.

(** C1, amended: for every text with at least one sentence in which every
    sentence has at least one token that is not punctuation,
    [NounPhraseIncidence.value_for_text] returns the arithmetic mean (in
    binary64), over the sentences, of [NP_count / (word_count / 1000)], where
    [NP_count] is the number of constituents labelled NP of the parse tree
    and [word_count] the number of tokens of the tagged sentence that are
    not punctuation. *)
Theorem C1_noun_phrase_incidence_is_mean_of_ratios (t : text) (rp : ResourcePool) :
  parse_trees rp t <> [] ->
  aligned t rp ->
  every_sentence_has_a_word t rp ->
  NounPhraseIncidence.value_for_text t rp = Py.Ok (Py.Float (mean_of_ratios t rp)).
Proof. apply value_is_mean_of_ratios. Qed.

Lemma C1_noun_phrase_incidence_witness :
  NounPhraseIncidence.value_for_text Examples.bone_text Examples.bone_pool
  = Py.Ok (Py.Float (mean_of_ratios Examples.bone_text Examples.bone_pool)).
Proof.
  apply (C1_noun_phrase_incidence_is_mean_of_ratios Examples.bone_text Examples.bone_pool).
  - simpl. discriminate.
  - reflexivity.
  - repeat constructor.
Defined.

(** C2: for every sentence whose dependency graph has a ROOT node, the score
    of Words Before Main Verb is the position of the ROOT node minus 1 when
    the tag of that node is a verb tag; otherwise it is the index of the
    first tagged word that is a verb and whose surface form does not end in
    "do", "ar", "er" or "ir", and 0 when there is no such word. The value of
    the metric is the mean of the scores of the sentences (0 when there is
    no sentence). *)
Theorem C2_words_before_main_verb (t : text) (rp : ResourcePool) :
  Forall has_root (dep_trees rp t) ->
  exists scores : list Z,
    Forall2 (fun p score => main_verb_score rp (fst p) (snd p) score)
            (combine (dep_trees rp t) (tagged_words_in_sents rp t)) scores /\
    WordsBeforeMainVerb.value_for_text t rp
    = Py.Ok (match scores with
             | [] => Py.Int 0
             | _ :: _ => Py.Float (int_mean scores)
             end).
Proof. apply value_is_mean_of_scores. Qed.

Lemma C2_words_before_main_verb_witness :
  exists scores : list Z,
    Forall2 (fun p score =>
               main_verb_score Examples.greeting_pool (fst p) (snd p) score)
            [ (Examples.greeting_deps, Examples.greeting_tagged);
              (Examples.bone_deps, Examples.bone_tagged) ] scores /\
    WordsBeforeMainVerb.value_for_text "" Examples.greeting_pool
    = Py.Ok (match scores with
             | [] => Py.Int 0
             | _ :: _ => Py.Float (int_mean scores)
             end).
Proof.
  apply (C2_words_before_main_verb "" Examples.greeting_pool).
  repeat constructor.
  - exists (Examples.node (Some "ROOT") "NOUN"). split; [|reflexivity].
    simpl. right. right. left. reflexivity.
  - exists (Examples.node (Some "ROOT") "VERB"). split; [|reflexivity].
    simpl. right. right. left. reflexivity.
Defined.

(** C3: on a text with no sentence (no parse tree and no dependency graph),
    Noun Phrase Incidence and Words Before Main Verb both return 0 and raise
    nothing. *)
Theorem C3_no_sentence_returns_zero (t : text) (rp : ResourcePool) :
  parse_trees rp t = [] ->
  dep_trees rp t = [] ->
  NounPhraseIncidence.value_for_text t rp = Py.Ok (Py.Int 0) /\
  WordsBeforeMainVerb.value_for_text t rp = Py.Ok (Py.Int 0).
Proof.
  intros Hp Hd.
  unfold NounPhraseIncidence.value_for_text, WordsBeforeMainVerb.value_for_text.
  rewrite Hp, Hd. split; reflexivity.
Qed.

Lemma C3_no_sentence_witness :
  NounPhraseIncidence.value_for_text "" Examples.empty_pool = Py.Ok (Py.Int 0) /\
  WordsBeforeMainVerb.value_for_text "" Examples.empty_pool = Py.Ok (Py.Int 0).
Proof.
  apply (C3_no_sentence_returns_zero "" Examples.empty_pool); reflexivity.
Defined.

(** The comprehension over the sentences and their noun phrases builds the
    flattened list of the sizes. *)
Lemma np_sizes_flattened (t : text) (rp : ResourcePool) :
  np_sizes t rp = flattened_sizes t rp.
Proof. unfold np_sizes, flattened_sizes, sizes. apply flat_map_concat_map. Qed.

Lemma sizes_nonneg (sent : list (list string)) : Forall (fun x => 0 <= x) (sizes sent).
Proof. unfold sizes. induction sent; simpl; constructor; [unfold Py.len; lia | assumption]. Qed.

Lemma flattened_sizes_nonneg (t : text) (rp : ResourcePool) :
  Forall (fun x => 0 <= x) (flattened_sizes t rp).
Proof.
  unfold flattened_sizes. induction (leaves_in_toplevel_nps rp t) as [|sent l IH]; simpl.
  - constructor.
  - apply Forall_app. split; [|exact IH]. unfold sizes.
    induction sent; simpl; constructor; [unfold Py.len; lia | assumption].
Qed.

(** The minimum and the maximum of the sizes: two sizes of the text, which
    every size lies between. *)
Lemma extremes_of_sizes (t : text) (rp : ResourcePool) :
  flattened_sizes t rp <> [] ->
  exists lo hi : Z,
    MinNounPhrase.value_for_text t rp = Py.Ok (Py.Int lo) /\
    MaxNounPhrase.value_for_text t rp = Py.Ok (Py.Int hi) /\
    In lo (flattened_sizes t rp) /\ In hi (flattened_sizes t rp) /\
    Forall (fun size => lo <= size <= hi) (flattened_sizes t rp) /\
    0 <= lo <= hi.
Proof.
  intros Hne. unfold MinNounPhrase.value_for_text, MaxNounPhrase.value_for_text.
  rewrite np_sizes_flattened. pose proof (flattened_sizes_nonneg t rp) as Hnn.
  destruct (flattened_sizes t rp) as [|x l]; [congruence|].
  pose proof (fold_max_spec l x) as (Hmax & Hxmax & Hallmax).
  pose proof (fold_min_spec l x) as (Hmin & Hxmin & Hallmin).
  simpl Py.min. simpl Py.max. simpl Py.bind.
  set (hi := fold_left (fun m y => if m <? y then y else m) l x) in *.
  set (lo := fold_left (fun m y => if y <? m then y else m) l x) in *.
  exists lo, hi. split; [reflexivity|]. split; [reflexivity|].
  assert (Hinlo : In lo (x :: l)) by (destruct Hmin; [left; congruence | right; assumption]).
  assert (Hinhi : In hi (x :: l)) by (destruct Hmax; [left; congruence | right; assumption]).
  repeat split; try assumption.
  - constructor; [lia|]. rewrite List.Forall_forall in *. intros y Hy.
    specialize (Hallmax y Hy). specialize (Hallmin y Hy). simpl in *. lia.
  - rewrite List.Forall_forall in Hnn. apply (Hnn lo Hinlo).
  - lia.
Qed.

(** C4: on a text whose flattened list of top-level noun-phrase sizes is
    empty, [MaxNounPhrase.value_for_text] and [MinNounPhrase.value_for_text]
    raise an error ([ValueError]) and return no number. *)
Theorem C4_max_min_raise_without_noun_phrase (t : text) (rp : ResourcePool) :
  flattened_sizes t rp = [] ->
  MaxNounPhrase.value_for_text t rp = Py.Raise Py.ValueError /\
  MinNounPhrase.value_for_text t rp = Py.Raise Py.ValueError.
Proof.
  intros H. unfold MaxNounPhrase.value_for_text, MinNounPhrase.value_for_text.
  rewrite np_sizes_flattened, H. split; reflexivity.
Qed.

Lemma C4_max_min_raise_witness :
  MaxNounPhrase.value_for_text Examples.dots_text Examples.dots_pool
  = Py.Raise Py.ValueError /\
  MinNounPhrase.value_for_text Examples.dots_text Examples.dots_pool
  = Py.Raise Py.ValueError.
Proof.
  apply (C4_max_min_raise_without_noun_phrase Examples.dots_text Examples.dots_pool).
  reflexivity.
Defined.

(** C5: on a text in which every sentence has at least one top-level noun
    phrase, [MeanNounPhrase.value_for_text] is the mean, over the sentences,
    of the mean of the sizes of the top-level noun phrases of the sentence, a
    mean of means, as closely as binary64 allows: it returns a float that
    is finite and not negative, and that differs from the exact mean of the
    exact means by at most [2 K 2^-52] of it, where [K] is the number of the
    sentences plus the largest number of noun phrases of a sentence plus 7.
    This holds of the sum of numpy, in whatever order it adds, for the sizes
    a machine can hold (fewer than 2^48 sentences, noun phrases in a sentence
    and leaves in a noun phrase). Of a text with no sentence the mean is
    NaN, the mean of an empty array. *)
Theorem C5_mean_noun_phrase_is_mean_of_means (t : text) (rp : ResourcePool) :
  let all_sizes := map sizes (leaves_in_toplevel_nps rp t) in
  Forall (fun sent => sent <> []) (leaves_in_toplevel_nps rp t) ->
  within_limits all_sizes ->
  match all_sizes with
  | [] => MeanNounPhrase.value_for_text t rp = Py.Ok (Py.Float S754_nan)
  | _ :: _ =>
      exists x : Py.float,
        MeanNounPhrase.value_for_text t rp = Py.Ok (Py.Float x) /\
        finite_nonneg x /\
        (Qabs (F2Q x - exact_mean_of_means all_sizes)
         <= exact_mean_of_means all_sizes * rounding_error all_sizes)%Q
  end.
Proof.
  cbv zeta. intros Hne Hlim.
  assert (H1 : Forall (fun s => s <> []) (map sizes (leaves_in_toplevel_nps rp t))).
  { apply List.Forall_forall. intros s Hs. apply in_map_iff in Hs as (sent & <- & Hin).
    rewrite List.Forall_forall in Hne. specialize (Hne sent Hin).
    destruct sent; [congruence | discriminate]. }
  assert (H2 : Forall (fun s => Forall (fun n => 0 <= n) s)
                      (map sizes (leaves_in_toplevel_nps rp t))).
  { apply List.Forall_forall. intros s Hs. apply in_map_iff in Hs as (sent & <- & _).
    apply sizes_nonneg. }
  pose proof (ExactMean.mean_of_means_within _ H1 H2 Hlim) as H.
  rewrite map_map in H. unfold MeanNounPhrase.value_for_text. cbv zeta.
  revert H. destruct (map sizes (leaves_in_toplevel_nps rp t)) as [|s all_sizes]; intros H.
  - rewrite H. reflexivity.
  - eexists. split; [reflexivity | exact H].
Qed.

Lemma C5_mean_noun_phrase_witness :
  (exists x : Py.float,
      MeanNounPhrase.value_for_text "" Examples.uneven_pool = Py.Ok (Py.Float x) /\
      finite_nonneg x /\
      (Qabs (F2Q x - exact_mean_of_means [[1; 1]; [4]]%Z)
       <= exact_mean_of_means [[1; 1]; [4]]%Z * rounding_error [[1; 1]; [4]]%Z)%Q) /\
  (exact_mean_of_means [[1; 1]; [4]]%Z == 5 # 2)%Q /\
  (exact_flattened_mean [[1; 1]; [4]]%Z == 2)%Q.
Proof.
  split; [|split; reflexivity].
  refine (C5_mean_noun_phrase_is_mean_of_means "" Examples.uneven_pool _ _).
  - repeat constructor; discriminate.
  - split; [reflexivity|]. repeat constructor.
Defined.

(** C6: on a text with no sentence, [MeanNounPhrase.value_for_text] returns
    NaN, the mean of an empty array: it does not return 0 and does not
    raise. *)
Theorem C6_mean_noun_phrase_no_sentence_is_nan (t : text) (rp : ResourcePool) :
  leaves_in_toplevel_nps rp t = [] ->
  MeanNounPhrase.value_for_text t rp = Py.Ok (Py.Float S754_nan) /\
  MeanNounPhrase.value_for_text t rp <> Py.Ok (Py.Int 0) /\
  (forall s : bool, MeanNounPhrase.value_for_text t rp <> Py.Ok (Py.Float (S754_zero s))) /\
  Py.raises (MeanNounPhrase.value_for_text t rp) = false.
Proof.
  intros H. unfold MeanNounPhrase.value_for_text. rewrite H.
  repeat split; try discriminate.
Qed.

Lemma C6_mean_noun_phrase_no_sentence_witness :
  MeanNounPhrase.value_for_text "" Examples.empty_pool = Py.Ok (Py.Float S754_nan) /\
  NounPhraseIncidence.value_for_text "" Examples.empty_pool = Py.Ok (Py.Int 0).
Proof.
  split.
  - apply (C6_mean_noun_phrase_no_sentence_is_nan "" Examples.empty_pool). reflexivity.
  - reflexivity.
Defined.



(** C8, as the specification states it, fails. Three sentences with 3 noun
    phrases and 7 words each: the ratio is 428.57142857142856 and the metric
    returns 428.5714285714286, one unit in the last place above it. And one
    sentence without a word: the common ratio does not exist and the metric
    raises. *)
Lemma C8_equal_counts_value_is_not_the_ratio :
  (length (parse_trees Examples.park_pool Examples.park_text) = 3%nat /\
   Forall (fun tree => np_count tree = 3)
          (parse_trees Examples.park_pool Examples.park_text) /\
   Forall (fun sent => word_count Examples.park_pool sent = 7)
          (tagged_sentences Examples.park_pool Examples.park_text) /\
   ratio 3 7 = S754_finite false 7539508304749714 (-44) /\
   NounPhraseIncidence.value_for_text Examples.park_text Examples.park_pool
   = Py.Ok (Py.Float (S754_finite false 7539508304749715 (-44))) /\
   NounPhraseIncidence.value_for_text Examples.park_text Examples.park_pool
   <> Py.Ok (Py.Float (ratio 3 7))) /\
  (length (parse_trees Examples.dots_pool Examples.dots_text) = 1%nat /\
   Forall (fun sent => word_count Examples.dots_pool sent = 0)
          (tagged_sentences Examples.dots_pool Examples.dots_text) /\
   NounPhraseIncidence.value_for_text Examples.dots_text Examples.dots_pool
   = Py.Raise Py.ZeroDivisionError).
Proof.
  split.
  - repeat split; try (repeat constructor); try reflexivity. vm_compute. discriminate.
  - repeat split; try (repeat constructor); reflexivity.
Qed.

(** C8, amended: for every text with N >= 1 sentences that all have the same
    NP count and the same word count, the latter at least 1,
    [NounPhraseIncidence.value_for_text] returns the binary64 mean of N
    copies of the common ratio [NP_count / (word_count / 1000)]: the copies
    added one by one from 0.0 and the sum divided by N, every operation
    rounded. *)
Theorem C8_equal_counts_mean_of_equal_ratios (t : text) (rp : ResourcePool)
    (nps words : Z) :
  parse_trees rp t <> [] ->
  aligned t rp ->
  Forall (fun tree => np_count tree = nps) (parse_trees rp t) ->
  Forall (fun sent => word_count rp sent = words) (tagged_sentences rp t) ->
  0 < words ->
  NounPhraseIncidence.value_for_text t rp
  = Py.Ok (Py.Float (arithmetic_mean
                       (List.repeat (ratio nps words) (length (parse_trees rp t))))).
Proof.
  intros Hne Hal Hn Hw Hpos.
  rewrite value_is_mean_of_ratios; [|assumption|assumption|].
  - unfold mean_of_ratios. rewrite (ratios_repeat rp nps words); auto.
  - unfold every_sentence_has_a_word. apply List.Forall_forall. intros sent Hin.
    rewrite List.Forall_forall in Hw. rewrite (Hw sent Hin). assumption.
Qed.

Lemma C8_equal_counts_witness :
  NounPhraseIncidence.value_for_text Examples.park_text Examples.park_pool
  = Py.Ok (Py.Float (arithmetic_mean [ratio 3 7; ratio 3 7; ratio 3 7])).
Proof.
  apply (C8_equal_counts_mean_of_equal_ratios Examples.park_text Examples.park_pool 3 7).
  - simpl. discriminate.
  - reflexivity.
  - repeat constructor.
  - repeat constructor.
  - reflexivity.
Defined.

(** C9: after the construction of the Constituents category its metrics are
    in ascending order of their display names, compared as plain strings,
    whatever the order in which the metric classes were discovered: the
    result is sorted, it has the discovered metrics, and for the six metrics
    of the module the order of the names is always the same. *)
Theorem C9_constituents_metrics_sorted_by_name (discovered : list base.Metric) :
  let ms := base.metrics (Constituents.__init__ discovered) in
  Sorted name_le ms /\
  Permutation discovered ms /\
  (Permutation discovered Constituents.module_metrics ->
   map base.name ms
   = [ "Maximum Noun Phrase"; "Mean Noun Phrase"; "Minimum Noun Phrase";
       "Noun Phrase Incidence"; "Std Noun Phrase"; "Words before Main Verb" ]).
Proof.
  cbv zeta. unfold Constituents.__init__. simpl base.metrics.
  split; [apply sort_sorted|]. split; [apply sort_permutation|].
  intros Hperm.
  pose proof (sort_keys_unique base.name discovered
                (Py.sort base.name Py.str_lt Constituents.module_metrics)) as H.
  rewrite H.
  - reflexivity.
  - rewrite Hperm. apply sort_permutation.
  - vm_compute. repeat constructor.
Qed.

Lemma C9_constituents_witness :
  map base.name (base.metrics (Constituents.__init__ (rev Constituents.module_metrics)))
  = [ "Maximum Noun Phrase"; "Mean Noun Phrase"; "Minimum Noun Phrase";
      "Noun Phrase Incidence"; "Std Noun Phrase"; "Words before Main Verb" ].
Proof.
  apply (C9_constituents_metrics_sorted_by_name (rev Constituents.module_metrics)).
  symmetry. apply Permutation_rev.
Defined.




(* ===================================================================== *)
(** * Noun Phrase Incidence: exceptions *)
(* ===================================================================== *)

Section NounPhraseIncidenceErrors.

Variable rp : ResourcePool.

Lemma word_count_nonneg (sent : list tagged_word) : 0 <= word_count rp sent.
Proof. unfold word_count, Py.len. lia. Qed.

(** One turn of the loop on a sentence without a word. *)
Lemma sent_index_no_word (front back : list (list tagged_word)) (sent : list tagged_word)
    (tree : Tree) :
  word_count rp sent = 0 ->
  NounPhraseIncidence.sent_index rp (front ++ sent :: back) (length front) tree
  = Py.Raise Py.ZeroDivisionError.
Proof.
  intros Hw. unfold NounPhraseIncidence.sent_index.
  rewrite getitem_middle. simpl Py.bind. unfold word_count in Hw. rewrite Hw.
  reflexivity.
Qed.

Lemma loop_no_word (trees : list Tree) :
  forall (front back : list (list tagged_word)) (sent_indices : list Py.num),
    length trees = length back ->
    Exists (fun sent => word_count rp sent = 0) back ->
    NounPhraseIncidence.loop rp (front ++ back) (length front) trees sent_indices
    = Py.Raise Py.ZeroDivisionError.
Proof.
  induction trees as [|tree trees IH]; intros front back acc Hlen Hex.
  - destruct back; [inversion Hex | discriminate].
  - destruct back as [|sent back]; [discriminate|].
    simpl NounPhraseIncidence.loop.
    destruct (Z.eq_dec (word_count rp sent) 0) as [Hz|Hnz].
    + rewrite sent_index_no_word by assumption. reflexivity.
    + pose proof (word_count_nonneg sent) as Hge.
      rewrite sent_index_ratio by lia. simpl Py.bind.
      replace (front ++ sent :: back) with ((front ++ [sent]) ++ back)
        by (rewrite <- app_assoc; reflexivity).
      replace (S (length front)) with (length (front ++ [sent]))
        by (rewrite length_app; simpl; lia).
      apply IH; [simpl in Hlen; lia|].
      inversion Hex; subst; [contradiction | assumption].
Qed.

Lemma getitem_end {A : Type} (l : list A) : Py.getitem l (length l) = Py.Raise Py.IndexError.
Proof.
  unfold Py.getitem. rewrite (proj2 (nth_error_None l (length l))) by lia. reflexivity.
Qed.

Lemma loop_missing_sentence (trees : list Tree) :
  forall (front back : list (list tagged_word)) (sent_indices : list Py.num),
    (length back < length trees)%nat ->
    Forall (fun sent => 0 < word_count rp sent) back ->
    NounPhraseIncidence.loop rp (front ++ back) (length front) trees sent_indices
    = Py.Raise Py.IndexError.
Proof.
  induction trees as [|tree trees IH]; intros front back acc Hlen Hpos.
  - simpl in Hlen. lia.
  - simpl NounPhraseIncidence.loop. destruct back as [|sent back].
    + rewrite app_nil_r. unfold NounPhraseIncidence.sent_index.
      rewrite getitem_end. reflexivity.
    + inversion Hpos as [|? ? Hw Hpos']; subst.
      rewrite sent_index_ratio by assumption. simpl Py.bind.
      replace (front ++ sent :: back) with ((front ++ [sent]) ++ back)
        by (rewrite <- app_assoc; reflexivity).
      replace (S (length front)) with (length (front ++ [sent]))
        by (rewrite length_app; simpl; lia).
      apply IH; [simpl in Hlen; lia | assumption].
Qed.

End NounPhraseIncidenceErrors.

(** X1: when the text has as many tagged sentences as parse trees and one of
    them has no token that is not punctuation,
    [NounPhraseIncidence.value_for_text] raises ZeroDivisionError, wherever
    that sentence stands and whatever the other sentences are. *)
Theorem X1_incidence_raises_zero_division (t : text) (rp : ResourcePool) :
  aligned t rp ->
  Exists (fun sent => word_count rp sent = 0) (tagged_sentences rp t) ->
  NounPhraseIncidence.value_for_text t rp = Py.Raise Py.ZeroDivisionError.
Proof.
  intros Hal Hex. unfold NounPhraseIncidence.value_for_text.
  pose proof (loop_no_word rp (parse_trees rp t) [] (tagged_sentences rp t) [] Hal Hex)
    as Hloop.
  simpl in Hloop. rewrite Hloop. reflexivity.
Qed.

Lemma X1_incidence_zero_division_witness :
  NounPhraseIncidence.value_for_text Examples.pause_text Examples.pause_pool
  = Py.Raise Py.ZeroDivisionError.
Proof.
  apply (X1_incidence_raises_zero_division Examples.pause_text Examples.pause_pool).
  - reflexivity.
  - apply Exists_cons_tl, Exists_cons_hd. reflexivity.
Defined.

(** X2: when the text has fewer tagged sentences than parse trees, and every
    tagged sentence has a word, [NounPhraseIncidence.value_for_text] raises
    IndexError: it indexes the tagged sentences with the position of each
    parse tree. *)
Theorem X2_incidence_raises_index_error (t : text) (rp : ResourcePool) :
  (length (tagged_sentences rp t) < length (parse_trees rp t))%nat ->
  every_sentence_has_a_word t rp ->
  NounPhraseIncidence.value_for_text t rp = Py.Raise Py.IndexError.
Proof.
  intros Hlen Hpos. unfold NounPhraseIncidence.value_for_text.
  pose proof (loop_missing_sentence rp (parse_trees rp t) [] (tagged_sentences rp t) []
                Hlen Hpos) as Hloop.
  simpl in Hloop. rewrite Hloop. reflexivity.
Qed.

Lemma X2_incidence_index_error_witness :
  NounPhraseIncidence.value_for_text Examples.park_text Examples.short_pool
  = Py.Raise Py.IndexError.
Proof.
  apply (X2_incidence_raises_index_error Examples.park_text Examples.short_pool).
  - simpl. lia.
  - repeat constructor.
Defined.

(** The loop reads the tagged sentences at the indices of the parse trees
    only. *)
Lemma loop_reads_prefix (rp rp' : ResourcePool) (ts ts' : list (list tagged_word))
    (trees : list Tree) :
  pos_tagger_tagset rp = pos_tagger_tagset rp' ->
  forall (i : nat) (sent_indices : list Py.num),
    (forall j : nat, (i <= j < i + length trees)%nat -> nth_error ts j = nth_error ts' j) ->
    NounPhraseIncidence.loop rp ts i trees sent_indices
    = NounPhraseIncidence.loop rp' ts' i trees sent_indices.
Proof.
  intros Htag. induction trees as [|tree trees IH]; intros i acc Hsame; [reflexivity|].
  simpl NounPhraseIncidence.loop.
  assert (Hi : NounPhraseIncidence.sent_index rp ts i tree
               = NounPhraseIncidence.sent_index rp' ts' i tree).
  { unfold NounPhraseIncidence.sent_index, Py.getitem.
    rewrite (Hsame i) by (simpl; lia). rewrite Htag. reflexivity. }
  rewrite Hi. destruct (NounPhraseIncidence.sent_index rp' ts' i tree); [|reflexivity].
  simpl Py.bind. apply IH. intros j Hj. apply Hsame. simpl. lia.
Qed.

(** X3: [NounPhraseIncidence.value_for_text] reads the tagged sentences at
    the positions of the parse trees only: two resource pools with the same
    parse trees and tagset whose tagged sentences agree on that prefix give
    the same result, value or exception; tagged sentences beyond the last
    parse tree are never read. *)
Theorem X3_incidence_ignores_extra_sentences (t : text) (rp rp' : ResourcePool) :
  parse_trees rp t = parse_trees rp' t ->
  pos_tagger_tagset rp = pos_tagger_tagset rp' ->
  firstn (length (parse_trees rp t)) (tagged_sentences rp t)
  = firstn (length (parse_trees rp t)) (tagged_sentences rp' t) ->
  NounPhraseIncidence.value_for_text t rp = NounPhraseIncidence.value_for_text t rp'.
Proof.
  intros Htrees Htag Hfirst. unfold NounPhraseIncidence.value_for_text.
  rewrite <- Htrees.
  rewrite (loop_reads_prefix rp rp' (tagged_sentences rp t) (tagged_sentences rp' t)
             (parse_trees rp t) Htag 0 []); [reflexivity|].
  intros j Hj.
  pose proof (nth_error_firstn (length (parse_trees rp t)) (tagged_sentences rp t) j) as H1.
  pose proof (nth_error_firstn (length (parse_trees rp t)) (tagged_sentences rp' t) j) as H2.
  rewrite (proj2 (Nat.ltb_lt j _)) in H1, H2 by lia. congruence.
Qed.

Lemma X3_incidence_ignores_extra_sentences_witness :
  NounPhraseIncidence.value_for_text Examples.bone_text Examples.bone_pool
  = NounPhraseIncidence.value_for_text Examples.bone_text Examples.long_pool.
Proof.
  apply (X3_incidence_ignores_extra_sentences Examples.bone_text Examples.bone_pool
           Examples.long_pool); reflexivity.
Defined.

Import Binary64Valid.

(* ===================================================================== *)
(** * Noun Phrase Incidence: values *)
(* ===================================================================== *)

Lemma np_count_nonneg (tree : Tree) : 0 <= np_count tree.
Proof. unfold np_count. lia. Qed.

Lemma ratio_nonneg_valid (nps words : Z) :
  0 <= nps -> 0 <= words -> nonneg_valid (ratio nps words).
Proof.
  intros Hn Hw. unfold ratio.
  apply fdiv_nonneg_valid; [apply float_of_int_nonneg_valid; assumption|].
  apply fdiv_nonneg_valid; apply float_of_int_nonneg_valid; lia.
Qed.

(** Without a noun phrase the ratio of a sentence is 0.0. *)
Lemma ratio_no_noun_phrase (words : Z) : 0 < words -> ratio 0 words = S754_zero false.
Proof.
  intros Hw. unfold ratio. pose proof (per_thousand_nonzero words Hw) as Hnz.
  destruct (fdiv_nonneg_valid (Py.float_of_int words) (Py.float_of_int 1000))
    as [Hnan|Hr]; try (apply float_of_int_nonneg_valid; lia).
  - pose proof (Binary64.fdiv_positive_nonzero (Py.float_of_int words) false
                  8796093022208000 (-43) (Binary64.float_of_int_positive words Hw)) as H.
    rewrite float_of_int_1000 in Hnan. rewrite Hnan in H. exfalso. apply H; vm_compute; discriminate.
  - destruct Hr as [| |m e B]; [discriminate Hnz | reflexivity | reflexivity].
Qed.

Lemma fold_fadd_zeros (n : nat) :
  fold_left Py.fadd (List.repeat (S754_zero false) n) (S754_zero false) = S754_zero false.
Proof. induction n as [|n IH]; simpl; [reflexivity | exact IH]. Qed.

Lemma mean_of_zeros (n : nat) :
  (0 < n)%nat -> arithmetic_mean (List.repeat (S754_zero false) n) = S754_zero false.
Proof.
  intros Hn. unfold arithmetic_mean. rewrite fold_fadd_zeros.
  unfold Py.len. rewrite repeat_length.
  destruct (Binary64.float_of_int_positive (Z.of_nat n) ltac:(lia)) as [|m e _ _];
    reflexivity.
Qed.

Lemma ratios_no_noun_phrase (rp : ResourcePool) (trees : list Tree) :
  forall sents : list (list tagged_word),
    length trees = length sents ->
    Forall (fun sent => 0 < word_count rp sent) sents ->
    Forall (fun tree => np_count tree = 0) trees ->
    map (sentence_ratio rp) (combine trees sents)
    = List.repeat (S754_zero false) (length trees).
Proof.
  induction trees as [|tree trees IH]; intros sents Hlen Hw Hn; [reflexivity|].
  destruct sents as [|sent sents]; [discriminate|].
  inversion Hw as [|? ? Hw1 Hw2]; inversion Hn as [|? ? Hn1 Hn2]; subst.
  simpl. f_equal.
  - unfold sentence_ratio. simpl. rewrite Hn1. apply ratio_no_noun_phrase. assumption.
  - apply IH; [simpl in Hlen; lia | assumption | assumption].
Qed.

(** X4: on a text with at least one sentence, as many tagged sentences as
    parse trees and a word in every sentence, whose parse trees have no
    constituent labelled NP, [NounPhraseIncidence.value_for_text] returns the
    float 0.0 (not the int 0 of the text with no sentence), whatever the
    numbers of words are. *)
Theorem X4_incidence_without_noun_phrase_is_zero (t : text) (rp : ResourcePool) :
  parse_trees rp t <> [] ->
  aligned t rp ->
  every_sentence_has_a_word t rp ->
  Forall (fun tree => np_count tree = 0) (parse_trees rp t) ->
  NounPhraseIncidence.value_for_text t rp = Py.Ok (Py.Float (S754_zero false)).
Proof.
  intros Hne Hal Hw Hn. rewrite value_is_mean_of_ratios by assumption.
  unfold mean_of_ratios. do 2 f_equal.
  rewrite (ratios_no_noun_phrase rp _ _ Hal Hw Hn).
  apply mean_of_zeros. destruct (parse_trees rp t); [congruence | simpl; lia].
Qed.

Lemma X4_incidence_without_noun_phrase_witness :
  NounPhraseIncidence.value_for_text Examples.rain_text Examples.rain_pool
  = Py.Ok (Py.Float (S754_zero false)).
Proof.
  apply (X4_incidence_without_noun_phrase_is_zero Examples.rain_text Examples.rain_pool).
  - simpl. discriminate.
  - reflexivity.
  - repeat constructor.
  - repeat constructor.
Defined.

(** X5: on a text of one sentence that has a word,
    [NounPhraseIncidence.value_for_text] is exactly the ratio
    [NP_count / (word_count / 1000)] of that sentence: adding it to 0.0 and
    dividing by 1 changes no bit of it. *)
Theorem X5_incidence_single_sentence_is_its_ratio (t : text) (rp : ResourcePool) (tree : Tree)
    (sent : list tagged_word) :
  parse_trees rp t = [tree] ->
  tagged_sentences rp t = [sent] ->
  0 < word_count rp sent ->
  NounPhraseIncidence.value_for_text t rp
  = Py.Ok (Py.Float (ratio (np_count tree) (word_count rp sent))).
Proof.
  intros Ht Hs Hw.
  rewrite value_is_mean_of_ratios.
  - unfold mean_of_ratios. rewrite Ht, Hs. simpl combine. simpl map.
    unfold sentence_ratio. simpl fst. simpl snd. do 2 f_equal.
    apply arithmetic_mean_one. apply ratio_nonneg_valid; [apply np_count_nonneg | lia].
  - rewrite Ht. discriminate.
  - unfold aligned. rewrite Ht, Hs. reflexivity.
  - unfold every_sentence_has_a_word. rewrite Hs. repeat constructor. assumption.
Qed.

Lemma X5_incidence_single_sentence_witness :
  NounPhraseIncidence.value_for_text Examples.bone_text Examples.bone_pool
  = Py.Ok (Py.Float (ratio 5 17)).
Proof.
  exact (X5_incidence_single_sentence_is_its_ratio Examples.bone_text Examples.bone_pool
           Examples.bone_tree Examples.bone_tagged eq_refl eq_refl eq_refl).
Defined.

(* ===================================================================== *)
(** * Maximum and minimum *)
(* ===================================================================== *)

(** X6: on a text with at least one top-level noun phrase,
    [MinNounPhrase.value_for_text] and [MaxNounPhrase.value_for_text] return
    ints that are sizes of noun phrases of the text, every size lies between
    them, and neither is negative. *)
Theorem X6_max_min_bound_the_sizes (t : text) (rp : ResourcePool) :
  flattened_sizes t rp <> [] ->
  exists lo hi : Z,
    MinNounPhrase.value_for_text t rp = Py.Ok (Py.Int lo) /\
    MaxNounPhrase.value_for_text t rp = Py.Ok (Py.Int hi) /\
    In lo (flattened_sizes t rp) /\ In hi (flattened_sizes t rp) /\
    Forall (fun size => lo <= size <= hi) (flattened_sizes t rp) /\
    0 <= lo <= hi.
Proof. apply extremes_of_sizes. Qed.

Lemma X6_max_min_bound_the_sizes_witness :
  exists lo hi : Z,
    MinNounPhrase.value_for_text "" Examples.sized_pool = Py.Ok (Py.Int lo) /\
    MaxNounPhrase.value_for_text "" Examples.sized_pool = Py.Ok (Py.Int hi) /\
    In lo (flattened_sizes "" Examples.sized_pool) /\
    In hi (flattened_sizes "" Examples.sized_pool) /\
    Forall (fun size => lo <= size <= hi) (flattened_sizes "" Examples.sized_pool) /\
    0 <= lo <= hi.
Proof.
  apply (X6_max_min_bound_the_sizes "" Examples.sized_pool). simpl. discriminate.
Defined.

(* ===================================================================== *)
(** * Mean and standard deviation: NaN *)
(* ===================================================================== *)

Lemma mean_with_nan (l : list Py.float) :
  In S754_nan l -> Np.mean (Np.float64 l) = S754_nan.
Proof.
  intros Hin. unfold Np.mean. rewrite NumpySum.sum_with_nan by assumption. reflexivity.
Qed.

(** X7: as soon as one sentence of the text has no top-level noun phrase,
    [MeanNounPhrase.value_for_text] returns NaN, whatever the noun phrases of
    the other sentences are: the mean of that sentence is NaN and it stays
    in the sum. *)
Theorem X7_mean_is_nan_when_a_sentence_has_no_noun_phrase (t : text) (rp : ResourcePool) :
  In [] (leaves_in_toplevel_nps rp t) ->
  MeanNounPhrase.value_for_text t rp = Py.Ok (Py.Float S754_nan).
Proof.
  intros Hin. unfold MeanNounPhrase.value_for_text. do 2 f_equal.
  apply mean_with_nan.
  apply (in_map (fun sent => Np.mean (Np.asarray (sizes sent)))) in Hin. exact Hin.
Qed.

Lemma X7_mean_is_nan_witness :
  MeanNounPhrase.value_for_text Examples.pause_text Examples.pause_pool
  = Py.Ok (Py.Float S754_nan).
Proof.
  apply (X7_mean_is_nan_when_a_sentence_has_no_noun_phrase Examples.pause_text
           Examples.pause_pool).
  right. left. reflexivity.
Defined.

(** X8: on a text with no top-level noun phrase
    [StdNounPhrase.value_for_text] does not raise, as
    [MaxNounPhrase.value_for_text] does on the same text: it returns NaN. *)
Theorem X8_std_is_nan_without_noun_phrase (t : text) (rp : ResourcePool) :
  flattened_sizes t rp = [] ->
  StdNounPhrase.value_for_text t rp = Py.Ok (Py.Float S754_nan) /\
  MaxNounPhrase.value_for_text t rp = Py.Raise Py.ValueError.
Proof.
  intros H. unfold StdNounPhrase.value_for_text, MaxNounPhrase.value_for_text.
  rewrite np_sizes_flattened, H. split; reflexivity.
Qed.

Lemma X8_std_is_nan_witness :
  StdNounPhrase.value_for_text Examples.dots_text Examples.dots_pool
  = Py.Ok (Py.Float S754_nan) /\
  MaxNounPhrase.value_for_text Examples.dots_text Examples.dots_pool
  = Py.Raise Py.ValueError.
Proof.
  apply (X8_std_is_nan_without_noun_phrase Examples.dots_text Examples.dots_pool).
  reflexivity.
Defined.

Lemma np_sum_nonneg_valid (l : list Z) :
  Forall (fun x => 0 <= x) l ->
  forall a : Py.float, nonneg_valid a ->
    nonneg_valid (fold_left Py.fadd (map Py.float_of_int l) a).
Proof.
  induction 1 as [|x l Hx _ IH]; intros a Ha; simpl; [assumption|].
  apply IH. apply fadd_nonneg_valid; [assumption|].
  apply float_of_int_nonneg_valid. assumption.
Qed.

Lemma sentence_mean_nonneg_valid (sent : list (list string)) :
  nonneg_valid (Np.mean (Np.asarray (sizes sent))).
Proof.
  unfold Np.mean, Np.asarray. apply fdiv_nonneg_valid.
  - apply NumpySum.sum_closed; [right; constructor | apply fadd_nonneg_valid|].
    simpl Np.as_float64. apply List.Forall_forall. intros x Hx. apply in_map_iff in Hx as (n & <- & Hn).
    apply float_of_int_nonneg_valid.
    pose proof (sizes_nonneg sent) as H. rewrite List.Forall_forall in H. apply H, Hn.
  - apply float_of_int_nonneg_valid. unfold Py.len. lia.
Qed.

(** The mean of an array of one element is the element. *)
Lemma mean_one (a : Np.ndarray) (x : Py.float) :
  Np.as_float64 a = [x] -> nonneg_valid x -> Np.mean a = x.
Proof.
  intros Ha Hx. unfold Np.mean. rewrite NumpySum.sum_short by (rewrite Ha; simpl; lia).
  rewrite Ha. change (fold_left Py.fadd [x] (S754_zero false)) with (Py.fadd (S754_zero false) x).
  rewrite !(fadd_zero_l x Hx). change (Py.len [x]) with 1.
  destruct Hx as [->|Hx]; [reflexivity|]. apply (fdiv_one false x Hx).
Qed.

(** The mean of fewer than eight sizes is their mean from left to right. *)
Lemma mean_short (l : list Z) :
  Forall (fun x => 0 <= x) l -> (length l < 8)%nat ->
  Np.mean (Np.asarray l) = arithmetic_mean (map Py.float_of_int l).
Proof.
  intros Hl Hlen. unfold Np.mean, arithmetic_mean, Np.asarray.
  rewrite NumpySum.sum_short by (simpl; rewrite length_map; assumption).
  simpl Np.as_float64. rewrite fadd_zero_l; [reflexivity|].
  apply np_sum_nonneg_valid; [assumption | right; constructor].
Qed.

(** Eight sizes that numpy does not add from left to right: 2^53 and seven
    times 1. From left to right every 1 is lost in the rounding; the eight
    accumulators add the ones to each other first. *)
Lemma mean_of_eight_is_not_left_to_right :
  Np.mean (Np.asarray [2 ^ 53; 1; 1; 1; 1; 1; 1; 1])
  <> arithmetic_mean (map Py.float_of_int [2 ^ 53; 1; 1; 1; 1; 1; 1; 1]).
Proof. vm_compute. discriminate. Qed.

(** X9: on a text of one sentence [MeanNounPhrase.value_for_text] is exactly
    the mean that numpy computes of the sizes of the top-level noun phrases
    of that sentence: the outer mean over the one sentence changes no bit of
    it (and it is NaN when the sentence has no noun phrase). When the
    sentence has fewer than eight noun phrases, or its noun phrases have
    fewer than 2^53 leaves in all, this is the mean of the sizes added from
    left to right: numpy adds eight elements or more in an order of its
    own, and the order matters only when an addition is rounded. *)
Theorem X9_mean_single_sentence_is_its_mean (t : text) (rp : ResourcePool) (sent : list (list string)) :
  leaves_in_toplevel_nps rp t = [sent] ->
  MeanNounPhrase.value_for_text t rp
  = Py.Ok (Py.Float (Np.mean (Np.asarray (sizes sent)))) /\
  (Py.len sent < 8 \/ int_sum (sizes sent) < 2 ^ 53 ->
   MeanNounPhrase.value_for_text t rp
   = Py.Ok (Py.Float (arithmetic_mean (map Py.float_of_int (sizes sent))))).
Proof.
  intros H.
  assert (Hv : MeanNounPhrase.value_for_text t rp
               = Py.Ok (Py.Float (Np.mean (Np.asarray (sizes sent))))).
  { unfold MeanNounPhrase.value_for_text. rewrite H. simpl map. do 2 f_equal.
    apply mean_one; [reflexivity | apply sentence_mean_nonneg_valid]. }
  split; [exact Hv|]. intros Hsmall. rewrite Hv. do 2 f_equal.
  destruct Hsmall as [Hlen|Hsum].
  - apply mean_short; [apply sizes_nonneg|].
    unfold sizes. rewrite length_map. unfold Py.len in Hlen. lia.
  - rewrite Binary64Exact.mean_of_ints, Binary64Exact.arithmetic_mean_of_ints;
      [reflexivity | | | |]; try apply sizes_nonneg; assumption.
Qed.

Lemma X9_mean_single_sentence_witness :
  MeanNounPhrase.value_for_text Examples.bone_text Examples.bone_pool
  = Py.Ok (Py.Float (Np.mean (Np.asarray [1; 2; 10]))) /\
  MeanNounPhrase.value_for_text Examples.bone_text Examples.bone_pool
  = Py.Ok (Py.Float (arithmetic_mean (map Py.float_of_int [1; 2; 10]))).
Proof.
  destruct (X9_mean_single_sentence_is_its_mean Examples.bone_text Examples.bone_pool
              Examples.bone_leaves eq_refl) as [Hmean Hleft].
  split; [exact Hmean | apply Hleft; left; reflexivity].
Defined.

(* ===================================================================== *)
(** * Words Before Main Verb: exceptions and bounds *)
(* ===================================================================== *)

Section WordsBeforeMainVerbErrors.

Variable rp : ResourcePool.

Lemma index_from_no_root (nodes : list DepNode) :
  forall k : nat,
    (forall node, In node nodes -> rel node <> Some "ROOT") ->
    Py.index_from WordsBeforeMainVerb.rel_eqb (Some "ROOT") (map rel nodes) k
    = Py.Raise Py.ValueError.
Proof.
  induction nodes as [|n nodes IH]; intros k Hno; simpl; [reflexivity|].
  destruct (WordsBeforeMainVerb.rel_eqb (rel n) (Some "ROOT")) eqn:E.
  - apply rel_eqb_ROOT in E. exfalso. apply (Hno n); [left; reflexivity | assumption].
  - apply IH. intros node Hin. apply Hno. right. assumption.
Qed.

Lemma sent_score_no_root (tree : DependencyGraph) (sent : list tagged_word) :
  ~ has_root tree ->
  WordsBeforeMainVerb.sent_score rp tree sent = Py.Raise Py.ValueError.
Proof.
  intros Hno. unfold WordsBeforeMainVerb.sent_score, Py.index.
  rewrite index_from_no_root; [reflexivity|].
  intros node Hin Hrel. apply Hno. exists node. split; assumption.
Qed.

Lemma has_root_dec (tree : DependencyGraph) : has_root tree \/ ~ has_root tree.
Proof.
  unfold has_root.
  destruct (existsb (fun n => WordsBeforeMainVerb.rel_eqb (rel n) (Some "ROOT"))
                    (nodes_values tree)) eqn:E.
  - left. apply existsb_exists in E as (n & Hin & Hn). exists n.
    split; [assumption | apply rel_eqb_ROOT, Hn].
  - right. intros (n & Hin & Hn).
    assert (H : existsb (fun n => WordsBeforeMainVerb.rel_eqb (rel n) (Some "ROOT"))
                        (nodes_values tree) = true).
    { apply existsb_exists. exists n. split; [assumption | apply rel_eqb_ROOT, Hn]. }
    congruence.
Qed.

Lemma roots_everywhere_or_missing (pairs : list (DependencyGraph * list tagged_word)) :
  Forall (fun p => has_root (fst p)) pairs \/ Exists (fun p => ~ has_root (fst p)) pairs.
Proof.
  induction pairs as [|p pairs IH]; [left; constructor|].
  destruct (has_root_dec (fst p)) as [Hroot|Hno].
  - destruct IH as [Hall|Hex].
    + left. constructor; assumption.
    + right. apply Exists_cons_tl. assumption.
  - right. apply Exists_cons_hd. assumption.
Qed.

Lemma loop_no_root (pairs : list (DependencyGraph * list tagged_word)) :
  forall sent_scores : list Py.num,
    Exists (fun p => ~ has_root (fst p)) pairs ->
    WordsBeforeMainVerb.loop rp pairs sent_scores = Py.Raise Py.ValueError.
Proof.
  induction pairs as [|[tree sent] pairs IH]; intros acc Hex; [inversion Hex|].
  simpl WordsBeforeMainVerb.loop. destruct (has_root_dec tree) as [Hroot|Hno].
  - destruct (sent_score_spec rp tree sent Hroot) as (score & Hscore & _).
    rewrite Hscore. simpl Py.bind. apply IH.
    inversion Hex as [? ? Hhead|? ? Htail]; subst; [contradiction | assumption].
  - rewrite sent_score_no_root by assumption. reflexivity.
Qed.

Lemma value_of_scores (t : text) (scores : list Z) :
  WordsBeforeMainVerb.loop rp (combine (dep_trees rp t) (tagged_words_in_sents rp t)) []
  = Py.Ok ([] ++ map Py.Int scores) ->
  WordsBeforeMainVerb.value_for_text t rp
  = Py.Ok (match scores with
           | [] => Py.Int 0
           | _ :: _ => Py.Float (int_mean scores)
           end).
Proof.
  intros Hloop. unfold WordsBeforeMainVerb.value_for_text. rewrite Hloop. simpl Py.bind.
  destruct scores as [|z zs]; [reflexivity|]. apply (truediv_mean_ints z zs).
Qed.

End WordsBeforeMainVerbErrors.

Lemma value_raises_without_root (t : text) (rp : ResourcePool) :
  Exists (fun p => ~ has_root (fst p))
         (combine (dep_trees rp t) (tagged_words_in_sents rp t)) ->
  WordsBeforeMainVerb.value_for_text t rp = Py.Raise Py.ValueError.
Proof.
  intros Hex. unfold WordsBeforeMainVerb.value_for_text.
  rewrite (loop_no_root rp _ [] Hex). reflexivity.
Qed.

Lemma value_returns_with_roots (t : text) (rp : ResourcePool) :
  Forall (fun p => has_root (fst p))
         (combine (dep_trees rp t) (tagged_words_in_sents rp t)) ->
  Py.raises (WordsBeforeMainVerb.value_for_text t rp) = false.
Proof.
  intros Hall. destruct (loop_scores rp _ [] Hall) as (scores & Hloop & _).
  rewrite (value_of_scores rp t scores Hloop). destruct scores; reflexivity.
Qed.

(** X10: when, among the dependency graphs that are paired with a tagged
    sentence, one has no node whose relation is ROOT,
    [WordsBeforeMainVerb.value_for_text] raises ValueError, whatever the
    other sentences are. *)
Theorem X10_words_before_main_verb_raises_without_root (t : text) (rp : ResourcePool) :
  Exists (fun p => ~ has_root (fst p))
         (combine (dep_trees rp t) (tagged_words_in_sents rp t)) ->
  WordsBeforeMainVerb.value_for_text t rp = Py.Raise Py.ValueError.
Proof. apply value_raises_without_root. Qed.

Lemma X10_words_before_main_verb_raises_witness :
  WordsBeforeMainVerb.value_for_text Examples.park_text Examples.rootless_pool
  = Py.Raise Py.ValueError.
Proof.
  apply (X10_words_before_main_verb_raises_without_root Examples.park_text
           Examples.rootless_pool).
  apply Exists_cons_hd. intros (n & Hin & Hrel). simpl in Hin.
  destruct Hin as [<-|[<-|[<-|[]]]]; discriminate.
Defined.

(** X11: the only exception [WordsBeforeMainVerb.value_for_text] raises is
    ValueError, and it raises it only when a dependency graph paired with a
    tagged sentence has no ROOT node: it never raises IndexError or
    ZeroDivisionError, also when the numbers of graphs and of tagged
    sentences differ or a sentence is empty. *)
Theorem X11_words_before_main_verb_raises_only_value_error (t : text) (rp : ResourcePool) (e : Py.exn) :
  WordsBeforeMainVerb.value_for_text t rp = Py.Raise e ->
  e = Py.ValueError /\
  Exists (fun p => ~ has_root (fst p))
         (combine (dep_trees rp t) (tagged_words_in_sents rp t)).
Proof.
  intros He.
  destruct (roots_everywhere_or_missing (combine (dep_trees rp t) (tagged_words_in_sents rp t)))
    as [Hall|Hex].
  - apply value_returns_with_roots in Hall. rewrite He in Hall. discriminate.
  - split; [|exact Hex]. apply value_raises_without_root in Hex. congruence.
Qed.

Lemma X11_words_before_main_verb_only_witness :
  Py.ValueError = Py.ValueError /\
  Exists (fun p => ~ has_root (fst p))
         (combine (dep_trees Examples.rootless_pool Examples.park_text)
                  (tagged_words_in_sents Examples.rootless_pool Examples.park_text)).
Proof.
  apply (X11_words_before_main_verb_raises_only_value_error Examples.park_text
           Examples.rootless_pool Py.ValueError).
  reflexivity.
Defined.

(** X12: on a text of one sentence whose dependency graph has a ROOT node,
    [WordsBeforeMainVerb.value_for_text] is the score of that sentence
    converted to a float: the division by 1 changes nothing. *)
Theorem X12_words_before_main_verb_single_sentence (t : text) (rp : ResourcePool)
    (tree : DependencyGraph) (sent : list tagged_word) :
  dep_trees rp t = [tree] ->
  tagged_words_in_sents rp t = [sent] ->
  has_root tree ->
  exists score : Z,
    main_verb_score rp tree sent score /\
    WordsBeforeMainVerb.value_for_text t rp = Py.Ok (Py.Float (Py.float_of_int score)).
Proof.
  intros Ht Hs Hroot.
  destruct (loop_scores rp [(tree, sent)] []) as (scores & Hloop & Hall).
  { repeat constructor. assumption. }
  inversion Hall as [|? score ? scores' Hscore Hnil]; subst. inversion Hnil; subst.
  exists score. split; [exact Hscore|].
  rewrite (value_of_scores rp t [score]) by (rewrite Ht, Hs; exact Hloop).
  do 2 f_equal. unfold int_mean. simpl int_sum. rewrite Z.add_0_r.
  change (Py.len [score]) with 1.
  apply (fdiv_one (score <? 0)). apply float_of_int_rounded.
Qed.

Lemma X12_words_before_main_verb_single_witness :
  exists score : Z,
    main_verb_score Examples.bone_pool Examples.bone_deps Examples.bone_tagged score /\
    WordsBeforeMainVerb.value_for_text Examples.bone_text Examples.bone_pool
    = Py.Ok (Py.Float (Py.float_of_int score)).
Proof.
  apply (X12_words_before_main_verb_single_sentence Examples.bone_text Examples.bone_pool
           Examples.bone_deps Examples.bone_tagged); try reflexivity.
  exists (Examples.node (Some "ROOT") "VERB").
  split; [right; right; left; reflexivity | reflexivity].
Defined.

(** X13: the score of a sentence in Words Before Main Verb is at least -1
    and is less than the larger of the number of nodes of the graph and the
    number of tokens of the sentence; it is negative only when the first node
    of the graph is the ROOT node and its tag is a verb tag (a graph
    without the artificial top node whose root is a verb). *)
Theorem X13_sentence_score_bounds (rp : ResourcePool) (tree : DependencyGraph)
    (sent : list tagged_word) (score : Z) :
  WordsBeforeMainVerb.sent_score rp tree sent = Py.Ok score ->
  -1 <= score < Z.max (Py.len (nodes_values tree)) (Py.len sent) /\
  (score < 0 ->
   exists (root : DepNode) (others : list DepNode),
     nodes_values tree = root :: others /\ rel root = Some "ROOT" /\
     is_verb (dep_parser_tagger_tagset rp) ("", tag root) = true).
Proof.
  intros Hscore.
  destruct (has_root_dec tree) as [Hroot|Hno];
    [|rewrite (sent_score_no_root rp tree sent Hno) in Hscore; discriminate].
  destruct (sent_score_spec rp tree sent Hroot) as (score' & Hscore' & i & root & Hat & Hcase).
  assert (score' = score) by congruence. subst score'.
  destruct Hat as (Hnth & Hrel & _).
  assert (Hi : (i < length (nodes_values tree))%nat).
  { apply nth_error_Some. congruence. }
  unfold Py.len.
  destruct (is_verb (dep_parser_tagger_tagset rp) ("", tag root)) eqn:Everb.
  - split; [lia|]. intros Hneg. assert (i = 0%nat) by lia. subst i.
    destruct (nodes_values tree) as [|n others]; [discriminate|].
    simpl in Hnth. inversion Hnth; subst. exists root, others.
    split; [reflexivity|]. split; assumption.
  - destruct Hcase as [(j & tok & Hj & _ & _ & ->)|[_ ->]].
    + assert (Hlt : (j < length sent)%nat) by (apply nth_error_Some; congruence).
      split; [lia|]. intros Hneg. lia.
    + split; [lia|]. intros Hneg. lia.
Qed.

Lemma X13_sentence_score_bounds_witness :
  -1 <= -1 < Z.max (Py.len (nodes_values Examples.command_deps))
                   (Py.len Examples.command_tagged) /\
  (-1 < 0 ->
   exists (root : DepNode) (others : list DepNode),
     nodes_values Examples.command_deps = root :: others /\ rel root = Some "ROOT" /\
     is_verb (dep_parser_tagger_tagset Examples.bone_pool) ("", tag root) = true).
Proof.
  apply (X13_sentence_score_bounds Examples.bone_pool Examples.command_deps
           Examples.command_tagged (-1)).
  reflexivity.
Defined.

(* ===================================================================== *)
(** * Signs of the results *)
(* ===================================================================== *)

Lemma binary_round_aux_sign (m e : Z) (l : location) :
  not_negative (binary_round_aux Py.prec Py.emax false m e l) = true.
Proof.
  unfold binary_round_aux.
  destruct (shr_fexp Py.prec Py.emax m e l) as [mrs e'].
  destruct (shr_fexp Py.prec Py.emax _ e' loc_Exact) as [mrs' e''].
  destruct (shr_m mrs'); try reflexivity.
  destruct (e'' <=? Py.emax - Py.prec); reflexivity.
Qed.

Lemma binary_round_sign (m : positive) (e : Z) :
  not_negative (binary_round Py.prec Py.emax false m e) = true.
Proof.
  unfold binary_round. destruct (shl_align m e _) as [mz ez].
  apply binary_round_aux_sign.
Qed.

Lemma nonneg_valid_not_negative (x : Py.float) : nonneg_valid x -> not_negative x = true.
Proof. intros [->|[| |m e _]]; reflexivity. Qed.

Lemma fmul_square_not_negative (d : Py.float) : not_negative (Py.fmul d d) = true.
Proof.
  unfold Py.fmul, SFmul. destruct d as [s|s| |s m e]; simpl; try reflexivity.
  - destruct s; reflexivity.
  - destruct s; reflexivity.
  - replace (xorb s s) with false by (destruct s; reflexivity).
    apply binary_round_aux_sign.
Qed.

Lemma fadd_not_negative (x y : Py.float) :
  not_negative x = true -> not_negative y = true -> not_negative (Py.fadd x y) = true.
Proof.
  unfold Py.fadd, SFadd.
  destruct x as [sx|sx| |sx mx ex]; destruct y as [sy|sy| |sy my ey]; simpl;
    try reflexivity; try (destruct sx; try discriminate); try (destruct sy; try discriminate);
    try reflexivity.
  intros _ _. unfold binary_normalize. simpl cond_Zopp.
  destruct (Zpos (fst (shl_align mx ex (Z.min ex ey)))
            + Zpos (fst (shl_align my ey (Z.min ex ey)))) as [|p|p] eqn:E; try lia.
  apply binary_round_sign.
Qed.

Lemma fdiv_not_negative (x y : Py.float) :
  not_negative x = true -> not_negative y = true -> not_negative (Py.fdiv x y) = true.
Proof.
  unfold Py.fdiv, SFdiv.
  destruct x as [sx|sx| |sx mx ex]; destruct y as [sy|sy| |sy my ey]; simpl;
    try reflexivity; try (destruct sx; try discriminate); try (destruct sy; try discriminate);
    try reflexivity.
  intros _ _.
  destruct (SFdiv_core_binary Py.prec Py.emax (Zpos mx) ex (Zpos my) ey) as [[mz ez] lz].
  apply binary_round_aux_sign.
Qed.

Lemma fsqrt_not_negative (x : Py.float) :
  not_negative x = true -> not_negative (Py.fsqrt x) = true.
Proof.
  unfold Py.fsqrt, SFsqrt. destruct x as [s|s| |s m e]; simpl; try reflexivity;
    destruct s; try discriminate; try reflexivity.
  intros _. destruct (SFsqrt_core_binary Py.prec Py.emax (Zpos m) e) as [[mz ez] lz].
  apply binary_round_aux_sign.
Qed.

Lemma len_not_negative {A : Type} (l : list A) :
  not_negative (Py.float_of_int (Py.len l)) = true.
Proof.
  apply nonneg_valid_not_negative, float_of_int_nonneg_valid. unfold Py.len. lia.
Qed.

Lemma mean_not_negative (l : list Py.float) :
  Forall (fun x => not_negative x = true) l -> not_negative (Np.mean (Np.float64 l)) = true.
Proof.
  intros H. unfold Np.mean. apply fdiv_not_negative.
  - apply (NumpySum.sum_closed (fun x => not_negative x = true));
      [reflexivity | apply fadd_not_negative | assumption].
  - apply len_not_negative.
Qed.

(** X17: [StdNounPhrase.value_for_text] never raises and never returns a
    negative number: on every text its result is a float that is NaN or has
    its sign bit clear. *)
Theorem X17_std_is_never_negative (t : text) (rp : ResourcePool) :
  exists x : Py.float,
    StdNounPhrase.value_for_text t rp = Py.Ok (Py.Float x) /\ not_negative x = true.
Proof.
  eexists. split; [reflexivity|]. unfold Np.std. cbv zeta.
  apply fsqrt_not_negative, mean_not_negative.
  rewrite map_map. apply List.Forall_forall. intros y Hy.
  apply in_map_iff in Hy as (v & <- & _). apply fmul_square_not_negative.
Qed.

(** X18: [MeanNounPhrase.value_for_text] never raises and never returns a
    negative number: on every text its result is a float that is NaN or has
    its sign bit clear. *)
Theorem X18_mean_is_never_negative (t : text) (rp : ResourcePool) :
  exists x : Py.float,
    MeanNounPhrase.value_for_text t rp = Py.Ok (Py.Float x) /\ not_negative x = true.
Proof.
  eexists. split; [reflexivity|]. apply mean_not_negative.
  apply List.Forall_forall. intros y Hy.
  apply in_map_iff in Hy as (sent & <- & _).
  apply nonneg_valid_not_negative, sentence_mean_nonneg_valid.
Qed.

(* ===================================================================== *)
(** * The sort of the category: stability *)
(* ===================================================================== *)

Lemma str_lt_not_ge (a b : string) : Py.str_lt a b = true -> ~ str_le b a.
Proof.
  unfold Py.str_lt, String.ltb, str_le, String.leb.
  rewrite (String.compare_antisym a b).
  destruct (String.compare b a); simpl; congruence.
Qed.

Section SortStability.

Context {A : Type}.
Variable key : A -> string.

Local Abbreviation lt := (fun a b : A => Py.str_lt (key a) (key b)).
Local Abbreviation le := (key_le key).

Lemma key_le_transitive : Relations_1.Transitive le.
Proof. intros a b c Hab Hbc. unfold key_le in *. etransitivity; eassumption. Qed.

Lemma insort_after_smaller (x : A) (l : list A) :
  Forall (fun y => le y x) l -> Py.insort lt x l = l ++ [x].
Proof.
  induction 1 as [|y l Hy _ IH]; simpl; [reflexivity|].
  destruct (Py.str_lt (key x) (key y)) eqn:E.
  - exfalso. apply (str_lt_not_ge _ _ E). exact Hy.
  - rewrite IH. reflexivity.
Qed.

Lemma sorted_prefix_below (front : list A) (x : A) (back : list A) :
  StronglySorted le (front ++ x :: back) -> Forall (fun y => le y x) front.
Proof.
  induction front as [|a front IH]; simpl; intros Hs; [constructor|].
  apply StronglySorted_inv in Hs as [Hs Hall]. constructor; [|apply IH; assumption].
  rewrite List.Forall_forall in Hall. apply Hall. apply in_elt.
Qed.

Lemma fold_insort_sorted (l : list A) :
  forall sorted : list A,
    StronglySorted le (sorted ++ l) ->
    fold_left (fun s x => Py.insort lt x s) l sorted = sorted ++ l.
Proof.
  induction l as [|x l IH]; intros sorted Hs; simpl; [rewrite app_nil_r; reflexivity|].
  rewrite (insort_after_smaller x sorted) by (apply (sorted_prefix_below _ _ l Hs)).
  rewrite IH; rewrite <- app_assoc; [reflexivity | exact Hs].
Qed.

(** Sorting a list that is already in order leaves it as it is. *)
Lemma sort_sorted_unchanged (l : list A) : Sorted le l -> Py.sort key Py.str_lt l = l.
Proof.
  intros Hs. apply (fold_insort_sorted l []). simpl.
  apply Sorted_StronglySorted; [apply key_le_transitive | assumption].
Qed.

Lemma sort_idempotent (l : list A) :
  Py.sort key Py.str_lt (Py.sort key Py.str_lt l) = Py.sort key Py.str_lt l.
Proof. apply sort_sorted_unchanged, sort_sorted. Qed.

Variable k : string.

Local Abbreviation has_key := (fun a : A => String.eqb (key a) k).

Lemma filter_insort_other (x : A) (l : list A) :
  has_key x = false -> List.filter has_key (Py.insort lt x l) = List.filter has_key l.
Proof.
  intros Hx. induction l as [|y l IH]; simpl; [rewrite Hx; reflexivity|].
  destruct (Py.str_lt (key x) (key y)); simpl; [rewrite Hx; reflexivity|].
  rewrite IH. reflexivity.
Qed.

Lemma filter_insort_same (x : A) (l : list A) :
  StronglySorted le l -> has_key x = true ->
  List.filter has_key (Py.insort lt x l) = List.filter has_key l ++ [x].
Proof.
  intros Hs Hx. induction Hs as [|y l Hs IH Hall]; simpl; [rewrite Hx; reflexivity|].
  destruct (Py.str_lt (key x) (key y)) eqn:E.
  - assert (Hnone : List.filter has_key (y :: l) = []).
    { apply String.eqb_eq in Hx.
      assert (Hall' : Forall (fun z => le y z) (y :: l)).
      { constructor; [|assumption]. unfold key_le, str_le.
        destruct (String.leb_total (key y) (key y)); assumption. }
      clear -Hall' Hx E. induction Hall' as [|z l' Hz _ IH]; simpl; [reflexivity|].
      destruct (String.eqb (key z) k) eqn:Ez; [|exact IH].
      apply String.eqb_eq in Ez. exfalso. apply (str_lt_not_ge _ _ E).
      unfold key_le in Hz. congruence. }
    simpl in Hnone |- *. rewrite Hx, Hnone. reflexivity.
  - simpl. rewrite IH. destruct (String.eqb (key y) k); reflexivity.
Qed.

Lemma fold_insort_stable (l : list A) :
  forall sorted : list A,
    Sorted le sorted ->
    List.filter has_key (fold_left (fun s x => Py.insort lt x s) l sorted)
    = List.filter has_key sorted ++ List.filter has_key l.
Proof.
  induction l as [|x l IH]; intros sorted Hs; simpl; [rewrite app_nil_r; reflexivity|].
  rewrite IH by (apply insort_sorted; assumption).
  destruct (String.eqb (key x) k) eqn:Ex.
  - rewrite filter_insort_same;
      [| apply Sorted_StronglySorted; [apply key_le_transitive | assumption] | assumption].
    rewrite <- app_assoc. reflexivity.
  - rewrite filter_insort_other by assumption. reflexivity.
Qed.

(** The elements of one key keep the order they had. *)
Lemma sort_stable (l : list A) :
  List.filter has_key (Py.sort key Py.str_lt l) = List.filter has_key l.
Proof. apply (fold_insort_stable l []). constructor. Qed.

End SortStability.

(** X14: the sort of [Constituents.__init__] is stable: for every name, the
    metrics of that name are, after the construction, in the order in which
    they were discovered. *)
Theorem X14_constituents_sort_is_stable (discovered : list base.Metric) (n : string) :
  let named := List.filter (fun m => String.eqb (base.name m) n) in
  named (base.metrics (Constituents.__init__ discovered)) = named discovered.
Proof. apply (sort_stable base.name n discovered). Qed.

(** X15: when the metrics are discovered in the order of their names,
    [Constituents.__init__] leaves the list as it is. *)
Theorem X15_constituents_sorted_discovery_is_kept (discovered : list base.Metric) :
  Sorted name_le discovered ->
  base.metrics (Constituents.__init__ discovered) = discovered.
Proof. apply (sort_sorted_unchanged base.name discovered). Qed.

Lemma X15_constituents_sorted_discovery_witness :
  base.metrics (Constituents.__init__ Examples.sorted_metrics) = Examples.sorted_metrics.
Proof.
  apply (X15_constituents_sorted_discovery_is_kept Examples.sorted_metrics).
  repeat constructor.
Defined.

(** X16: constructing the category from the metrics of a constructed
    category gives the same category: sorting a second time changes
    nothing. *)
Theorem X16_constituents_sort_is_idempotent (discovered : list base.Metric) :
  Constituents.__init__ (base.metrics (Constituents.__init__ discovered))
  = Constituents.__init__ discovered.
Proof.
  unfold Constituents.__init__. simpl base.metrics. f_equal. apply sort_idempotent.
Qed.

(* ===================================================================== *)
(** * A single noun phrase *)
(* ===================================================================== *)

Lemma float_of_int_exact (n : positive) :
  Zpos n < 2 ^ 53 ->
  exists (m : positive) (e : Z),
    Py.float_of_int (Zpos n) = S754_finite false m e /\ bounded Py.prec Py.emax m e = true.
Proof.
  intros Hn.
  assert (Hd : 0 < Zdigits2 (Zpos n) <= 53).
  { split; [apply Binary64.Zdigits2_pos; lia|].
    pose proof (Binary64.Zdigits2_bounds (Zpos n) eq_refl) as [Hlo _].
    destruct (Z_le_gt_dec (Zdigits2 (Zpos n)) 53) as [|Hgt]; [assumption|].
    assert (2 ^ 53 <= 2 ^ (Zdigits2 (Zpos n) - 1)) by (apply Z.pow_le_mono_r; lia). lia. }
  simpl Zdigits2 in Hd.
  unfold Py.float_of_int, binary_normalize, binary_round, shl_align.
  assert (Hf : fexp Py.prec Py.emax (Zpos (digits2_pos n) + 0) = Zpos (digits2_pos n) - 53).
  { unfold fexp, emin, Py.prec, Py.emax. lia. }
  rewrite Hf.
  destruct (Zpos (digits2_pos n) - 53 - 0) as [|d|d] eqn:Ed; try lia.
  - exists n, 0. rewrite binary_round_aux_canonical.
    + split; [reflexivity|]. unfold bounded, canonical_mantissa.
      apply andb_true_iff. split; [apply Z.eqb_eq | apply Z.leb_le];
        unfold fexp, emin, Py.prec, Py.emax; lia.
    + unfold fexp, emin, Py.prec, Py.emax. lia.
    + unfold Py.prec, Py.emax. lia.
  - exists (shift_pos d n), (Zpos (digits2_pos n) - 53).
    assert (Hc : fexp Py.prec Py.emax
                   (Zpos (digits2_pos (shift_pos d n)) + (Zpos (digits2_pos n) - 53))
                 = Zpos (digits2_pos n) - 53).
    { unfold shift_pos. rewrite Binary64.digits2_pos_iter_xO.
      unfold fexp, emin, Py.prec, Py.emax. lia. }
    rewrite binary_round_aux_canonical; [|exact Hc | unfold Py.prec, Py.emax; lia].
    split; [reflexivity|]. unfold bounded, canonical_mantissa.
    apply andb_true_iff. split; [apply Z.eqb_eq; exact Hc | apply Z.leb_le].
    unfold Py.prec, Py.emax. lia.
Qed.

Lemma fsub_diag (m : positive) (e : Z) :
  Py.fsub (S754_finite false m e) (S754_finite false m e) = S754_zero false.
Proof.
  unfold Py.fsub, SFsub. simpl cond_Zopp. rewrite Z.sub_diag. reflexivity.
Qed.

Lemma std_of_one (a : Np.ndarray) (x : Py.float) :
  Np.as_float64 a = [x] ->
  x = S754_zero false \/ (exists m e, x = S754_finite false m e /\ bounded Py.prec Py.emax m e = true) ->
  Np.std a = S754_zero false.
Proof.
  intros Ha Hx. unfold Np.std. cbv zeta.
  assert (Hm : Np.mean a = x).
  { apply mean_one; [assumption|]. right.
    destruct Hx as [->|(m & e & -> & B)]; constructor. assumption. }
  rewrite Hm, Ha. simpl map.
  assert (Hd : Py.fsub x x = S754_zero false).
  { destruct Hx as [->|(m & e & -> & _)]; [reflexivity | apply fsub_diag]. }
  rewrite Hd. reflexivity.
Qed.

(** X19: on a text that has one top-level noun phrase in all, in whichever
    of its sentences, with fewer than 2^53 leaves,
    [StdNounPhrase.value_for_text] returns 0.0: the size is a float without
    rounding, it is its own mean, and its deviation is 0. *)
Theorem X19_std_single_noun_phrase_is_zero (t : text) (rp : ResourcePool) (n : Z) :
  flattened_sizes t rp = [n] ->
  n < 2 ^ 53 ->
  StdNounPhrase.value_for_text t rp = Py.Ok (Py.Float (S754_zero false)).
Proof.
  intros H Hlen. unfold StdNounPhrase.value_for_text.
  pose proof (flattened_sizes_nonneg t rp) as Hnn.
  rewrite np_sizes_flattened, H. rewrite H in Hnn. inversion Hnn as [|? ? Hn _]; subst.
  do 2 f_equal. apply (std_of_one _ (Py.float_of_int n)); [reflexivity|].
  destruct n as [|p|p].
  - left. reflexivity.
  - right. apply float_of_int_exact. assumption.
  - lia.
Qed.

Lemma X19_std_single_noun_phrase_witness :
  StdNounPhrase.value_for_text "" Examples.house_pool = Py.Ok (Py.Float (S754_zero false)).
Proof.
  apply (X19_std_single_noun_phrase_is_zero "" Examples.house_pool 2); reflexivity.
Defined.
